(** * Tiered query federation: hot (primary) and cold (archive) stores

    Shallow embedding of [utils/archiveQuery.js] and of the unified query
    module (extractDateRange, splitQueryByDate, queryUnifiedSales,
    queryUnifiedPayments, queryUnifiedDealerRequests), with the part of the
    Mongoose/MongoDB query surface those functions call.

    - A Date is its time value in milliseconds, an integer; every
      [new Date()] is an explicit clock reading passed to the function that
      takes it.  The Date arguments of the tier selection may also be the
      Invalid Date; the date operands of a filter are valid Dates.
    - Filters and lean documents are finite maps from field names.
    - [async] code runs in a monad that threads the log of round trips and
      the locals of a federated call, and carries exceptions: a [catch]
      sees what was assigned before the throw.
    - Each round trip to a store may raise on its own; the stores themselves
      are lists of documents in their natural order. *)

From Stdlib Require Import ZArith List Bool Lia Sorting.Permutation Sorting.Sorted.
From stdpp Require Import base gmap strings list.
Import ListNotations.

Local Open Scope Z_scope.

(* ===================================================================== *)
(** ** JavaScript dates

    A [Date] is its time value: milliseconds since the epoch.  Calendar
    fields are read in UTC (the process time zone is taken to be UTC). *)
(* ===================================================================== *)

Module JSDate.

Definition msPerDay : Z := 86400000.

(** Day number of a proleptic Gregorian date; [m] is 1..12. *)
Definition daysFromCivil (y m d : Z) : Z :=
  let y' := if m <=? 2 then y - 1 else y in
  let era := y' / 400 in
  let yoe := y' - era * 400 in
  let mp := (m + 9) mod 12 in
  let doy := (153 * mp + 2) / 5 + d - 1 in
  let doe := yoe * 365 + yoe / 4 - yoe / 100 + doy in
  era * 146097 + doe - 719468.

(** Year, month (1..12) and day of month of a day number. *)
Definition civilFromDays (z : Z) : Z * Z * Z :=
  let z' := z + 719468 in
  let era := z' / 146097 in
  let doe := z' - era * 146097 in
  let yoe := (doe - doe / 1460 + doe / 36524 - doe / 146096) / 365 in
  let y := yoe + era * 400 in
  let doy := doe - (365 * yoe + yoe / 4 - yoe / 100) in
  let mp := (5 * doy + 2) / 153 in
  let d := doy - (153 * mp + 2) / 5 + 1 in
  let m := if mp <? 10 then mp + 3 else mp - 9 in
  (if m <=? 2 then y + 1 else y, m, d).

(** [date.getFullYear()] *)
Definition getFullYear (t : Z) : Z :=
  let '(y, _, _) := civilFromDays (t / msPerDay) in y.

(** [date.setFullYear(year)]: month, day of month and time of day are
    kept; a day of month past the end of the month rolls over (29 Feb
    becomes 1 Mar in a common year), as MakeDay does. *)
Definition setFullYear (t year : Z) : Z :=
  let '(_, m, d) := civilFromDays (t / msPerDay) in
  (daysFromCivil year m 1 + d - 1) * msPerDay + t mod msPerDay.

End JSDate.

(* ===================================================================== *)
(** ** Documents, values and filters *)
(* ===================================================================== *)

(** Field values of a stored document.  [VObj id fields] is an embedded
    document: a populated reference.  A missing field (undefined) is the
    absence of the key. *)
#[warnings="-register-all"]
Inductive Value : Type :=
| VNull
| VBool (b : bool)
| VNum (n : Z)
| VStr (s : string)
| VId (i : N)
| VDate (t : Z)
| VObj (i : N) (fields : list (string * Value)).

(** A lean document: a plain object. *)
Abbreviation Doc := (gmap string Value).

(** Comparison operators on the timestamp field.  The operands are valid
    Dates, given by their time values: a filter whose operand is the Invalid
    Date, or a value that [extractDateRange] would have to convert with
    [new Date], is not among the filters modelled. *)
Record Ops : Type := mkOps {
  op_gte : option Z;
  op_lte : option Z;
  op_gt : option Z;
  op_lt : option Z
}.

(** What a filter says about one field: a bare value, or an operator
    object. *)
Inductive Cond : Type :=
| CEq (v : Value)
| COps (o : Ops).

(** A Mongoose filter object. *)
Abbreviation Query := (gmap string Cond).

(** JavaScript truthiness of a value that is present. *)
Definition truthy (v : Value) : bool :=
  match v with
  | VNull => false
  | VBool b => b
  | VNum n => negb (n =? 0)
  | VStr s => negb (String.eqb s EmptyString)
  | VId _ | VDate _ | VObj _ _ => true
  end.

(* ===================================================================== *)
(** ** utils/archiveQuery.js: threshold and tier selection *)
(* ===================================================================== *)

Definition ARCHIVE_THRESHOLD_YEARS : Z := 2.

(** [getArchiveThresholdDate()]; [now] is the clock reading of
    [new Date()]. *)
Definition getArchiveThresholdDate (now : Z) : Z :=
  JSDate.setFullYear now (JSDate.getFullYear now - ARCHIVE_THRESHOLD_YEARS).

(** A Date object given as a bound: a Date with its time value, or the
    Invalid Date, whose time value is NaN ([new Date(x)] for an [x] that is
    not a date). *)
Inductive DateObj : Type :=
| DateAt (t : Z)
| InvalidDate.

(** [d < threshold] and [d >= threshold] on Date objects compare the time
    values; every comparison with NaN is false. *)
Definition dateLt (d : DateObj) (threshold : Z) : bool :=
  match d with DateAt t => t <? threshold | InvalidDate => false end.

Definition dateGe (d : DateObj) (threshold : Z) : bool :=
  match d with DateAt t => t >=? threshold | InvalidDate => false end.

(** [!x] on a [Date|null] argument: a Date object is always truthy, the
    Invalid Date included. *)
Definition unset {A : Type} (x : option A) : bool :=
  match x with Some _ => false | None => true end.

(** [x && x < threshold] on a [Date|null] argument. *)
Definition setAndBefore (x : option DateObj) (threshold : Z) : bool :=
  match x with Some d => dateLt d threshold | None => false end.

(** [x && x >= threshold] *)
Definition setAndNotBefore (x : option DateObj) (threshold : Z) : bool :=
  match x with Some d => dateGe d threshold | None => false end.

Definition shouldQueryArchive (now : Z) (startDate endDate : option DateObj) : bool :=
  let threshold := getArchiveThresholdDate now in
  if unset startDate && unset endDate then true
  else if setAndBefore endDate threshold then true
  else if setAndBefore startDate threshold then true
  else false.

Definition shouldQueryPrimary (now : Z) (startDate endDate : option DateObj) : bool :=
  let threshold := getArchiveThresholdDate now in
  if unset startDate && unset endDate then true
  else if setAndNotBefore startDate threshold then true
  else if setAndNotBefore endDate threshold then true
  else false.

(* ===================================================================== *)
(** ** Unified query module: date range extraction and query split *)
(* ===================================================================== *)

Record DateRange : Type := mkRange {
  startDate : option Z;
  endDate : option Z
}.

(** [a || b] on optional bounds, as the successive [if (dateQuery.$op)]
    assignments do: the later operator overwrites the earlier one. *)
Definition overwrite (earlier later : option Z) : option Z :=
  match later with Some d => Some d | None => earlier end.

Definition extractDateRange (query : Query) (dateField : string) : option DateRange :=
  match query !! dateField with
  | None => None
  | Some (CEq v) =>
      if negb (truthy v) then None
      else match v with
           | VDate t => Some (mkRange (Some t) (Some t))
           | _ => Some (mkRange None None)
           end
  | Some (COps o) =>
      let startDate := overwrite None (op_gte o) in
      let endDate := overwrite None (op_lte o) in
      let startDate := overwrite startDate (op_gt o) in
      let endDate := overwrite endDate (op_lt o) in
      Some (mkRange startDate endDate)
  end.

(** [dateRange?.startDate] and [dateRange?.endDate] *)
Definition optStart (r : option DateRange) : option Z := r ≫= startDate.
Definition optEnd (r : option DateRange) : option Z := r ≫= endDate.

(** A bound extracted from a filter, as the Date object handed to the tier
    selection: the operands modelled are valid Dates. *)
Definition asDate (bound : option Z) : option DateObj := DateAt <$> bound.

Record SplitQuery : Type := mkSplit {
  primaryQuery : Query;
  archiveQuery : Query;
  queryBoth : bool
}.

(** The operator objects written by the split. *)
Definition opsGteLte (lo hi : Z) : Cond := COps (mkOps (Some lo) (Some hi) None None).
Definition opsGteLt (lo hi : Z) : Cond := COps (mkOps (Some lo) None None (Some hi)).
Definition opsGte (lo : Z) : Cond := COps (mkOps (Some lo) None None None).
Definition opsLte (hi : Z) : Cond := COps (mkOps None (Some hi) None None).
Definition opsLt (hi : Z) : Cond := COps (mkOps None None None (Some hi)).

(** [splitQueryByDate(query, dateField)].  The function reads the clock
    once in each call of [shouldQueryArchive] and [shouldQueryPrimary]
    ([nowA], [nowP], and [nowA'] in the single-tier branch) and once for its
    own threshold ([now]). *)
Definition splitQueryByDate (nowA nowP now nowA' : Z)
    (query : Query) (dateField : string) : SplitQuery :=
  let dateRange := extractDateRange query dateField in
  let queryBoth :=
    shouldQueryArchive nowA (asDate (optStart dateRange)) (asDate (optEnd dateRange)) &&
    shouldQueryPrimary nowP (asDate (optStart dateRange)) (asDate (optEnd dateRange)) in
  let threshold := JSDate.setFullYear now (JSDate.getFullYear now - 2) in
  let primaryQuery := query in
  let archiveQuery := query in
  match dateRange with
  | Some r =>
      if queryBoth then
        match startDate r, endDate r with
        | Some s, Some e =>
            mkSplit
              (<[dateField := opsGteLte (if s <? threshold then threshold else s) e]> primaryQuery)
              (<[dateField := opsGteLt s (if e <? threshold then e else threshold)]> archiveQuery)
              queryBoth
        | Some s, None =>
            mkSplit
              (<[dateField := opsGte (if s <? threshold then threshold else s)]> primaryQuery)
              (<[dateField := opsLt threshold]> archiveQuery)
              queryBoth
        | None, Some e =>
            mkSplit
              (<[dateField := opsLte e]> primaryQuery)
              (<[dateField := opsLt (if e <? threshold then e else threshold)]> archiveQuery)
              queryBoth
        | None, None => mkSplit primaryQuery archiveQuery queryBoth
        end
      else if shouldQueryArchive nowA' (asDate (startDate r)) (asDate (endDate r))
      then mkSplit (delete dateField primaryQuery) archiveQuery queryBoth
      else mkSplit primaryQuery (delete dateField archiveQuery) queryBoth
  | None => mkSplit primaryQuery archiveQuery queryBoth
  end.

(* ===================================================================== *)
(** ** The store query surface (MongoDB through Mongoose) *)
(* ===================================================================== *)

Fixpoint value_eqb (a b : Value) {struct a} : bool :=
  match a, b with
  | VNull, VNull => true
  | VBool x, VBool y => Bool.eqb x y
  | VNum x, VNum y => x =? y
  | VStr x, VStr y => String.eqb x y
  | VId x, VId y => N.eqb x y
  | VDate x, VDate y => x =? y
  | VObj i fs, VObj j gs =>
      N.eqb i j &&
      (fix fields_eqb (fs gs : list (string * Value)) {struct fs} : bool :=
         match fs, gs with
         | [], [] => true
         | (k, v) :: fs', (k', v') :: gs' =>
             String.eqb k k' && value_eqb v v' && fields_eqb fs' gs'
         | _, _ => false
         end) fs gs
  | _, _ => false
  end.

(** A timestamp satisfies every operator that is present. *)
Definition opsMatch (o : Ops) (t : Z) : bool :=
  match op_gte o with Some b => b <=? t | None => true end &&
  match op_lte o with Some b => t <=? b | None => true end &&
  match op_gt o with Some b => b <? t | None => true end &&
  match op_lt o with Some b => t <? b | None => true end.

Definition opsEmpty (o : Ops) : bool :=
  unset (op_gte o) && unset (op_lte o) && unset (op_gt o) && unset (op_lt o).

(** One field of a filter against one field of a document.  Comparison
    operators with a Date operand match Date values only; an operator
    object without operators is a literal empty document, which no value
    modelled here equals; [null] also matches a missing field. *)
Definition condMatches (c : Cond) (v : option Value) : bool :=
  match c with
  | CEq x =>
      match v with
      | Some y => value_eqb x y
      | None => match x with VNull => true | _ => false end
      end
  | COps o =>
      if opsEmpty o then false
      else match v with
           | Some (VDate t) => opsMatch o t
           | _ => false
           end
  end.

(** A document matches a filter when every field condition holds. *)
Definition matches (q : Query) (d : Doc) : bool :=
  bool_decide (map_Forall (fun k c => condMatches c (d !! k) = true) q).

Inductive Dir : Type := Asc | Desc.

(** A sort object such as [{ saleDate: -1, createdAt: -1 }], keys in
    order. *)
Abbreviation SortSpec := (list (string * Dir)).

(** BSON comparison order of the types modelled: null and missing, then
    numbers, strings, objects, ObjectIds, booleans, dates. *)
Definition bsonRank (v : option Value) : Z :=
  match v with
  | None | Some VNull => 1
  | Some (VNum _) => 2
  | Some (VStr _) => 3
  | Some (VObj _ _) => 4
  | Some (VId _) => 5
  | Some (VBool _) => 6
  | Some (VDate _) => 7
  end.

Definition bsonCompare (a b : option Value) : comparison :=
  match a, b with
  | Some (VNum x), Some (VNum y) => x ?= y
  | Some (VStr x), Some (VStr y) => String.compare x y
  | Some (VObj x _), Some (VObj y _) => (x ?= y)%N
  | Some (VId x), Some (VId y) => (x ?= y)%N
  | Some (VBool x), Some (VBool y) => Bool.compare x y
  | Some (VDate x), Some (VDate y) => x ?= y
  | _, _ => bsonRank a ?= bsonRank b
  end.

Fixpoint compareDocs (spec : SortSpec) (a b : Doc) : comparison :=
  match spec with
  | [] => Eq
  | (f, dir) :: rest =>
      match bsonCompare (a !! f) (b !! f) with
      | Eq => compareDocs rest a b
      | c => match dir with Asc => c | Desc => CompOpp c end
      end
  end.

(** Stable sort: [after x y] says that [x] has to come after [y].  The
    elements are inserted from the right, so an element is only moved
    behind those it has to come after, and ties keep their order. *)
Section StableSort.
Context {A : Type} (after : A -> A -> bool).

Fixpoint insertStable (x : A) (l : list A) : list A :=
  match l with
  | [] => [x]
  | y :: l' => if after x y then y :: insertStable x l' else x :: l
  end.

Definition stableSort (l : list A) : list A :=
  fold_right insertStable [] l.
End StableSort.

Definition mongoSort (spec : SortSpec) (docs : list Doc) : list Doc :=
  stableSort (fun a b => match compareDocs spec a b with Gt => true | _ => false end) docs.

(** [.skip(n)] and [.limit(n)] when they are called; MongoDB reads a limit
    of 0 as no limit. *)
Definition mongoSkip (n : option nat) (docs : list Doc) : list Doc :=
  match n with Some k => skipn k docs | None => docs end.

Definition mongoLimit (n : option nat) (docs : list Doc) : list Doc :=
  match n with
  | Some (S k) => firstn (S k) docs
  | Some O | None => docs
  end.

(** [find(query).sort(sort).skip(skip).limit(limit)] over the documents of
    a collection; [None] when the chain leaves the call out. *)
Definition page (q : Query) (spec : SortSpec) (skip limit : option nat)
    (docs : list Doc) : list Doc :=
  mongoLimit limit (mongoSkip skip (mongoSort spec (List.filter (matches q) docs))).

(** [countDocuments(query)] *)
Definition matchedCount (q : Query) (docs : list Doc) : nat :=
  length (List.filter (matches q) docs).

(** A populate option: a path, or [{ path, select }] with the selected
    field names. *)
Inductive Populate : Type :=
| PopPath (path : string)
| PopSpec (path : string) (select : option (list string)).

Definition popPath (p : Populate) : string :=
  match p with PopPath s => s | PopSpec s _ => s end.

(** [typeof pop === 'object' && pop.select ? pop.select : null] *)
Definition popSelect (p : Populate) : option (list string) :=
  match p with
  | PopPath _ => None
  | PopSpec _ (Some (_ :: _ as sel)) => Some sel
  | PopSpec _ _ => None
  end.

Inductive Tier : Type := Hot | Cold.

(** Collections of the main database that references point to. *)
Inductive Collection : Type := User | Product | Shopkeeper | DealerRequest.

Record Entity : Type := mkEntity {
  ent_id : N;
  ent_fields : list (string * Value)
}.

(** The round trips to the stores. *)
Inductive Op : Type :=
| OpCount (t : Tier)
| OpFind (t : Tier)
| OpRefFind (c : Collection)
| OpRefFindById (c : Collection).

Inductive Error : Type :=
| StoreError (o : Op)
| CastError.

Inductive Event : Type :=
| EvCount (t : Tier)
| EvFind (t : Tier) (skip limit : option nat)
| EvRefFind (c : Collection) (ids : list N)
| EvRefFindById (c : Collection) (id : N)
| EvConsoleError (msg : string).

(** The two stores of one record kind, the reference collections, the hot
    store's own reference resolution, and which round trips raise during
    the call. *)
Record World : Type := mkWorld {
  hot : list Doc;
  cold : list Doc;
  refs : Collection -> list Entity;
  hotPopulate : list Populate -> Doc -> Doc;
  fails : Op -> bool
}.

Definition tierDocs (w : World) (t : Tier) : list Doc :=
  match t with Hot => hot w | Cold => cold w end.

(* ===================================================================== *)
(** ** Effects: the log of round trips, the locals of a federated call,
       and exceptions *)
(* ===================================================================== *)

Record St : Type := mkSt {
  log : list Event;
  l_primaryResults : list Doc;
  l_archiveResults : list Doc;
  l_primaryCount : nat;
  l_archiveCount : nat
}.

Definition initSt : St := mkSt [] [] [] 0%nat 0%nat.

Inductive Outcome (A : Type) : Type :=
| Returned (a : A)
| Thrown (e : Error).
Arguments Returned {A} a.
Arguments Thrown {A} e.

(** A computation keeps what it wrote to the state before it threw. *)
Definition M (A : Type) : Type := St -> Outcome A * St.

#[export] Instance M_ret : MRet M := fun A a s => (Returned a, s).
#[export] Instance M_bind : MBind M := fun A B f m s =>
  match m s with
  | (Returned a, s') => f a s'
  | (Thrown e, s') => (Thrown e, s')
  end.

Definition throw {A : Type} (e : Error) : M A := fun s => (Thrown e, s).

(** [try { body } catch (error) { handler }] *)
Definition tryCatch (body : M unit) (handler : Error -> M unit) : M unit := fun s =>
  match body s with
  | (Returned a, s') => (Returned a, s')
  | (Thrown e, s') => handler e s'
  end.

Definition emit (e : Event) : M unit := fun s =>
  (Returned (), mkSt (log s ++ [e]) (l_primaryResults s) (l_archiveResults s)
                     (l_primaryCount s) (l_archiveCount s)).

Definition getSt : M St := fun s => (Returned s, s).

Definition setPrimaryResults (r : list Doc) : M unit := fun s =>
  (Returned (), mkSt (log s) r (l_archiveResults s) (l_primaryCount s) (l_archiveCount s)).
Definition setArchiveResults (r : list Doc) : M unit := fun s =>
  (Returned (), mkSt (log s) (l_primaryResults s) r (l_primaryCount s) (l_archiveCount s)).
Definition setPrimaryCount (n : nat) : M unit := fun s =>
  (Returned (), mkSt (log s) (l_primaryResults s) (l_archiveResults s) n (l_archiveCount s)).
Definition setArchiveCount (n : nat) : M unit := fun s =>
  (Returned (), mkSt (log s) (l_primaryResults s) (l_archiveResults s) (l_primaryCount s) n).

(** One round trip: it is logged, then raises or answers. *)
Definition roundTrip {A : Type} (w : World) (o : Op) (ev : Event) (answer : A) : M A :=
  emit ev;; if fails w o then throw (StoreError o) else mret answer.

(** [Model.countDocuments(query)] *)
Definition countDocuments (w : World) (t : Tier) (q : Query) : M nat :=
  roundTrip w (OpCount t) (EvCount t) (matchedCount q (tierDocs w t)).

(** [Model.find(query).sort(sort).skip(skip).limit(limit).exec()] *)
Definition execFind (w : World) (t : Tier) (q : Query) (spec : SortSpec)
    (skip limit : option nat) : M (list Doc) :=
  roundTrip w (OpFind t) (EvFind t skip limit) (page q spec skip limit (tierDocs w t)).

(** The hot tier's query: filter, sort, page, and the store's own
    reference resolution, in one round trip. *)
Definition execFindHot (w : World) (q : Query) (pops : list Populate)
    (spec : SortSpec) (skip limit : nat) : M (list Doc) :=
  roundTrip w (OpFind Hot) (EvFind Hot (Some skip) (Some limit))
    (map (hotPopulate w pops) (page q spec (Some skip) (Some limit) (hot w))).

(** Casting a value to an ObjectId, as Mongoose does for [_id]; a value
    that does not cast makes the query reject with a CastError.  Reference
    fields hold ObjectIds or populated documents. *)
Definition castObjectId (v : Value) : option N :=
  match v with
  | VId i => Some i
  | VObj i _ => Some i
  | _ => None
  end.

(** [.select('a b c')]: the listed fields, and [_id]. *)
Definition selectFields (sel : list string) (e : Entity) : Entity :=
  mkEntity (ent_id e)
    (List.filter (fun kv => bool_decide (kv.1 ∈ sel)) (ent_fields e)).

(** [Model.find({ _id: { $in: ids } }).select(sel).lean()] *)
Definition refFind (w : World) (c : Collection) (ids : list Value)
    (sel : list string) : M (list Entity) :=
  match mapM castObjectId ids with
  | None => throw CastError
  | Some ns =>
      roundTrip w (OpRefFind c) (EvRefFind c ns)
        (map (selectFields sel)
           (List.filter (fun e => bool_decide (ent_id e ∈ ns)) (refs w c)))
  end.

(** [Model.findById(id).select(sel).lean()]: the document or [null]. *)
Definition refFindById (w : World) (c : Collection) (id : Value)
    (sel : list string) : M (option Entity) :=
  match castObjectId id with
  | None => throw CastError
  | Some n =>
      roundTrip w (OpRefFindById c) (EvRefFindById c n)
        (selectFields sel <$> List.find (fun e => N.eqb (ent_id e) n) (refs w c))
  end.

(** A fetched document, or [null], as a field value. *)
Definition entityValue (e : option Entity) : Value :=
  match e with
  | Some e => VObj (ent_id e) (ent_fields e)
  | None => VNull
  end.

(** [obj.field] used as a condition. *)
Definition truthyField (d : Doc) (f : string) : bool :=
  match d !! f with Some v => truthy v | None => false end.

(* ===================================================================== *)
(** ** utils/archiveQuery.js: archive queries *)
(* ===================================================================== *)

(** The options of a query, defaults applied.  [skip] and [limit] are
    non-negative integers; [lean] is left out: documents are plain objects
    throughout, as with the default [lean = true]. *)
Record Options : Type := mkOptions {
  populate : list Populate;
  sort : SortSpec;
  skip : nat;
  limit : nat
}.

(** [if (n) archiveQuery = archiveQuery.skip(n)], and the same for the
    limit: a zero (or null) option leaves the call out. *)
Definition whenNonZero (n : nat) : option nat :=
  match n with O => None | S _ => Some n end.

(** The archive query chain up to [exec()]. *)
Definition archiveExec (w : World) (q : Query) (o : Options) : M (list Doc) :=
  execFind w Cold q (sort o) (whenNonZero (skip o)) (whenNonZero (limit o)).

(** A JavaScript [Set] in insertion order.  An entry records where the
    value was read (row and field): two objects are the same entry only
    when they are the same object, primitives when they are equal. *)
Abbreviation IdSet := (list (nat * string * Value)).

Definition isPrimitive (v : Value) : bool :=
  match v with
  | VNull | VBool _ | VNum _ | VStr _ => true
  | VId _ | VDate _ | VObj _ _ => false
  end.

Definition sameValueZero (a b : nat * string * Value) : bool :=
  if isPrimitive a.2 then value_eqb a.2 b.2
  else negb (isPrimitive b.2) && Nat.eqb a.1.1 b.1.1 && String.eqb a.1.2 b.1.2.

Definition setAdd (s : IdSet) (x : nat * string * Value) : IdSet :=
  if existsb (sameValueZero x) s then s else s ++ [x].

(** [if (popPath === field && resultObj[field]) ids.add(resultObj[field])] *)
Definition addIf (path field : string) (i : nat) (d : Doc) (s : IdSet) : IdSet :=
  if String.eqb path field && truthyField d field
  then match d !! field with Some v => setAdd s (i, field, v) | None => s end
  else s.

Record SaleIds : Type := mkSaleIds {
  userIds : IdSet;
  productIds : IdSet;
  shopkeeperIds : IdSet
}.

Definition collectRow (path : string) (acc : SaleIds) (row : nat * Doc) : SaleIds :=
  let '(i, d) := row in
  let users := addIf path "salesman" i d (userIds acc) in
  let users := addIf path "dealer" i d users in
  let products := addIf path "product" i d (productIds acc) in
  let shopkeepers := addIf path "shopkeeper" i d (shopkeeperIds acc) in
  mkSaleIds users products shopkeepers.

Definition collectSaleIds (pops : list Populate) (resultObjs : list Doc) : SaleIds :=
  fold_left
    (fun acc pop => fold_left (collectRow (popPath pop)) (imap pair resultObjs) acc)
    pops (mkSaleIds [] [] []).

(** [Array.from(set)] *)
Definition setValues (s : IdSet) : list Value := map snd s.

(** [await m] with the rejection kept as a value. *)
Definition settle {A : Type} (m : M A) : M (Outcome A) := fun s =>
  let '(o, s') := m s in (Returned o, s').

(** [await Promise.all([a, b, c])]: the three queries are all issued; the
    call throws when one of them rejects. *)
Definition promiseAll3 {A B C : Type} (a : M A) (b : M B) (c : M C) : M (A * B * C) :=
  oa ← settle a; ob ← settle b; oc ← settle c;
  match oa, ob, oc with
  | Returned x, Returned y, Returned z => mret (x, y, z)
  | Thrown e, _, _ => throw e
  | _, Thrown e, _ => throw e
  | _, _, Thrown e => throw e
  end.

(** [new Map(docs.map(d => [d._id.toString(), d]))] and [map.get(key)]: with
    two entries for one key the later one is kept. *)
Definition mapGet (entries : list Entity) (key : N) : option Entity :=
  List.find (fun e => N.eqb (ent_id e) key) (rev entries).

(** [map.get(value.toString()) || null]: only an ObjectId prints as the key
    of an entry. *)
Definition lookupOrNull (entries : list Entity) (v : option Value) : Value :=
  match v with
  | Some (VId i) => entityValue (mapGet entries i)
  | _ => VNull
  end.

Definition stitchSale (users products shopkeepers : list Entity)
    (resultObj : Doc) (pop : Populate) : Doc :=
  let path := popPath pop in
  if String.eqb path "salesman" && truthyField resultObj "salesman" then
    <["salesman" := lookupOrNull users (resultObj !! "salesman")]> resultObj
  else if String.eqb path "dealer" && truthyField resultObj "dealer" then
    <["dealer" := lookupOrNull users (resultObj !! "dealer")]> resultObj
  else if String.eqb path "product" && truthyField resultObj "product" then
    <["product" := lookupOrNull products (resultObj !! "product")]> resultObj
  else if String.eqb path "shopkeeper" && truthyField resultObj "shopkeeper" then
    <["shopkeeper" := lookupOrNull shopkeepers (resultObj !! "shopkeeper")]> resultObj
  else resultObj.

Definition queryArchiveSales (w : World) (query : Query) (options : Options) : M (list Doc) :=
  results ← archiveExec w query options;
  if (0 <? length (populate options))%nat && (0 <? length results)%nat then
    let resultObjs := results in
    let ids := collectSaleIds (populate options) resultObjs in
    '(users, products, shopkeepers) ← promiseAll3
      (if (0 <? length (userIds ids))%nat
       then refFind w User (setValues (userIds ids)) ["name"; "email"]
       else mret [])
      (if (0 <? length (productIds ids))%nat
       then refFind w Product (setValues (productIds ids))
              ["title"; "packetPrice"; "packetsPerStrip"; "image"]
       else mret [])
      (if (0 <? length (shopkeeperIds ids))%nat
       then refFind w Shopkeeper (setValues (shopkeeperIds ids))
              ["name"; "phone"; "email"; "location"]
       else mret []);
    mret (map (fun resultObj =>
                 fold_left (stitchSale users products shopkeepers) (populate options) resultObj)
              resultObjs)
  else mret results.

Definition countArchiveSales (w : World) (query : Query) : M nat :=
  countDocuments w Cold query.

(** Fields of a fetched document, which is a plain object. *)
Fixpoint fieldGet (k : string) (fs : list (string * Value)) : option Value :=
  match fs with
  | [] => None
  | (k', v) :: fs' => if String.eqb k k' then Some v else fieldGet k fs'
  end.

Fixpoint fieldSet (k : string) (v : Value) (fs : list (string * Value)) : list (string * Value) :=
  match fs with
  | [] => [(k, v)]
  | (k', v') :: fs' => if String.eqb k k' then (k, v) :: fs' else (k', v') :: fieldSet k v fs'
  end.

(** [popSelect || 'a b c'] *)
Definition selectOr (sel : option (list string)) (dflt : list string) : list string :=
  match sel with Some l => l | None => dflt end.

(** Sequential loop with awaits in its body. *)
Fixpoint foldM {A B : Type} (f : A -> B -> M A) (a : A) (l : list B) : M A :=
  match l with
  | [] => mret a
  | b :: l' => a' ← f a b; foldM f a' l'
  end.

Fixpoint forM {A B : Type} (f : A -> M B) (l : list A) : M (list B) :=
  match l with
  | [] => mret []
  | a :: l' => b ← f a; bs ← forM f l'; mret (b :: bs)
  end.

(** The body of the inner loop of [queryArchivePayments]. *)
Definition populatePayment (w : World) (resultObj : Doc) (pop : Populate) : M Doc :=
  let path := popPath pop in
  let sel := popSelect pop in
  if String.eqb path "dealer" && truthyField resultObj "dealer" then
    dealer ← refFindById w User (default VNull (resultObj !! "dealer"))
               (selectOr sel ["name"; "email"]);
    mret (<["dealer" := entityValue dealer]> resultObj)
  else if String.eqb path "dealerRequest" && truthyField resultObj "dealerRequest" then
    dealerRequest ← refFindById w DealerRequest (default VNull (resultObj !! "dealerRequest"))
      (selectOr sel ["strips"; "status"; "totalAmount"; "paidAmount"; "paymentType";
                     "product"; "orderGroupId"]);
    dealerRequest ←
      match dealerRequest with
      | Some dr =>
          match fieldGet "product" (ent_fields dr) with
          | Some p =>
              if truthy p then
                product ← refFindById w Product p
                            ["title"; "image"; "packetPrice"; "packetsPerStrip"];
                mret (Some (mkEntity (ent_id dr)
                              (fieldSet "product" (entityValue product) (ent_fields dr))))
              else mret (Some dr)
          | None => mret (Some dr)
          end
      | None => mret None
      end;
    mret (<["dealerRequest" := entityValue dealerRequest]> resultObj)
  else if String.eqb path "processedBy" && truthyField resultObj "processedBy" then
    processedBy ← refFindById w User (default VNull (resultObj !! "processedBy"))
                    (selectOr sel ["name"; "email"]);
    mret (<["processedBy" := entityValue processedBy]> resultObj)
  else mret resultObj.

Definition queryArchivePayments (w : World) (query : Query) (options : Options) : M (list Doc) :=
  results ← archiveExec w query options;
  if (0 <? length (populate options))%nat && (0 <? length results)%nat then
    forM (fun result => foldM (populatePayment w) result (populate options)) results
  else mret results.

Definition countArchivePayments (w : World) (query : Query) : M nat :=
  countDocuments w Cold query.

(** The body of the inner loop of [queryArchiveDealerRequests]. *)
Definition populateDealerRequest (w : World) (resultObj : Doc) (pop : Populate) : M Doc :=
  let path := popPath pop in
  let sel := popSelect pop in
  if String.eqb path "dealer" && truthyField resultObj "dealer" then
    dealer ← refFindById w User (default VNull (resultObj !! "dealer"))
               (selectOr sel ["name"; "email"]);
    mret (<["dealer" := entityValue dealer]> resultObj)
  else if String.eqb path "product" && truthyField resultObj "product" then
    product ← refFindById w Product (default VNull (resultObj !! "product"))
      (selectOr sel ["title"; "packetPrice"; "initialPacketPrice"; "packetsPerStrip"; "image"]);
    mret (<["product" := entityValue product]> resultObj)
  else if String.eqb path "processedBy" && truthyField resultObj "processedBy" then
    processedBy ← refFindById w User (default VNull (resultObj !! "processedBy"))
                    (selectOr sel ["name"; "email"]);
    mret (<["processedBy" := entityValue processedBy]> resultObj)
  else mret resultObj.

Definition queryArchiveDealerRequests (w : World) (query : Query) (options : Options) : M (list Doc) :=
  results ← archiveExec w query options;
  if (0 <? length (populate options))%nat && (0 <? length results)%nat then
    forM (fun result => foldM (populateDealerRequest w) result (populate options)) results
  else mret results.

Definition countArchiveDealerRequests (w : World) (query : Query) : M nat :=
  countDocuments w Cold query.

Definition normalizeArchiveRecord (record : Doc) : Doc :=
  let normalized := record in
  if truthyField normalized "originalId" && negb (truthyField normalized "_originalId")
  then match normalized !! "originalId" with
       | Some v => <["_originalId" := v]> normalized
       | None => normalized
       end
  else normalized.

(* ===================================================================== *)
(** ** Unified query module: the federated queries *)
(* ===================================================================== *)

Record UnifiedResult : Type := mkResult {
  data : list Doc;
  total : nat;
  fromPrimary : nat;
  fromArchive : nat;
  primaryCount : nat;
  archiveCount : nat
}.

(** [a.field || a.createdAt] *)
Definition fieldOrCreatedAt (field : string) (a : Doc) : option Value :=
  match a !! field with
  | Some v => if truthy v then Some v else a !! "createdAt"
  | None => a !! "createdAt"
  end.

(** Time value of [new Date(v)]; [None] is NaN (an Invalid Date).  Stored
    timestamps are Dates; the parse of a string is not modelled. *)
Definition newDate (v : option Value) : option Z :=
  match v with
  | Some (VDate t) => Some t
  | Some (VNum n) => Some n
  | Some VNull => Some 0
  | Some (VBool b) => Some (if b then 1 else 0)
  | Some (VStr _) | Some (VId _) | Some (VObj _ _) | None => None
  end.

(** The comparator [(a, b) => dateB - dateA]; [None] is NaN. *)
Definition compareByDateDesc (field : string) (a b : Doc) : option Z :=
  match newDate (fieldOrCreatedAt field a), newDate (fieldOrCreatedAt field b) with
  | Some dateA, Some dateB => Some (dateB - dateA)
  | _, _ => None
  end.

(** [array.sort(comparator)]: a stable sort; [a] goes after [b] when the
    comparator is positive, and NaN counts as zero. *)
Definition jsAfter (comparator : Doc -> Doc -> option Z) (a b : Doc) : bool :=
  match comparator a b with Some v => 0 <? v | None => false end.

Definition jsSort (comparator : Doc -> Doc -> option Z) (l : list Doc) : list Doc :=
  stableSort (jsAfter comparator) l.

(** The date a record is re-sorted by. *)
Definition sortDate (field : string) (a : Doc) : option Z :=
  newDate (fieldOrCreatedAt field a).


(** [c] is not newer than [h]. *)
Definition notNewer (field : string) (c h : Doc) : Prop :=
  forall tc th, sortDate field c = Some tc -> sortDate field h = Some th -> tc <= th.

(** What differs between the three federated queries. *)
Record KindOps : Type := mkKind {
  kindDateRange : Query -> option DateRange;
  kindDateField : string;
  kindQueryArchive : World -> Query -> Options -> M (list Doc);
  kindCountArchive : World -> Query -> M nat;
  kindName : string
}.

(** [a || b] on the result of [extractDateRange]: a range object is
    truthy, [null] is not. *)
Definition orRange (a b : option DateRange) : option DateRange :=
  match a with Some r => Some r | None => b end.

(** [queryPrimary ? Math.max(0, limit - primaryResults.length) : limit] *)
Definition archiveLimit (queryPrimary : bool) (limit fetched : nat) : nat :=
  if queryPrimary
  then Z.to_nat (Z.max 0 (Z.of_nat limit - Z.of_nat fetched))
  else limit.

(** [queryPrimary && primaryResults.length < limit ? 0 : skip] *)
Definition archiveSkip (queryPrimary : bool) (limit fetched skip : nat) : nat :=
  if queryPrimary && (fetched <? limit)%nat then 0%nat else skip.

(** The first [try] block of a federated query: the hot tier. *)
Definition queryPrimaryBlock (k : KindOps) (w : World) (query : Query)
    (options : Options) : M unit :=
  tryCatch
    (count ← countDocuments w Hot query;
     setPrimaryCount count;;
     results ← execFindHot w query (populate options) (sort options)
                 (skip options) (limit options);
     setPrimaryResults results)
    (fun error => emit (EvConsoleError ("Error querying primary " +:+ kindName k))).

(** The second [try] block: the cold tier. *)
Definition queryArchiveBlock (k : KindOps) (w : World) (queryPrimary : bool)
    (query : Query) (options : Options) : M unit :=
  tryCatch
    (s ← getSt;
     let fetched := length (l_primaryResults s) in
     results ← kindQueryArchive k w query
                 (mkOptions (populate options) (sort options)
                    (archiveSkip queryPrimary (limit options) fetched (skip options))
                    (archiveLimit queryPrimary (limit options) fetched));
     setArchiveResults results;;
     count ← kindCountArchive k w query;
     setArchiveCount count;;
     setArchiveResults (map normalizeArchiveRecord results))
    (fun error => emit (EvConsoleError ("Error querying archive " +:+ kindName k))).

(** Merge, re-sort when both tiers were queried, and cut to the limit. *)
Definition mergeResults (dateField : string) (queryArchive queryPrimary : bool)
    (limit : nat) (primaryResults archiveResults : list Doc) : list Doc :=
  let mergedResults := primaryResults ++ archiveResults in
  if queryArchive && queryPrimary && (0 <? length mergedResults)%nat then
    let sorted := jsSort (compareByDateDesc dateField) mergedResults in
    if (limit <? length sorted)%nat then firstn limit sorted else sorted
  else mergedResults.

(** The body shared by [queryUnifiedSales], [queryUnifiedPayments] and
    [queryUnifiedDealerRequests].  [nowA] and [nowP] are the clock
    readings of the two threshold computations. *)
Definition queryUnified (k : KindOps) (w : World) (nowA nowP : Z)
    (query : Query) (options : Options) : M UnifiedResult :=
  let dateRange := kindDateRange k query in
  let queryArchive :=
    shouldQueryArchive nowA (asDate (optStart dateRange)) (asDate (optEnd dateRange)) in
  let queryPrimary :=
    shouldQueryPrimary nowP (asDate (optStart dateRange)) (asDate (optEnd dateRange)) in
  (if queryPrimary then queryPrimaryBlock k w query options else mret ());;
  (if queryArchive then queryArchiveBlock k w queryPrimary query options else mret ());;
  s ← getSt;
  mret (mkResult
          (mergeResults (kindDateField k) queryArchive queryPrimary (limit options)
             (l_primaryResults s) (l_archiveResults s))
          (l_primaryCount s + l_archiveCount s)%nat
          (length (l_primaryResults s))
          (length (l_archiveResults s))
          (l_primaryCount s)
          (l_archiveCount s)).

Definition saleKind : KindOps :=
  mkKind (fun query => extractDateRange query "saleDate")
         "saleDate" queryArchiveSales countArchiveSales "sales".

Definition paymentKind : KindOps :=
  mkKind (fun query => orRange (extractDateRange query "transactionDate")
                               (extractDateRange query "createdAt"))
         "transactionDate" queryArchivePayments countArchivePayments "payments".

Definition dealerRequestKind : KindOps :=
  mkKind (fun query => orRange (extractDateRange query "requestedAt")
                               (extractDateRange query "createdAt"))
         "requestedAt" queryArchiveDealerRequests countArchiveDealerRequests
         "dealer requests".

Definition queryUnifiedSales := queryUnified saleKind.
Definition queryUnifiedPayments := queryUnified paymentKind.
Definition queryUnifiedDealerRequests := queryUnified dealerRequestKind.

(** Running a federated call from fresh locals and an empty log. *)
Definition run {A : Type} (m : M A) : Outcome A * St := m initSt.


(** The tier selection of a federated call. *)
Definition selectsArchive (k : KindOps) (nowA : Z) (query : Query) : bool :=
  shouldQueryArchive nowA (asDate (optStart (kindDateRange k query)))
                          (asDate (optEnd (kindDateRange k query))).

Definition selectsPrimary (k : KindOps) (nowP : Z) (query : Query) : bool :=
  shouldQueryPrimary nowP (asDate (optStart (kindDateRange k query)))
                          (asDate (optEnd (kindDateRange k query))).

(** The three record kinds. *)
Definition knownKind (k : KindOps) : Prop :=
  k = saleKind \/ k = paymentKind \/ k = dealerRequestKind.

(** The state with more events logged. *)
Definition appendLog (l : list Event) (s : St) : St :=
  mkSt (log s ++ l) (l_primaryResults s) (l_archiveResults s)
       (l_primaryCount s) (l_archiveCount s).

(** A computation that only logs: whatever the state, it has the same
    outcome and appends the same events. *)
Definition writes {A : Type} (m : M A) (o : Outcome A) (l : list Event) : Prop :=
  forall s, m s = (o, appendLog l s).

Definition logsOnly {A : Type} (m : M A) : Prop :=
  exists o l, writes m o l.

(** No tier error was reported on the console. *)
Definition noErrorLogged (s : St) : Prop :=
  forall msg, ~ In (EvConsoleError msg) (log s).

Definition isRefFind (c : Collection) (e : Event) : bool :=
  match e, c with
  | EvRefFind User _, User
  | EvRefFind Product _, Product
  | EvRefFind Shopkeeper _, Shopkeeper
  | EvRefFind DealerRequest _, DealerRequest => true
  | _, _ => false
  end.

Definition isRefFindById (e : Event) : bool :=
  match e with EvRefFindById _ _ => true | _ => false end.

(** Number of batch lookups into a collection, and of point lookups. *)
Definition batchLookups (c : Collection) (l : list Event) : nat :=
  length (List.filter (isRefFind c) l).

Definition pointLookups (l : list Event) : nat :=
  length (List.filter isRefFindById l).

(** The console messages of the two [catch] blocks. *)
Definition primaryError (k : KindOps) : Event :=
  EvConsoleError ("Error querying primary " +:+ kindName k).

Definition archiveError (k : KindOps) : Event :=
  EvConsoleError ("Error querying archive " +:+ kindName k).

(** The options the cold tier is queried with once the hot tier has
    returned [fetched] records. *)
Definition archiveOptions (queryPrimary : bool) (o : Options) (fetched : nat) : Options :=
  mkOptions (populate o) (sort o)
    (archiveSkip queryPrimary (limit o) fetched (skip o))
    (archiveLimit queryPrimary (limit o) fetched).

(** The hot tier's page, references resolved by the store. *)
Definition hotPage (w : World) (q : Query) (o : Options) : list Doc :=
  map (hotPopulate w (populate o))
      (page q (sort o) (Some (skip o)) (Some (limit o)) (hot w)).

(* ===================================================================== *)
(** ** Concrete scenarios

    "now" is 2025-01-01T00:00:00Z, so the threshold is 2023-01-01. *)
(* ===================================================================== *)

Definition now2025 : Z := 1735689600000.
Definition t2023_01_01 : Z := 1672531200000.
Definition t2022_06_01 : Z := 1654041600000.
Definition t2024_06_01 : Z := 1717200000000.

(** [{ billStatus: 'approved', saleDate: { $gte: 2022-06-01, $lte: 2024-06-01 } }] *)
Definition straddleQuery : Query :=
  <["billStatus" := CEq (VStr "approved")]>
    (<["saleDate" := COps (mkOps (Some t2022_06_01) (Some t2024_06_01) None None)]> ∅).


(** An approved sale with the given identifier and sale date. *)
Definition saleAt (id : N) (t : Z) : Doc :=
  <["_id" := VId id]>
    (<["saleDate" := VDate t]>
       (<["createdAt" := VDate t]>
          (<["billStatus" := VStr "approved"]> ∅))).

(** [{ billStatus: 'approved' }]: no date restriction. *)
Definition approvedQuery : Query := <["billStatus" := CEq (VStr "approved")]> ∅.

(** The record as the archiver leaves it in the cold store. *)
Definition archived (d : Doc) : Doc :=
  <["archivedAt" := VDate now2025]>
    (<["originalId" := default VNull (d !! "_id")]> d).

Definition noRefs (c : Collection) : list Entity := [].

Definition healthy (op : Op) : bool := false.

(** One recent sale in the hot store, one old sale in the cold store. *)
Definition twoTierWorld : World :=
  mkWorld [saleAt 1 t2024_06_01] [archived (saleAt 2 t2022_06_01)]
          noRefs (fun _ d => d) healthy.

(** The cold store holds a sale dated exactly at the threshold. *)
Definition boundaryWorld : World :=
  mkWorld [] [archived (saleAt 7 t2023_01_01)] noRefs (fun _ d => d) healthy.

Definition defaultSaleOptions : Options :=
  mkOptions [] [("saleDate", Desc); ("createdAt", Desc)] 0 50.


(** The hot tier answers the count, then its find raises. *)
Definition hotFindFails (op : Op) : bool :=
  match op with OpFind Hot => true | _ => false end.

(** The cold tier answers the find, then its count raises. *)
Definition coldCountFails (op : Op) : bool :=
  match op with OpCount Cold => true | _ => false end.

Definition hotFindFailsWorld : World :=
  mkWorld [saleAt 1 t2024_06_01] [archived (saleAt 2 t2022_06_01)]
          noRefs (fun _ d => d) hotFindFails.

Definition coldCountFailsWorld : World :=
  mkWorld [saleAt 1 t2024_06_01] [archived (saleAt 2 t2022_06_01)]
          noRefs (fun _ d => d) coldCountFails.

(** A page of one record: the hot store fills it, the cold store holds
    two more matching records. *)
Definition fullPageWorld : World :=
  mkWorld [saleAt 1 t2024_06_01]
          [archived (saleAt 2 t2022_06_01); archived (saleAt 3 (t2022_06_01 - 1))]
          noRefs (fun _ d => d) healthy.

Definition pageOfOneOptions : Options :=
  mkOptions [] [("saleDate", Desc); ("createdAt", Desc)] 0 1.

(** A completed payment of a dealer. *)
Definition paymentAt (id : N) (t : Z) (dealer : N) : Doc :=
  <["_id" := VId id]>
    (<["transactionDate" := VDate t]>
       (<["createdAt" := VDate t]>
          (<["dealer" := VId dealer]>
             (<["status" := VStr "completed"]> ∅)))).

Definition userNamed (id : N) (name : string) : Entity :=
  mkEntity id [("name", VStr name); ("email", VStr (name +:+ "@example.com"));
               ("password", VStr "hash")].

Definition someUsers (c : Collection) : list Entity :=
  match c with
  | User => [userNamed 10 "asha"; userNamed 11 "binod"]
  | _ => []
  end.

(** Two archived payments of two dealers. *)
Definition paymentsWorld : World :=
  mkWorld []
          [archived (paymentAt 1 t2022_06_01 10);
           archived (paymentAt 2 (t2022_06_01 - 1) 11)]
          someUsers (fun _ d => d) healthy.

Definition dealerPopulateOptions : Options :=
  mkOptions [PopPath "dealer"] [("transactionDate", Desc); ("createdAt", Desc)] 0 0.

(** An archived sale with a salesman and a dealer. *)
Definition saleBy (id : N) (t : Z) (salesman dealer : N) : Doc :=
  <["salesman" := VId salesman]> (<["dealer" := VId dealer]> (saleAt id t)).

Definition salesWorld : World :=
  mkWorld []
          [archived (saleBy 1 t2022_06_01 10 11);
           archived (saleBy 2 (t2022_06_01 - 1) 10 12)]
          someUsers (fun _ d => d) healthy.

Definition salesmanDealerOptions : Options :=
  mkOptions [PopPath "salesman"; PopSpec "dealer" (Some ["name"])]
            [("saleDate", Desc); ("createdAt", Desc)] 0 0.

(** What a batch lookup of the identifiers in [ids] brings back. *)
Definition fetched (w : World) (c : Collection) (ids : IdSet) (sel : list string)
    : list Entity :=
  if (0 <? length ids)%nat then
    match mapM castObjectId (setValues ids) with
    | Some ns =>
        map (selectFields sel)
            (List.filter (fun e => bool_decide (ent_id e ∈ ns)) (refs w c))
    | None => []
    end
  else [].

(** [{ saleDate: { $gte: 2024-12-01 } }] *)
Definition recentQuery : Query :=
  <["saleDate" := COps (mkOps (Some 1733011200000) None None None)]> ∅.

(** [{ saleDate: { $gte: 2020-01-01, $lte: 2020-12-31 } }] *)
Definition oldQuery : Query :=
  <["saleDate" := COps (mkOps (Some 1577836800000) (Some 1609372800000) None None)]> ∅.

(** Two matching sales in each store, and the second page of one record. *)
Definition secondPageWorld : World :=
  mkWorld [saleAt 1 t2024_06_01; saleAt 4 (t2024_06_01 - 1)]
          [archived (saleAt 2 t2022_06_01); archived (saleAt 3 (t2022_06_01 - 1))]
          noRefs (fun _ d => d) healthy.

Definition secondPageOptions : Options :=
  mkOptions [] [("saleDate", Desc); ("createdAt", Desc)] 1 1.

(** The hot store still holds a sale older than the one in the cold
    store. *)
Definition staleHotWorld : World :=
  mkWorld [saleAt 1 (t2022_06_01 - 1)] [archived (saleAt 2 t2022_06_01)]
          noRefs (fun _ d => d) healthy.




(* ===================================================================== *)
(** ** Notions used by the further properties *)
(* ===================================================================== *)

(** A query on the main model of the record kind ([Sale], [Payment] or
    [DealerRequest]): its [countDocuments] or its [find].  The queries that
    Mongoose's populate and the cold tier's reference resolution send to the
    other collections of the main database are not among them. *)
Definition isMainModelQuery (e : Event) : bool :=
  match e with
  | EvCount Hot | EvFind Hot _ _ => true
  | _ => false
  end.

(** A query on the archive model of the record kind: its [find] or its
    [countDocuments]; these are the round trips to the archive database. *)
Definition isArchiveModelQuery (e : Event) : bool :=
  match e with
  | EvCount Cold | EvFind Cold _ _ => true
  | _ => false
  end.

(** A lookup by the engine into a reference collection of the main
    database, batch or point. *)
Definition isRefLookup (e : Event) : bool :=
  match e with
  | EvRefFind _ _ | EvRefFindById _ _ => true
  | _ => false
  end.

(** A computation that only logs at most [n] events, all of them
    satisfying [P]. *)
Definition emitsAtMost {A : Type} (n : nat) (P : Event -> bool) (m : M A) : Prop :=
  exists o l, writes m o l /\ (length l <= n)%nat /\ forallb P l = true.

(** The four reference paths the archive sales query resolves. *)
Definition salePaths : list string := ["salesman"; "dealer"; "product"; "shopkeeper"].

(** Only the field named by the path can change. *)
Definition sameElsewhere (path : string) (d d' : Doc) : Prop :=
  forall key, key <> path -> d' !! key = d !! key.

(** The collection a reference path of a sale is resolved in. *)
Definition saleRefCollection (path : string) : option Collection :=
  if String.eqb path "salesman" then Some User
  else if String.eqb path "dealer" then Some User
  else if String.eqb path "product" then Some Product
  else if String.eqb path "shopkeeper" then Some Shopkeeper
  else None.

(** The fields the batch lookup into a collection selects. *)
Definition saleRefSelect (c : Collection) : list string :=
  match c with
  | User => ["name"; "email"]
  | Product => ["title"; "packetPrice"; "packetsPerStrip"; "image"]
  | Shopkeeper => ["name"; "phone"; "email"; "location"]
  | DealerRequest => []
  end.

(** [i] is a foreign key into collection [c]: the ObjectId some record of
    the page holds under a requested path that is resolved in [c]. *)
Definition saleKey (c : Collection) (paths : list string) (rows : list Doc) (i : N) : Prop :=
  exists row path,
    In row rows /\ In path paths /\ saleRefCollection path = Some c /\
    row !! path = Some (VId i).

(** A reference field as the archiver stores it: an ObjectId, or nothing
    (missing, null or another falsy value). *)
Definition idOrFalsy (v : option Value) : bool :=
  match v with
  | Some (VId _) => true
  | Some v => negb (truthy v)
  | None => true
  end.

Definition refsAreIds (rows : list Doc) : bool :=
  forallb (fun row => forallb (fun f => idOrFalsy (row !! f)) salePaths) rows.

(** The identifier set gathered for a collection. *)
Definition idsOf (c : Collection) (ids : SaleIds) : IdSet :=
  match c with
  | User => userIds ids
  | Product => productIds ids
  | Shopkeeper => shopkeeperIds ids
  | DealerRequest => []
  end.

(** Every entry of the set was read from a record of the page, and is an
    object. *)
Definition entriesFrom (rows : list Doc) (s : IdSet) : Prop :=
  forall i f v, In (i, f, v) s ->
    exists d, rows !! i = Some d /\ d !! f = Some v /\ isPrimitive v = false.

(** A record of the page, one of its reference paths resolved in [c],
    and the truthy value it holds there. *)
Definition gathered (c : Collection) (path : string) (d : Doc) (v : Value) : Prop :=
  saleRefCollection path = Some c /\ d !! path = Some v /\ truthy v = true.

(** The documents fetched for a collection, among the three batches. *)
Definition entriesOf (c : Collection) (users products shopkeepers : list Entity)
    : list Entity :=
  match c with
  | User => users
  | Product => products
  | Shopkeeper => shopkeepers
  | DealerRequest => []
  end.

(** The batch lookup logged for a collection, if its set is not empty. *)
Definition batchLog (c : Collection) (ids : IdSet) (ns : list N) : list Event :=
  if (0 <? length ids)%nat then [EvRefFind c ns] else [].

(* ===================================================================== *)
(** ** scripts/testUnifiedQueries.js: the date ranges of the test script *)
(* ===================================================================== *)

Module JSDateDay.

(** [date.getDate()]: the day of the month. *)
Definition getDate (t : Z) : Z :=
  let '(_, _, d) := JSDate.civilFromDays (t / JSDate.msPerDay) in d.

(** [date.setDate(day)]: year, month and time of day are kept; a day
    outside the month rolls over into the neighbouring months. *)
Definition setDate (t day : Z) : Z :=
  let '(y, m, _) := JSDate.civilFromDays (t / JSDate.msPerDay) in
  (JSDate.daysFromCivil y m 1 + day - 1) * JSDate.msPerDay + t mod JSDate.msPerDay.

(** [date.setMonth(month)], [month] counted from 0: year, day of month and
    time of day are kept; the day rolls over as for [setDate]. *)
Definition setMonth (t month : Z) : Z :=
  let '(y, _, d) := JSDate.civilFromDays (t / JSDate.msPerDay) in
  (JSDate.daysFromCivil (y + month / 12) (month mod 12 + 1) 1 + d - 1) * JSDate.msPerDay
  + t mod JSDate.msPerDay.

End JSDateDay.

(** Test 1: [recentStart.setDate(recentStart.getDate() - 30)], read at
    [now0], and [recentEnd = new Date()], read at [now1]. *)
Definition testRecentQuery (now0 now1 : Z) : Query :=
  <["billStatus" := CEq (VStr "approved")]>
    (<["saleDate" := COps (mkOps (Some (JSDateDay.setDate now0 (JSDateDay.getDate now0 - 30)))
                                 (Some now1) None None)]> ∅).

(** Test 2: [oldStart] is the clock reading [now0] moved three years back,
    then to month 0, then to day 1; [oldEnd] is a copy of [oldStart] moved to
    month 11, then to day 31. *)
Definition testOldStart (now0 : Z) : Z :=
  JSDateDay.setDate
    (JSDateDay.setMonth (JSDate.setFullYear now0 (JSDate.getFullYear now0 - 3)) 0) 1.

Definition testOldEnd (now0 : Z) : Z :=
  JSDateDay.setDate (JSDateDay.setMonth (testOldStart now0) 11) 31.

Definition testOldQuery (now0 : Z) : Query :=
  <["billStatus" := CEq (VStr "approved")]>
    (<["saleDate" := COps (mkOps (Some (testOldStart now0)) (Some (testOldEnd now0))
                                 None None)]> ∅).

(** Test 3: [spanStart.setFullYear(spanStart.getFullYear() - 1)], read at
    [now0], and [spanEnd = new Date()], read at [now1]. *)
Definition testSpanQuery (now0 now1 : Z) : Query :=
  <["billStatus" := CEq (VStr "approved")]>
    (<["saleDate" := COps (mkOps (Some (JSDate.setFullYear now0 (JSDate.getFullYear now0 - 1)))
                                 (Some now1) None None)]> ∅).

(** Test 4: [{ billStatus: 'approved' }]. *)
Definition testNoDateQuery : Query := <["billStatus" := CEq (VStr "approved")]> ∅.

(** Every round trip raises: both stores and the reference collections
    are unreachable. *)
Definition unreachable (op : Op) : bool := true.

Definition outageWorld : World :=
  mkWorld [saleAt 1 t2024_06_01] [archived (saleAt 2 t2022_06_01)]
          noRefs (fun _ d => d) unreachable.

Definition zeroLimitOptions : Options :=
  mkOptions [] [("saleDate", Desc); ("createdAt", Desc)] 0 0.

(* ===================================================================== *)
(** * Properties *)
(* ===================================================================== *)

(** ** The threshold and the scenarios of the specification *)

Example ex_threshold_2025 :
  getArchiveThresholdDate 1735689600000 = 1672531200000.
Proof. reflexivity. Qed.

(** 29 Feb 2024 minus two years rolls over to 1 Mar 2022. *)
Example ex_threshold_leap :
  getArchiveThresholdDate 1709164800000 = 1646092800000.
Proof. reflexivity. Qed.

(** ** Tier selection *)

Lemma setAndBefore_spec (x : option DateObj) (T : Z) :
  setAndBefore x T = true <-> exists d, x = Some (DateAt d) /\ d < T.
Proof.
  destruct x as [[d|]|]; simpl.
  - rewrite Z.ltb_lt. split; [eauto | intros (d' & [= ->] & H); exact H].
  - split; [discriminate | intros (d & [=] & _)].
  - split; [discriminate | intros (d & [=] & _)].
Qed.

Lemma setAndNotBefore_spec (x : option DateObj) (T : Z) :
  setAndNotBefore x T = true <-> exists d, x = Some (DateAt d) /\ T <= d.
Proof.
  destruct x as [[d|]|]; simpl.
  - rewrite Z.geb_le. split; [eauto | intros (d' & [= ->] & H); exact H].
  - split; [discriminate | intros (d & [=] & _)].
  - split; [discriminate | intros (d & [=] & _)].
Qed.

Lemma unset_both_spec {A : Type} (s e : option A) :
  unset s && unset e = true <-> s = None /\ e = None.
Proof. destruct s, e; simpl; intuition congruence. Qed.

(** C3: the cold tier is selected exactly when both bounds are unset, or
    the end is set and before the threshold, or the start is set and before
    the threshold; the hot tier exactly when both bounds are unset, or the
    start is set and not before the threshold, or the end is set and not
    before the threshold.  A bound is before, or not before, the threshold
    only as a valid Date: the Invalid Date is set and is neither. *)
Theorem tier_selection_iff (now : Z) (s e : option DateObj) :
  let T := getArchiveThresholdDate now in
  (shouldQueryArchive now s e = true <->
     (s = None /\ e = None) \/
     (exists d, e = Some (DateAt d) /\ d < T) \/
     (exists d, s = Some (DateAt d) /\ d < T)) /\
  (shouldQueryPrimary now s e = true <->
     (s = None /\ e = None) \/
     (exists d, s = Some (DateAt d) /\ T <= d) \/
     (exists d, e = Some (DateAt d) /\ T <= d)).
Proof.
  intros T. unfold shouldQueryArchive, shouldQueryPrimary. fold T.
  rewrite <- unset_both_spec, <- !setAndBefore_spec, <- !setAndNotBefore_spec.
  split.
  - destruct (unset s && unset e), (setAndBefore e T), (setAndBefore s T);
      intuition congruence.
  - destruct (unset s && unset e), (setAndNotBefore s T), (setAndNotBefore e T);
      intuition congruence.
Qed.

(** C9, as the code has it: with one clock reading, hence one threshold,
    a range leaves both tiers out exactly when it has a bound and every
    bound it has is the Invalid Date.  So a range whose bounds are unset or
    valid Dates always selects a tier, and so does every filter whose date
    operands are valid Dates, for every record kind. *)
Theorem some_tier_selected (now : Z) :
  (forall s e : option DateObj,
     shouldQueryArchive now s e || shouldQueryPrimary now s e = false <->
     (s = Some InvalidDate /\ e = Some InvalidDate) \/
     (s = Some InvalidDate /\ e = None) \/
     (s = None /\ e = Some InvalidDate)) /\
  (forall s e : option Z,
     shouldQueryArchive now (asDate s) (asDate e)
     || shouldQueryPrimary now (asDate s) (asDate e) = true) /\
  (forall (k : KindOps) (query : Query),
     selectsArchive k now query = true \/ selectsPrimary k now query = true).
Proof.
  assert (H : forall s e : option DateObj,
             shouldQueryArchive now s e || shouldQueryPrimary now s e = false <->
             (s = Some InvalidDate /\ e = Some InvalidDate) \/
             (s = Some InvalidDate /\ e = None) \/
             (s = None /\ e = Some InvalidDate)).
  { intros s e. unfold shouldQueryArchive, shouldQueryPrimary.
    set (T := getArchiveThresholdDate now).
    destruct s as [[a|]|], e as [[b|]|]; simpl;
      repeat match goal with
             | |- context [?x <? ?y] => destruct (Z.ltb_spec x y)
             | |- context [?x >=? ?y] => destruct (Z.geb_spec x y)
             end; simpl;
      try (split; [discriminate | intros [[? ?] | [[? ?] | [? ?]]]; discriminate]);
      try lia; split; auto; tauto. }
  assert (H' : forall s e : option Z,
             shouldQueryArchive now (asDate s) (asDate e)
             || shouldQueryPrimary now (asDate s) (asDate e) = true).
  { intros s e. apply not_false_iff_true. rewrite H.
    destruct s, e; simpl; intros [[? ?] | [[? ?] | [? ?]]]; discriminate. }
  split; [exact H|]. split; [exact H'|].
  intros k query. apply orb_true_iff, H'.
Qed.

(** A range whose only bound is the Invalid Date selects neither tier:
    the bound is set, and it is neither before the threshold nor at or after
    it. *)
Lemma invalid_bound_selects_no_tier :
  shouldQueryArchive now2025 (Some InvalidDate) None = false /\
  shouldQueryPrimary now2025 (Some InvalidDate) None = false /\
  shouldQueryArchive now2025 (Some InvalidDate) (Some InvalidDate) = false /\
  shouldQueryPrimary now2025 (Some InvalidDate) (Some InvalidDate) = false.
Proof. repeat split; reflexivity. Qed.

(** ** The date-range split *)

Lemma threshold_max (s T : Z) : (if s <? T then T else s) = Z.max s T.
Proof. destruct (Z.ltb_spec s T); lia. Qed.

Lemma threshold_min (e T : Z) : (if e <? T then e else T) = Z.min e T.
Proof. destruct (Z.ltb_spec e T); lia. Qed.


Lemma condMatches_ops_date (o : Ops) (v : option Value) :
  condMatches (COps o) v = true ->
  exists t, v = Some (VDate t) /\ opsMatch o t = true.
Proof.
  simpl. destruct (opsEmpty o); [discriminate|].
  destruct v as [[]|]; try discriminate. eauto.
Qed.

(** With a two-sided range and both tiers selected, the split overwrites
    the timestamp sub-predicate of both sub-filters. *)
Lemma split_both_lookup (nowA nowP now nowA' : Z) (query : Query)
    (dateField : string) (s e : Z) :
  extractDateRange query dateField = Some (mkRange (Some s) (Some e)) ->
  queryBoth (splitQueryByDate nowA nowP now nowA' query dateField) = true ->
  let T := getArchiveThresholdDate now in
  splitQueryByDate nowA nowP now nowA' query dateField =
    mkSplit (<[dateField := opsGteLte (Z.max s T) e]> query)
            (<[dateField := opsGteLt s (Z.min e T)]> query)
            true.
Proof.
  intros Hr Hb T. revert Hb.
  unfold T, getArchiveThresholdDate, ARCHIVE_THRESHOLD_YEARS, splitQueryByDate. clear T.
  rewrite Hr.
  generalize (JSDate.setFullYear now (JSDate.getFullYear now - 2)). intros T.
  cbn [optStart optEnd mbind option_bind startDate endDate asDate fmap option_fmap
       option_map].
  destruct (shouldQueryArchive nowA (Some (DateAt s)) (Some (DateAt e)) &&
            shouldQueryPrimary nowP (Some (DateAt s)) (Some (DateAt e))) eqn:Hq; simpl.
  - intros _. rewrite threshold_max, threshold_min. reflexivity.
  - destruct (shouldQueryArchive nowA' (Some (DateAt s)) (Some (DateAt e))); simpl;
      discriminate.
Qed.






(** ** Computations that only log *)

Lemma appendLog_nil (s : St) : appendLog [] s = s.
Proof. destruct s. unfold appendLog. simpl. rewrite app_nil_r. reflexivity. Qed.

Lemma appendLog_app (l l' : list Event) (s : St) :
  appendLog l' (appendLog l s) = appendLog (l ++ l') s.
Proof. unfold appendLog. simpl. rewrite app_assoc. reflexivity. Qed.

Lemma writes_ret {A : Type} (a : A) : writes (mret a) (Returned a) [].
Proof. intros s. rewrite appendLog_nil. reflexivity. Qed.

Lemma writes_throw {A : Type} (e : Error) : writes (@throw A e) (Thrown e) [].
Proof. intros s. rewrite appendLog_nil. reflexivity. Qed.

Lemma writes_emit (e : Event) : writes (emit e) (Returned ()) [e].
Proof. intros s. reflexivity. Qed.

Lemma writes_bind {A B : Type} (m : M A) (f : A -> M B) a l o l' :
  writes m (Returned a) l -> writes (f a) o l' -> writes (m ≫= f) o (l ++ l').
Proof.
  intros Hm Hf s. unfold mbind, M_bind. rewrite Hm, Hf, appendLog_app. reflexivity.
Qed.

Lemma writes_bind_thrown {A B : Type} (m : M A) (f : A -> M B) e l :
  writes m (Thrown e) l -> writes (m ≫= f) (Thrown e) l.
Proof. intros Hm s. unfold mbind, M_bind. rewrite Hm. reflexivity. Qed.

Lemma writes_settle {A : Type} (m : M A) o l :
  writes m o l -> writes (settle m) (Returned o) l.
Proof. intros Hm s. unfold settle. rewrite Hm. reflexivity. Qed.

Lemma writes_roundTrip {A : Type} (w : World) (op : Op) (ev : Event) (a : A) :
  writes (roundTrip w op ev a)
         (if fails w op then Thrown (StoreError op) else Returned a) [ev].
Proof.
  intros s. unfold roundTrip, mbind, M_bind, emit. simpl.
  destruct (fails w op); reflexivity.
Qed.

Lemma writes_fun {A : Type} (m : M A) o l o' l' :
  writes m o l -> writes m o' l' -> o = o' /\ l = l'.
Proof.
  intros H H'. specialize (H initSt). rewrite (H' initSt) in H.
  injection H as Ho Hl. simpl in Hl. auto.
Qed.

Lemma logsOnly_ret {A : Type} (a : A) : logsOnly (mret a).
Proof. eexists _, _. apply writes_ret. Qed.

Lemma logsOnly_throw {A : Type} (e : Error) : logsOnly (@throw A e).
Proof. eexists _, _. apply writes_throw. Qed.

Lemma logsOnly_bind {A B : Type} (m : M A) (f : A -> M B) :
  logsOnly m -> (forall a, logsOnly (f a)) -> logsOnly (m ≫= f).
Proof.
  intros (o & l & Hm) Hf. destruct o as [a|e].
  - destruct (Hf a) as (o' & l' & Hfa). eexists _, _.
    eapply writes_bind; eassumption.
  - eexists _, _. eapply writes_bind_thrown; eassumption.
Qed.

Lemma logsOnly_settle {A : Type} (m : M A) : logsOnly m -> logsOnly (settle m).
Proof. intros (o & l & Hm). eexists _, _. apply writes_settle, Hm. Qed.

Lemma logsOnly_roundTrip {A : Type} (w : World) (op : Op) (ev : Event) (a : A) :
  logsOnly (roundTrip w op ev a).
Proof. eexists _, _. apply writes_roundTrip. Qed.

Lemma logsOnly_refFind w c ids sel : logsOnly (refFind w c ids sel).
Proof.
  unfold refFind. destruct (mapM castObjectId ids).
  - apply logsOnly_roundTrip.
  - apply logsOnly_throw.
Qed.

Lemma logsOnly_refFindById w c id sel : logsOnly (refFindById w c id sel).
Proof.
  unfold refFindById. destruct (castObjectId id).
  - apply logsOnly_roundTrip.
  - apply logsOnly_throw.
Qed.

Lemma logsOnly_foldM {A B : Type} (f : A -> B -> M A) (l : list B) :
  (forall a b, logsOnly (f a b)) -> forall a, logsOnly (foldM f a l).
Proof.
  intros Hf. induction l as [|b l IH]; intros a; simpl.
  - apply logsOnly_ret.
  - apply logsOnly_bind; [apply Hf | exact IH].
Qed.

Lemma logsOnly_forM {A B : Type} (f : A -> M B) (l : list A) :
  (forall a, logsOnly (f a)) -> logsOnly (forM f l).
Proof.
  intros Hf. induction l as [|a l IH]; simpl.
  - apply logsOnly_ret.
  - apply logsOnly_bind; [apply Hf|]. intros b.
    apply logsOnly_bind; [exact IH|]. intros bs. apply logsOnly_ret.
Qed.

Lemma logsOnly_promiseAll3 {A B C : Type} (a : M A) (b : M B) (c : M C) :
  logsOnly a -> logsOnly b -> logsOnly c -> logsOnly (promiseAll3 a b c).
Proof.
  intros Ha Hb Hc. unfold promiseAll3.
  apply logsOnly_bind; [apply logsOnly_settle, Ha|]. intros oa.
  apply logsOnly_bind; [apply logsOnly_settle, Hb|]. intros ob.
  apply logsOnly_bind; [apply logsOnly_settle, Hc|]. intros oc.
  destruct oa, ob, oc; first [apply logsOnly_ret | apply logsOnly_throw].
Qed.

Create HintDb logs discriminated.
#[export] Hint Resolve logsOnly_ret logsOnly_throw logsOnly_roundTrip
  logsOnly_refFind logsOnly_refFindById logsOnly_promiseAll3 : logs.

Ltac logs_step :=
  first
    [ solve [auto with logs]
    | match goal with
      | |- logsOnly (_ ≫= _) => apply logsOnly_bind; [|intros ?]
      end
    | match goal with
      | |- logsOnly (if ?b then _ else _) => destruct b
      | |- logsOnly (match ?x with _ => _ end) => destruct x
      end ].

Lemma logsOnly_archiveExec w q o : logsOnly (archiveExec w q o).
Proof. unfold archiveExec, execFind. auto with logs. Qed.

Lemma logsOnly_queryArchiveSales w q o : logsOnly (queryArchiveSales w q o).
Proof.
  unfold queryArchiveSales.
  apply logsOnly_bind; [apply logsOnly_archiveExec|]. intros results.
  destruct (_ && _); [|apply logsOnly_ret].
  apply logsOnly_bind.
  - apply logsOnly_promiseAll3; logs_step; auto with logs.
  - intros [[users products] shopkeepers]. apply logsOnly_ret.
Qed.

Lemma logsOnly_populatePayment w d pop : logsOnly (populatePayment w d pop).
Proof. unfold populatePayment. repeat logs_step. Qed.

Lemma logsOnly_populateDealerRequest w d pop : logsOnly (populateDealerRequest w d pop).
Proof. unfold populateDealerRequest. repeat logs_step. Qed.

Lemma logsOnly_queryArchivePayments w q o : logsOnly (queryArchivePayments w q o).
Proof.
  unfold queryArchivePayments.
  apply logsOnly_bind; [apply logsOnly_archiveExec|]. intros results.
  destruct (_ && _); [|apply logsOnly_ret].
  apply logsOnly_forM. intros d. apply logsOnly_foldM. intros d' pop.
  apply logsOnly_populatePayment.
Qed.

Lemma logsOnly_queryArchiveDealerRequests w q o :
  logsOnly (queryArchiveDealerRequests w q o).
Proof.
  unfold queryArchiveDealerRequests.
  apply logsOnly_bind; [apply logsOnly_archiveExec|]. intros results.
  destruct (_ && _); [|apply logsOnly_ret].
  apply logsOnly_forM. intros d. apply logsOnly_foldM. intros d' pop.
  apply logsOnly_populateDealerRequest.
Qed.

Lemma knownKind_logsOnly (k : KindOps) :
  knownKind k -> forall w q o, logsOnly (kindQueryArchive k w q o).
Proof.
  intros [-> | [-> | ->]] w q o; simpl.
  - apply logsOnly_queryArchiveSales.
  - apply logsOnly_queryArchivePayments.
  - apply logsOnly_queryArchiveDealerRequests.
Qed.

Lemma knownKind_count (k : KindOps) :
  knownKind k -> forall w q, kindCountArchive k w q = countDocuments w Cold q.
Proof. intros [-> | [-> | ->]] w q; reflexivity. Qed.

(** ** The two tier blocks and the federated call *)

Lemma primaryBlock_run (k : KindOps) (w : World) (q : Query) (o : Options) (s : St) :
  queryPrimaryBlock k w q o s =
    (Returned (),
     if fails w (OpCount Hot) then
       appendLog [EvCount Hot; primaryError k] s
     else if fails w (OpFind Hot) then
       appendLog [EvCount Hot; EvFind Hot (Some (skip o)) (Some (limit o)); primaryError k]
         (mkSt (log s) (l_primaryResults s) (l_archiveResults s)
               (matchedCount q (hot w)) (l_archiveCount s))
     else
       appendLog [EvCount Hot; EvFind Hot (Some (skip o)) (Some (limit o))]
         (mkSt (log s) (hotPage w q o) (l_archiveResults s)
               (matchedCount q (hot w)) (l_archiveCount s))).
Proof.
  unfold queryPrimaryBlock, tryCatch, countDocuments, execFindHot, roundTrip,
    mbind, M_bind, mret, M_ret, emit, throw, setPrimaryCount, setPrimaryResults,
    appendLog, primaryError, hotPage.
  simpl. destruct (fails w (OpCount Hot)); simpl.
  - rewrite <- app_assoc. reflexivity.
  - destruct (fails w (OpFind Hot)); simpl; rewrite <- !app_assoc; reflexivity.
Qed.

Lemma archiveBlock_run (k : KindOps) (w : World) (qp : bool) (q : Query)
    (o : Options) (s : St) oA lA :
  writes (kindQueryArchive k w q (archiveOptions qp o (length (l_primaryResults s)))) oA lA ->
  (forall w q, kindCountArchive k w q = countDocuments w Cold q) ->
  queryArchiveBlock k w qp q o s =
    (Returned (),
     match oA with
     | Thrown _ => appendLog (lA ++ [archiveError k]) s
     | Returned rs =>
         if fails w (OpCount Cold) then
           appendLog (lA ++ [EvCount Cold; archiveError k])
             (mkSt (log s) (l_primaryResults s) rs (l_primaryCount s) (l_archiveCount s))
         else
           appendLog (lA ++ [EvCount Cold])
             (mkSt (log s) (l_primaryResults s) (map normalizeArchiveRecord rs)
                   (l_primaryCount s) (matchedCount q (cold w)))
     end).
Proof.
  intros HA Hc.
  unfold queryArchiveBlock, tryCatch, mbind, M_bind, getSt.
  unfold archiveOptions in HA. rewrite HA.
  destruct oA as [rs|e]; simpl.
  - rewrite Hc.
    unfold countDocuments, roundTrip, mbind, M_bind, mret, M_ret, emit, throw,
      setArchiveCount, setArchiveResults, appendLog, archiveError. simpl.
    destruct (fails w (OpCount Cold)); simpl; rewrite <- !app_assoc; reflexivity.
  - unfold emit, appendLog, archiveError. simpl. rewrite <- app_assoc. reflexivity.
Qed.

(** What a federated call of a known kind leaves in its locals: the master
    characterisation the properties below are read off. *)
Lemma queryUnified_run (k : KindOps) (w : World) (nowA nowP : Z)
    (q : Query) (o : Options) :
  knownKind k ->
  let qA := selectsArchive k nowA q in
  let qP := selectsPrimary k nowP q in
  exists lg pr ar pc ac,
    run (queryUnified k w nowA nowP q o) =
      (Returned (mkResult (mergeResults (kindDateField k) qA qP (limit o) pr ar)
                          (pc + ac)%nat (length pr) (length ar) pc ac),
       mkSt lg pr ar pc ac) /\
    pc = (if qP && negb (fails w (OpCount Hot)) then matchedCount q (hot w) else 0%nat) /\
    pr = (if qP && negb (fails w (OpCount Hot)) && negb (fails w (OpFind Hot))
          then hotPage w q o else []) /\
    (qP = true -> fails w (OpCount Hot) || fails w (OpFind Hot) = true ->
       In (primaryError k) lg) /\
    (qA = false -> ar = [] /\ ac = 0%nat) /\
    (qA = true ->
       exists oA lA,
         writes (kindQueryArchive k w q (archiveOptions qP o (length pr))) oA lA /\
         match oA with
         | Thrown _ => ar = [] /\ ac = 0%nat /\ In (archiveError k) lg
         | Returned rs =>
             if fails w (OpCount Cold)
             then ar = rs /\ ac = 0%nat /\ In (archiveError k) lg
             else ar = map normalizeArchiveRecord rs /\ ac = matchedCount q (cold w)
         end).
Proof.
  intros Hk qA qP.
  pose proof (knownKind_count k Hk) as Hc.
  pose proof (knownKind_logsOnly k Hk) as Hl.
  unfold run, queryUnified. fold (selectsArchive k nowA q) (selectsPrimary k nowP q).
  fold qA qP.
  unfold mbind at 1, M_bind at 1.
  (* the hot tier *)
  assert (H1 : exists s1,
             (if qP then queryPrimaryBlock k w q o else mret ()) initSt = (Returned (), s1) /\
             l_archiveResults s1 = [] /\ l_archiveCount s1 = 0%nat /\
             l_primaryCount s1 =
               (if qP && negb (fails w (OpCount Hot)) then matchedCount q (hot w) else 0%nat) /\
             l_primaryResults s1 =
               (if qP && negb (fails w (OpCount Hot)) && negb (fails w (OpFind Hot))
                then hotPage w q o else []) /\
             (qP = true -> fails w (OpCount Hot) || fails w (OpFind Hot) = true ->
                In (primaryError k) (log s1))).
  { destruct qP.
    - rewrite primaryBlock_run.
      destruct (fails w (OpCount Hot)), (fails w (OpFind Hot));
        eexists; (split; [reflexivity|]); simpl; repeat split; auto;
        intros; try discriminate; auto.
    - exists initSt. simpl. repeat split; auto. discriminate. }
  destruct H1 as (s1 & E1 & Har1 & Hac1 & Hpc1 & Hpr1 & Herr1). rewrite E1.
  unfold mbind at 1, M_bind at 1.
  destruct qA.
  - destruct (Hl w q (archiveOptions qP o (length (l_primaryResults s1))))
      as (oA & lA & HA).
    rewrite (archiveBlock_run k w qP q o s1 oA lA HA Hc).
    unfold mbind, M_bind, getSt, mret, M_ret.
    destruct oA as [rs|e].
    + destruct (fails w (OpCount Cold)) eqn:Hf; simpl.
      * eexists _, _, _, _, _. split; [reflexivity|].
        split; [assumption|]. split; [assumption|].
        split; [intros HP HF; rewrite in_app_iff; left; auto|].
        split; [discriminate|].
        intros _. exists (Returned rs), lA.
        split; [exact HA|]. repeat split; auto.
        rewrite !in_app_iff. simpl. auto.
      * eexists _, _, _, _, _. split; [reflexivity|].
        split; [assumption|]. split; [assumption|].
        split; [intros HP HF; rewrite in_app_iff; left; auto|].
        split; [discriminate|].
        intros _. exists (Returned rs), lA.
        split; [exact HA|]. split; reflexivity.
    + simpl. eexists _, _, _, _, _. split; [reflexivity|].
      split; [assumption|]. split; [assumption|].
      split; [intros HP HF; rewrite in_app_iff; left; auto|].
      split; [discriminate|].
      intros _. exists (Thrown e), lA.
      split; [exact HA|]. repeat split; auto.
      rewrite !in_app_iff. simpl. auto.
  - unfold mbind, M_bind, getSt, mret, M_ret. simpl.
    destruct s1 as [lg pr ar pc ac]. simpl in *. subst ar ac.
    eexists _, _, _, _, _. split; [reflexivity|].
    split; [assumption|]. split; [assumption|].
    split; [assumption|].
    split; [auto|discriminate].
Qed.

(** A federated call always returns: no exception leaves the two blocks. *)
Lemma queryUnified_returns (k : KindOps) (w : World) (nowA nowP : Z)
    (q : Query) (o : Options) :
  knownKind k ->
  exists r s, run (queryUnified k w nowA nowP q o) = (Returned r, s).
Proof.
  intros Hk.
  destruct (queryUnified_run k w nowA nowP q o Hk) as (lg & pr & ar & pc & ac & E & _).
  eauto.
Qed.

(** Without a reported tier error, each count is the number of documents
    of the queried tier that match the filter. *)
Lemma counts_without_error (k : KindOps) (w : World) (nowA nowP : Z)
    (q : Query) (o : Options) r s :
  knownKind k ->
  run (queryUnified k w nowA nowP q o) = (Returned r, s) ->
  noErrorLogged s ->
  primaryCount r = (if selectsPrimary k nowP q then matchedCount q (hot w) else 0%nat) /\
  archiveCount r = (if selectsArchive k nowA q then matchedCount q (cold w) else 0%nat).
Proof.
  intros Hk Hrun Hno.
  destruct (queryUnified_run k w nowA nowP q o Hk)
    as (lg & pr & ar & pc & ac & E & Hpc & Hpr & Herr & HnA & HA).
  rewrite Hrun in E. injection E as -> ->. simpl.
  unfold noErrorLogged in Hno. simpl in Hno.
  split.
  - rewrite Hpc. destruct (selectsPrimary k nowP q) eqn:HP; [|reflexivity].
    destruct (fails w (OpCount Hot)) eqn:Hf; [|reflexivity].
    exfalso. apply (Hno _ (Herr eq_refl eq_refl)).
  - destruct (selectsArchive k nowA q) eqn:HqA.
    + destruct (HA eq_refl) as (oA & lA & _ & Hcase).
      destruct oA as [rs|e].
      * destruct (fails w (OpCount Cold)).
        -- destruct Hcase as (_ & _ & Hin). exfalso. exact (Hno _ Hin).
        -- apply Hcase.
      * destruct Hcase as (_ & _ & Hin). exfalso. exact (Hno _ Hin).
    + apply (HnA eq_refl).
Qed.

(** The scenarios of the specification: a recent lower bound selects the
    hot tier only, a range in 2020 the cold tier only, a straddling range
    and an unrestricted filter both. *)
Example ex_scenarios :
  (selectsPrimary saleKind now2025 recentQuery,
   selectsArchive saleKind now2025 recentQuery) = (true, false) /\
  (selectsPrimary saleKind now2025 oldQuery,
   selectsArchive saleKind now2025 oldQuery) = (false, true) /\
  (selectsPrimary saleKind now2025 straddleQuery,
   selectsArchive saleKind now2025 straddleQuery) = (true, true) /\
  (selectsPrimary saleKind now2025 approvedQuery,
   selectsArchive saleKind now2025 approvedQuery) = (true, true).
Proof. vm_compute. repeat split; reflexivity. Qed.

Example ex_two_tier_total :
  fst (run (queryUnifiedSales twoTierWorld now2025 now2025 approvedQuery defaultSaleOptions))
  = Returned (mkResult [saleAt 1 t2024_06_01;
                        normalizeArchiveRecord (archived (saleAt 2 t2022_06_01))]
                       2 1 1 1 1).
Proof. vm_compute. reflexivity. Qed.

(** ** The boundary record under a straddling filter *)

(** The federated queries never split the filter: under a filter that
    straddles the threshold a cold-store record dated exactly at the
    threshold is served from the cold tier, though the cold sub-filter of
    the split would not match it. *)
Theorem boundary_record_served_by_cold :
  getArchiveThresholdDate now2025 = t2023_01_01 /\
  extractDateRange straddleQuery "saleDate"
    = Some (mkRange (Some t2022_06_01) (Some t2024_06_01)) /\
  selectsPrimary saleKind now2025 straddleQuery = true /\
  selectsArchive saleKind now2025 straddleQuery = true /\
  sortDate "saleDate" (archived (saleAt 7 t2023_01_01)) = Some t2023_01_01 /\
  fst (run (queryUnifiedSales boundaryWorld now2025 now2025 straddleQuery defaultSaleOptions))
  = Returned (mkResult [normalizeArchiveRecord (archived (saleAt 7 t2023_01_01))]
                       1 0 1 0 1) /\
  matches (archiveQuery (splitQueryByDate now2025 now2025 now2025 now2025
                           straddleQuery "saleDate"))
          (archived (saleAt 7 t2023_01_01)) = false.
Proof. vm_compute. repeat split; reflexivity. Qed.

(** ** Tier failures *)

Lemma archive_find_failure_throws (k : KindOps) (w : World) (q : Query)
    (o : Options) oA lA :
  knownKind k ->
  fails w (OpFind Cold) = true ->
  writes (kindQueryArchive k w q o) oA lA ->
  exists e, oA = Thrown e.
Proof.
  intros Hk Hf HA.
  assert (Hexec : writes (archiveExec w q o) (Thrown (StoreError (OpFind Cold)))
                    [EvFind Cold (whenNonZero (skip o)) (whenNonZero (limit o))]).
  { unfold archiveExec, execFind.
    pose proof (writes_roundTrip w (OpFind Cold)
                  (EvFind Cold (whenNonZero (skip o)) (whenNonZero (limit o)))
                  (page q (sort o) (whenNonZero (skip o)) (whenNonZero (limit o))
                     (tierDocs w Cold))) as H.
    rewrite Hf in H. exact H. }
  destruct Hk as [-> | [-> | ->]]; simpl in HA;
    [unfold queryArchiveSales in HA
    |unfold queryArchivePayments in HA
    |unfold queryArchiveDealerRequests in HA];
    match type of HA with
    | writes (_ ≫= ?f) _ _ =>
        destruct (writes_fun _ _ _ _ _ HA (writes_bind_thrown _ f _ _ Hexec)) as [-> _]
    end; eauto.
Qed.

(** The part of the failure semantics that holds: the call returns; a cold
    tier whose find raises contributes no record and a zero count, and the
    hot tier's records and count are what the hot store alone determines. *)
Lemma cold_unreachable_degrades (k : KindOps) (w : World) (nowA nowP : Z)
    (q : Query) (o : Options) :
  knownKind k ->
  fails w (OpFind Cold) = true ->
  exists r s,
    run (queryUnified k w nowA nowP q o) = (Returned r, s) /\
    fromArchive r = 0%nat /\ archiveCount r = 0%nat /\
    primaryCount r =
      (if selectsPrimary k nowP q && negb (fails w (OpCount Hot))
       then matchedCount q (hot w) else 0%nat) /\
    l_primaryResults s =
      (if selectsPrimary k nowP q && negb (fails w (OpCount Hot)) && negb (fails w (OpFind Hot))
       then hotPage w q o else []) /\
    fromPrimary r = length (l_primaryResults s).
Proof.
  intros Hk Hf.
  destruct (queryUnified_run k w nowA nowP q o Hk)
    as (lg & pr & ar & pc & ac & E & Hpc & Hpr & _ & HnA & HA).
  eexists _, _. split; [exact E|]. simpl.
  assert (Har : ar = [] /\ ac = 0%nat).
  { destruct (selectsArchive k nowA q) eqn:HqA.
    - destruct (HA eq_refl) as (oA & lA & Hw & Hcase).
      destruct (archive_find_failure_throws k w q _ oA lA Hk Hf Hw) as [e ->].
      destruct Hcase as (Ha & Hc & _). auto.
    - apply (HnA eq_refl). }
  destruct Har as [-> ->]. auto.
Qed.

(** A hot tier whose count raises contributes no record and a zero count. *)
Lemma hot_unreachable_degrades (k : KindOps) (w : World) (nowA nowP : Z)
    (q : Query) (o : Options) :
  knownKind k ->
  fails w (OpCount Hot) = true ->
  exists r s,
    run (queryUnified k w nowA nowP q o) = (Returned r, s) /\
    fromPrimary r = 0%nat /\ primaryCount r = 0%nat.
Proof.
  intros Hk Hf.
  destruct (queryUnified_run k w nowA nowP q o Hk)
    as (lg & pr & ar & pc & ac & E & Hpc & Hpr & _).
  eexists _, _. split; [exact E|]. simpl.
  rewrite Hf, andb_false_r in Hpc, Hpr. simpl in Hpr. subst. auto.
Qed.

(** C5 fails on the code when a tier fails part of the way: a hot tier
    whose count answered before its find raised still contributes its count
    (primaryCount 1 with no record), and a cold tier whose find answered
    before its count raised still contributes its record, not normalized
    (fromArchive 1 with archiveCount 0). *)
Theorem partial_tier_failure_leaks :
  fst (run (queryUnifiedSales hotFindFailsWorld now2025 now2025 approvedQuery
              defaultSaleOptions))
  = Returned (mkResult [normalizeArchiveRecord (archived (saleAt 2 t2022_06_01))]
                       2 0 1 1 1) /\
  In (primaryError saleKind)
     (log (snd (run (queryUnifiedSales hotFindFailsWorld now2025 now2025 approvedQuery
                       defaultSaleOptions)))) /\
  fst (run (queryUnifiedSales coldCountFailsWorld now2025 now2025 approvedQuery
              defaultSaleOptions))
  = Returned (mkResult [saleAt 1 t2024_06_01; archived (saleAt 2 t2022_06_01)]
                       1 1 1 1 0) /\
  In (archiveError saleKind)
     (log (snd (run (queryUnifiedSales coldCountFailsWorld now2025 now2025 approvedQuery
                       defaultSaleOptions)))).
Proof. vm_compute. repeat split; auto 10. Qed.

(** ** The stable sort *)

Section StableSortFacts.
Context {A : Type} (after : A -> A -> bool).

Lemma insertStable_perm (x : A) (l : list A) :
  Permutation (insertStable after x l) (x :: l).
Proof.
  induction l as [|y l IH]; simpl; [reflexivity|].
  destruct (after x y); [|reflexivity].
  rewrite IH. apply perm_swap.
Qed.

Lemma stableSort_perm (l : list A) : Permutation (stableSort after l) l.
Proof.
  induction l as [|x l IH]; simpl; [reflexivity|].
  unfold stableSort in *. simpl. rewrite insertStable_perm. auto.
Qed.

Lemma stableSort_length (l : list A) : length (stableSort after l) = length l.
Proof. apply Permutation_length, stableSort_perm. Qed.

Lemma stableSort_In (x : A) (l : list A) : In x (stableSort after l) <-> In x l.
Proof.
  split; apply Permutation_in; [|symmetry]; apply stableSort_perm.
Qed.

(** An element that goes after nothing in [c] stays in front of [c]. *)
Lemma insertStable_app (x : A) (l c : list A) :
  (forall y, In y c -> after x y = false) ->
  insertStable after x (l ++ c) = insertStable after x l ++ c.
Proof.
  intros Hc. induction l as [|y l IH]; simpl.
  - destruct c as [|y c]; simpl; [reflexivity|].
    rewrite (Hc y); [reflexivity | left; reflexivity].
  - destruct (after x y); [|reflexivity]. rewrite IH. reflexivity.
Qed.

(** Sorting a list whose front part never goes after its back part sorts
    the two parts separately. *)
Lemma stableSort_app (h c : list A) :
  (forall x y, In x h -> In y c -> after x y = false) ->
  stableSort after (h ++ c) = stableSort after h ++ stableSort after c.
Proof.
  intros Hhc. induction h as [|x h IH]; simpl; [reflexivity|].
  unfold stableSort in *. simpl. rewrite IH.
  - apply insertStable_app. intros y Hy. apply Hhc; [left; reflexivity|].
    apply (stableSort_In y c). exact Hy.
  - intros x' y Hx Hy. apply Hhc; [right|]; assumption.
Qed.

Context (R : A -> A -> Prop) (P : A -> Prop).
Hypothesis after_true : forall x y, P x -> P y -> after x y = true -> R y x.
Hypothesis after_false : forall x y, P x -> P y -> after x y = false -> R x y.




End StableSortFacts.



Lemma notNewer_not_after (field : string) (c h : Doc) :
  notNewer field c h -> jsAfter (compareByDateDesc field) h c = false.
Proof.
  unfold notNewer, jsAfter, compareByDateDesc.
  fold (sortDate field h) (sortDate field c). intros H.
  destruct (sortDate field h) as [th|], (sortDate field c) as [tc|]; try reflexivity.
  apply Z.ltb_ge. specialize (H tc th eq_refl eq_refl). lia.
Qed.

(** ** Merging the two pages *)

Lemma mergeResults_both (field : string) (lim : nat) (pr ar : list Doc) :
  mergeResults field true true lim pr ar
  = firstn lim (jsSort (compareByDateDesc field) (pr ++ ar)).
Proof.
  unfold mergeResults. simpl.
  destruct (0 <? length (pr ++ ar))%nat eqn:E.
  - destruct (Nat.ltb_spec lim (length (jsSort (compareByDateDesc field) (pr ++ ar))));
      [reflexivity|].
    symmetry. apply firstn_all2. assumption.
  - apply Nat.ltb_ge in E. destruct (pr ++ ar); simpl in *; [|lia].
    destruct lim; reflexivity.
Qed.




(** ** The cold tier's page *)

Lemma bind_returned {A B : Type} (m : M A) (f : A -> M B) s b s' :
  (m ≫= f) s = (Returned b, s') ->
  exists a s1, m s = (Returned a, s1) /\ f a s1 = (Returned b, s').
Proof.
  unfold mbind, M_bind. destruct (m s) as [[a|e] s1]; intros H; [eauto | discriminate].
Qed.

Lemma ret_returned {A : Type} (a b : A) s s' :
  (mret a : M A) s = (Returned b, s') -> b = a /\ s' = s.
Proof. unfold mret, M_ret. intros [= -> ->]. auto. Qed.

Lemma roundTrip_returned {A : Type} (w : World) op ev (a x : A) s s' :
  roundTrip w op ev a s = (Returned x, s') -> x = a /\ fails w op = false.
Proof.
  unfold roundTrip. intros H. apply bind_returned in H as (u & s1 & _ & H).
  destruct (fails w op); [discriminate|]. apply ret_returned in H as [-> _]. auto.
Qed.

Lemma forM_length {A B : Type} (f : A -> M B) (l : list A) s bs s' :
  forM f l s = (Returned bs, s') -> length bs = length l.
Proof.
  revert s bs s'. induction l as [|a l IH]; intros s bs s' H; simpl in H.
  - apply ret_returned in H as [-> _]. reflexivity.
  - apply bind_returned in H as (b & s1 & _ & H).
    apply bind_returned in H as (bs' & s2 & Hl & H).
    apply ret_returned in H as [-> _]. simpl. f_equal. eapply IH, Hl.
Qed.

(** The page the cold store answers with for the given options. *)
Lemma archiveExec_returned (w : World) (q : Query) (o : Options) s rs s' :
  archiveExec w q o s = (Returned rs, s') ->
  rs = page q (sort o) (whenNonZero (skip o)) (whenNonZero (limit o)) (cold w).
Proof.
  unfold archiveExec, execFind. intros H.
  apply roundTrip_returned in H as [-> _]. reflexivity.
Qed.

(** Reference resolution changes no row count: an archive query that
    returns hands back one record per row of the cold store's page. *)
Lemma archive_results_length (k : KindOps) (w : World) (q : Query) (o : Options) rs l :
  knownKind k ->
  writes (kindQueryArchive k w q o) (Returned rs) l ->
  length rs
  = length (page q (sort o) (whenNonZero (skip o)) (whenNonZero (limit o)) (cold w)).
Proof.
  intros Hk Hw. specialize (Hw initSt).
  destruct Hk as [-> | [-> | ->]]; simpl in Hw.
  - unfold queryArchiveSales in Hw.
    apply bind_returned in Hw as (results & s1 & Hexec & Hw).
    apply archiveExec_returned in Hexec as <-.
    destruct (_ && _).
    + apply bind_returned in Hw as ([[users products] shopkeepers] & s2 & _ & Hw).
      apply ret_returned in Hw as [-> _]. apply length_map.
    + apply ret_returned in Hw as [-> _]. reflexivity.
  - unfold queryArchivePayments in Hw.
    apply bind_returned in Hw as (results & s1 & Hexec & Hw).
    apply archiveExec_returned in Hexec as <-.
    destruct (_ && _).
    + eapply forM_length, Hw.
    + apply ret_returned in Hw as [-> _]. reflexivity.
  - unfold queryArchiveDealerRequests in Hw.
    apply bind_returned in Hw as (results & s1 & Hexec & Hw).
    apply archiveExec_returned in Hexec as <-.
    destruct (_ && _).
    + eapply forM_length, Hw.
    + apply ret_returned in Hw as [-> _]. reflexivity.
Qed.

(** With a full hot page the cold tier is asked for everything after
    [skip]: the limit handed down is 0, which the archive chain leaves
    out. *)
Lemma archive_page_after_full_hot_page (w : World) (q : Query) (o : Options) :
  let o' := archiveOptions true o (limit o) in
  whenNonZero (limit o') = None /\
  page q (sort o') (whenNonZero (skip o')) (whenNonZero (limit o')) (cold w)
  = skipn (skip o) (mongoSort (sort o) (List.filter (matches q) (cold w))).
Proof.
  simpl. unfold archiveLimit, archiveSkip. simpl.
  rewrite Nat.ltb_irrefl, Z.sub_diag. simpl.
  split; [reflexivity|]. unfold page. simpl.
  destruct (skip o); reflexivity.
Qed.

(** ** Fetched counts and the truncated page *)

(** With a full hot page on the second page the cold tier skips its
    first match, so not every matching cold record is fetched; and a cold
    record newer than the hot page's record survives the cut. *)
Lemma full_hot_page_exceptions :
  fst (run (queryUnifiedSales secondPageWorld now2025 now2025 approvedQuery
              secondPageOptions))
  = Returned (mkResult [saleAt 4 (t2024_06_01 - 1)] 4 1 1 2 2) /\
  matchedCount approvedQuery (cold secondPageWorld) = 2%nat /\
  fst (run (queryUnifiedSales staleHotWorld now2025 now2025 approvedQuery
              pageOfOneOptions))
  = Returned (mkResult [normalizeArchiveRecord (archived (saleAt 2 t2022_06_01))]
                       2 1 1 1 1).
Proof. vm_compute. repeat split; reflexivity. Qed.

(** C10, as the code has it: fromPrimary and fromArchive are the sizes of
    the two pages as fetched, before the merge and the cut; the returned
    data is never longer than their sum, and with both tiers queried it has
    min(limit, fromPrimary + fromArchive) records.  When the hot page is
    full, the limit handed to the archive query is 0, which that layer
    reads as no limit: every matching cold record past [skip] is fetched and
    counted in fromArchive, so the sum exceeds the length of the data as soon
    as one is fetched; and when no cold record is newer than a hot one, none
    of them survives the cut. *)
Theorem fetched_counts_precede_truncation (k : KindOps) (w : World) (nowA nowP : Z)
    (q : Query) (o : Options) :
  knownKind k ->
  exists r s,
    run (queryUnified k w nowA nowP q o) = (Returned r, s) /\
    fromPrimary r = length (l_primaryResults s) /\
    fromArchive r = length (l_archiveResults s) /\
    (length (data r) <= fromPrimary r + fromArchive r)%nat /\
    (selectsPrimary k nowP q = true -> selectsArchive k nowA q = true ->
       length (data r) = Nat.min (limit o) (fromPrimary r + fromArchive r) /\
       (fromPrimary r = limit o ->
          archiveLimit true (limit o) (fromPrimary r) = 0%nat /\
          ((forall h c, In h (l_primaryResults s) -> In c (l_archiveResults s) ->
                notNewer (kindDateField k) c h) ->
             data r = jsSort (compareByDateDesc (kindDateField k)) (l_primaryResults s)) /\
          (noErrorLogged s ->
             fromArchive r = (matchedCount q (cold w) - skip o)%nat /\
             ((skip o < matchedCount q (cold w))%nat ->
                (length (data r) < fromPrimary r + fromArchive r)%nat)))).
Proof.
  intros Hk.
  destruct (queryUnified_run k w nowA nowP q o Hk)
    as (lg & pr & ar & pc & ac & E & Hpc & Hpr & _ & HnA & HA).
  eexists _, _. split; [exact E|]. simpl.
  split; [reflexivity|]. split; [reflexivity|].
  split.
  { destruct (selectsArchive k nowA q), (selectsPrimary k nowP q);
      [rewrite mergeResults_both, length_firstn; unfold jsSort;
       rewrite stableSort_length, length_app; lia
      |unfold mergeResults; simpl; rewrite length_app; lia ..]. }
  intros HP HqA. rewrite HP, HqA, mergeResults_both.
  assert (Hlen : length (firstn (limit o)
                           (jsSort (compareByDateDesc (kindDateField k)) (pr ++ ar)))
                 = Nat.min (limit o) (length pr + length ar)).
  { rewrite length_firstn. unfold jsSort. rewrite stableSort_length, length_app.
    reflexivity. }
  split; [exact Hlen|].
  intros Hfull. split; [|split].
  - unfold archiveLimit. rewrite Hfull, Z.sub_diag. reflexivity.
  - intros Hnewer. unfold jsSort. rewrite stableSort_app.
    + rewrite firstn_app, stableSort_length, Hfull, Nat.sub_diag. simpl.
      rewrite app_nil_r. apply firstn_all2. rewrite stableSort_length. lia.
    + intros h c Hh Hc. apply notNewer_not_after. apply Hnewer; assumption.
  - intros Hno. unfold noErrorLogged in Hno. simpl in Hno.
    destruct (HA HqA) as (oA & lA & Hw & Hcase).
    assert (Hfa : length ar = (matchedCount q (cold w) - skip o)%nat).
    { destruct oA as [rs|e].
      - destruct (fails w (OpCount Cold)).
        + destruct Hcase as (_ & _ & Hin). exfalso. exact (Hno _ Hin).
        + destruct Hcase as [-> _]. rewrite length_map.
          rewrite (archive_results_length k w q _ rs lA Hk Hw).
          rewrite HP, Hfull.
          destruct (archive_page_after_full_hot_page w q o) as [_ ->].
          rewrite length_skipn. unfold mongoSort. rewrite stableSort_length.
          reflexivity.
      - destruct Hcase as (_ & _ & Hin). exfalso. exact (Hno _ Hin). }
    split; [exact Hfa|].
    intros Hskip. rewrite Hlen. lia.
Qed.

Lemma fetched_counts_precede_truncation_witness :
  knownKind saleKind /\
  exists r s,
    run (queryUnifiedSales fullPageWorld now2025 now2025 approvedQuery pageOfOneOptions)
      = (Returned r, s) /\
    fromPrimary r = 1%nat /\ fromArchive r = 2%nat /\ length (data r) = 1%nat /\
    (length (data r) <= fromPrimary r + fromArchive r)%nat.
Proof.
  split; [left; reflexivity|].
  destruct (fetched_counts_precede_truncation saleKind fullPageWorld now2025 now2025
              approvedQuery pageOfOneOptions (or_introl eq_refl))
    as (r & s & E & _ & _ & Hle & _).
  exists r, s. split; [exact E|].
  assert (Er : r = mkResult [saleAt 1 t2024_06_01] 3 1 2 1 2).
  { assert (H : fst (run (queryUnified saleKind fullPageWorld now2025 now2025 approvedQuery
                            pageOfOneOptions))
                = Returned (mkResult [saleAt 1 t2024_06_01] 3 1 2 1 2))
      by (vm_compute; reflexivity).
    rewrite E in H. simpl in H. injection H as H. exact H. }
  rewrite Er in *. simpl. repeat split; auto.
Defined.

(** ** Reference resolution for cold records *)

Example ex_sales_batch_log :
  log (snd (run (queryArchiveSales salesWorld ∅ salesmanDealerOptions)))
  = [EvFind Cold None None; EvRefFind User [10; 10; 11; 12]%N].
Proof. vm_compute. reflexivity. Qed.

Example ex_sales_stitched :
  (fun rs => match rs with
             | Returned [d1; d2] =>
                 (d1 !! "salesman", d1 !! "dealer", d2 !! "dealer")
             | _ => (None, None, None)
             end)
    (fst (run (queryArchiveSales salesWorld ∅ salesmanDealerOptions)))
  = (Some (VObj 10 [("name", VStr "asha"); ("email", VStr "asha@example.com")]),
     Some (VObj 11 [("name", VStr "binod"); ("email", VStr "binod@example.com")]),
     Some VNull).
Proof. vm_compute. reflexivity. Qed.

(** Two archived payments and one reference path: two point lookups and no
    batch lookup. *)
Lemma payments_resolved_record_by_record :
  length (cold paymentsWorld) = 2%nat /\
  length (populate dealerPopulateOptions) = 1%nat /\
  log (snd (run (queryArchivePayments paymentsWorld ∅ dealerPopulateOptions)))
  = [EvFind Cold None None; EvRefFindById User 10; EvRefFindById User 11] /\
  batchLookups User
    (log (snd (run (queryArchivePayments paymentsWorld ∅ dealerPopulateOptions)))) = 0%nat /\
  pointLookups
    (log (snd (run (queryArchivePayments paymentsWorld ∅ dealerPopulateOptions)))) = 2%nat /\
  pointLookups
    (log (snd (run (queryArchiveDealerRequests paymentsWorld ∅ dealerPopulateOptions)))) = 2%nat /\
  batchLookups User
    (log (snd (run (queryArchiveSales salesWorld ∅ salesmanDealerOptions)))) = 1%nat /\
  length (populate salesmanDealerOptions) = 2%nat.
Proof. vm_compute. repeat split; reflexivity. Qed.

Lemma writes_refFind (w : World) (c : Collection) (ids : list Value) (sel : list string) :
  exists o l,
    writes (refFind w c ids sel) o l /\
    (l = [] \/ exists ns, l = [EvRefFind c ns]).
Proof.
  unfold refFind. destruct (mapM castObjectId ids) as [ns|].
  - eexists _, _. split; [apply writes_roundTrip|]. right. eauto.
  - eexists _, _. split; [apply writes_throw|]. left. reflexivity.
Qed.

Lemma writes_batch (w : World) (c : Collection) (ids : IdSet) (sel : list string) :
  exists o l,
    writes (if (0 <? length ids)%nat
            then refFind w c (setValues ids) sel
            else mret []) o l /\
    (l = [] \/ exists ns, l = [EvRefFind c ns]).
Proof.
  destruct (0 <? length ids)%nat.
  - apply writes_refFind.
  - eexists _, _. split; [apply writes_ret|]. left. reflexivity.
Qed.

Lemma writes_promiseAll3 {A B C : Type} (a : M A) (b : M B) (c : M C)
    oa la ob lb oc lc :
  writes a oa la -> writes b ob lb -> writes c oc lc ->
  exists o, writes (promiseAll3 a b c) o (la ++ lb ++ lc).
Proof.
  intros Ha Hb Hc. unfold promiseAll3.
  replace (la ++ lb ++ lc) with (la ++ lb ++ lc ++ []) by (rewrite app_nil_r; reflexivity).
  destruct oa, ob, oc; eexists;
    (eapply writes_bind; [apply writes_settle, Ha|]);
    (eapply writes_bind; [apply writes_settle, Hb|]);
    (eapply writes_bind; [apply writes_settle, Hc|]);
    first [apply writes_ret | apply writes_throw].
Qed.

Lemma batchLookups_app (c : Collection) (l l' : list Event) :
  batchLookups c (l ++ l') = (batchLookups c l + batchLookups c l')%nat.
Proof. unfold batchLookups. rewrite List.filter_app, length_app. reflexivity. Qed.

Lemma pointLookups_app (l l' : list Event) :
  pointLookups (l ++ l') = (pointLookups l + pointLookups l')%nat.
Proof. unfold pointLookups. rewrite List.filter_app, length_app. reflexivity. Qed.

(** The round trips of an archive sales query: the find, then at most one
    batch lookup into each of the three referenced collections. *)
Lemma queryArchiveSales_log (w : World) (q : Query) (o : Options) :
  exists out lu lp ls,
    writes (queryArchiveSales w q o) out
      (EvFind Cold (whenNonZero (skip o)) (whenNonZero (limit o)) :: lu ++ lp ++ ls) /\
    (lu = [] \/ exists ns, lu = [EvRefFind User ns]) /\
    (lp = [] \/ exists ns, lp = [EvRefFind Product ns]) /\
    (ls = [] \/ exists ns, ls = [EvRefFind Shopkeeper ns]).
Proof.
  unfold queryArchiveSales.
  pose proof (writes_roundTrip w (OpFind Cold)
                (EvFind Cold (whenNonZero (skip o)) (whenNonZero (limit o)))
                (page q (sort o) (whenNonZero (skip o)) (whenNonZero (limit o))
                   (tierDocs w Cold))) as Hexec.
  fold (execFind w Cold q (sort o) (whenNonZero (skip o)) (whenNonZero (limit o))) in Hexec.
  fold (archiveExec w q o) in Hexec.
  destruct (fails w (OpFind Cold)).
  - exists (Thrown (StoreError (OpFind Cold))), [], [], [].
    split; [exact (writes_bind_thrown _ _ _ _ Hexec)|]. auto.
  - set (rows := page q (sort o) (whenNonZero (skip o)) (whenNonZero (limit o))
                   (tierDocs w Cold)) in *.
    destruct ((0 <? length (populate o))%nat && (0 <? length rows)%nat) eqn:Hcond.
    + destruct (writes_batch w User (userIds (collectSaleIds (populate o) rows))
                  ["name"; "email"]) as (ou & lu & Hu & Hlu).
      destruct (writes_batch w Product (productIds (collectSaleIds (populate o) rows))
                  ["title"; "packetPrice"; "packetsPerStrip"; "image"])
        as (op & lp & Hp & Hlp).
      destruct (writes_batch w Shopkeeper (shopkeeperIds (collectSaleIds (populate o) rows))
                  ["name"; "phone"; "email"; "location"]) as (os & ls & Hs & Hls).
      destruct (writes_promiseAll3 _ _ _ _ _ _ _ _ _ Hu Hp Hs) as [o3 H3].
      destruct o3 as [[[users products] shopkeepers]|e].
      * eexists _, lu, lp, ls. split; [|auto].
        change (?x :: ?l) with ([x] ++ l).
        eapply writes_bind; [exact Hexec|]. fold rows. rewrite Hcond.
        replace (lu ++ lp ++ ls) with ((lu ++ lp ++ ls) ++ [])
          by (rewrite app_nil_r; reflexivity).
        eapply writes_bind; [exact H3|]. apply writes_ret.
      * eexists _, lu, lp, ls. split; [|auto].
        change (?x :: ?l) with ([x] ++ l).
        eapply writes_bind; [exact Hexec|]. fold rows. rewrite Hcond.
        eapply writes_bind_thrown. exact H3.
    + eexists _, [], [], []. split; [|auto].
      change (?x :: ?l) with ([x] ++ l).
      eapply writes_bind; [exact Hexec|]. fold rows. rewrite Hcond. apply writes_ret.
Qed.

Lemma settle_returned {A : Type} (m : M A) s o s' :
  settle m s = (Returned o, s') -> m s = (o, s').
Proof. unfold settle. destruct (m s) as [o1 s1]. intros [= -> ->]. reflexivity. Qed.

Lemma promiseAll3_returned {A B C : Type} (a : M A) (b : M B) (c : M C) s x y z s' :
  promiseAll3 a b c s = (Returned (x, y, z), s') ->
  exists s1 s2,
    a s = (Returned x, s1) /\ b s1 = (Returned y, s2) /\ c s2 = (Returned z, s').
Proof.
  unfold promiseAll3. intros H.
  apply bind_returned in H as (oa & s1 & Ha & H). apply settle_returned in Ha.
  apply bind_returned in H as (ob & s2 & Hb & H). apply settle_returned in Hb.
  apply bind_returned in H as (oc & s3 & Hc & H). apply settle_returned in Hc.
  destruct oa, ob, oc; try discriminate.
  apply ret_returned in H as [[= -> -> ->] ->]. eauto.
Qed.

Lemma batch_returned (w : World) (c : Collection) (ids : IdSet) (sel : list string)
    s es s' :
  (if (0 <? length ids)%nat then refFind w c (setValues ids) sel else mret []) s
    = (Returned es, s') ->
  es = fetched w c ids sel.
Proof.
  unfold fetched. destruct (0 <? length ids)%nat.
  - unfold refFind. destruct (mapM castObjectId (setValues ids)); [|discriminate].
    intros H. apply roundTrip_returned in H as [-> _]. reflexivity.
  - intros H. apply ret_returned in H as [-> _]. reflexivity.
Qed.

(** The rows an archive sales query returns: the cold page, each requested
    reference field replaced through the lookup maps of the batches. *)
Lemma queryArchiveSales_returned (w : World) (q : Query) (o : Options) s rs s' :
  queryArchiveSales w q o s = (Returned rs, s') ->
  let rows := page q (sort o) (whenNonZero (skip o)) (whenNonZero (limit o)) (cold w) in
  let ids := collectSaleIds (populate o) rows in
  rs = if (0 <? length (populate o))%nat && (0 <? length rows)%nat
       then map (fun resultObj =>
                   fold_left
                     (stitchSale
                        (fetched w User (userIds ids) ["name"; "email"])
                        (fetched w Product (productIds ids)
                           ["title"; "packetPrice"; "packetsPerStrip"; "image"])
                        (fetched w Shopkeeper (shopkeeperIds ids)
                           ["name"; "phone"; "email"; "location"]))
                     (populate o) resultObj)
                rows
       else rows.
Proof.
  intros H. cbv zeta. unfold queryArchiveSales in H.
  apply bind_returned in H as (results & s1 & Hexec & H).
  apply archiveExec_returned in Hexec. subst results.
  destruct (_ && _).
  - apply bind_returned in H as ([[users products] shopkeepers] & s2 & H3 & H).
    apply promiseAll3_returned in H3 as (s3 & s4 & Hu & Hp & Hs).
    apply batch_returned in Hu, Hp, Hs. subst.
    apply ret_returned in H as [-> _]. reflexivity.
  - apply ret_returned in H as [-> _]. reflexivity.
Qed.

(** Stitching goes by identifier: a foreign key resolves to the fetched
    document with that identifier, or to [null] when none was fetched. *)
Lemma lookupOrNull_by_id (entries : list Entity) (i : N) :
  (lookupOrNull entries (Some (VId i)) = VNull /\
   forall e, In e entries -> ent_id e <> i) \/
  (exists e, In e entries /\ ent_id e = i /\
             lookupOrNull entries (Some (VId i)) = VObj i (ent_fields e)).
Proof.
  simpl. unfold mapGet.
  destruct (List.find (fun e => (ent_id e =? i)%N) (rev entries)) as [e|] eqn:E.
  - right. apply List.find_some in E as [Hin Heq].
    apply N.eqb_eq in Heq. exists e. rewrite <- in_rev in Hin.
    simpl. rewrite Heq. auto.
  - left. split; [reflexivity|]. intros e Hin Heq.
    pose proof (List.find_none _ _ E e) as Hn.
    rewrite <- in_rev in Hn. specialize (Hn Hin). simpl in Hn.
    apply N.eqb_neq in Hn. contradiction.
Qed.


(** ** A straddling filter in the federated queries *)

Lemma straddling_selects_both (now st en : Z) :
  st < getArchiveThresholdDate now <= en ->
  shouldQueryArchive now (Some (DateAt st)) (Some (DateAt en)) = true /\
  shouldQueryPrimary now (Some (DateAt st)) (Some (DateAt en)) = true.
Proof.
  intros [Hs He]. unfold shouldQueryArchive, shouldQueryPrimary. simpl.
  destruct (Z.ltb_spec en (getArchiveThresholdDate now)); [lia|].
  destruct (Z.ltb_spec st (getArchiveThresholdDate now)); [|lia].
  destruct (Z.geb_spec st (getArchiveThresholdDate now)); [lia|].
  destruct (Z.geb_spec en (getArchiveThresholdDate now)); [|lia].
  auto.
Qed.

(** Without requested reference paths an archive query that returns hands
    back the cold store's page as it is. *)
Lemma archive_results_unpopulated (k : KindOps) (w : World) (q : Query) (o : Options) rs l :
  knownKind k ->
  populate o = [] ->
  writes (kindQueryArchive k w q o) (Returned rs) l ->
  rs = page q (sort o) (whenNonZero (skip o)) (whenNonZero (limit o)) (cold w).
Proof.
  intros Hk Hpop Hw. specialize (Hw initSt).
  destruct Hk as [-> | [-> | ->]]; simpl in Hw;
    [unfold queryArchiveSales in Hw
    |unfold queryArchivePayments in Hw
    |unfold queryArchiveDealerRequests in Hw];
    apply bind_returned in Hw as (results & s1 & Hexec & Hw);
    apply archiveExec_returned in Hexec as <-;
    rewrite Hpop in Hw; simpl in Hw;
    apply ret_returned in Hw as [-> _]; reflexivity.
Qed.

(** C2, as the code has it: under a filter that straddles the threshold
    both tiers are queried, each with the caller's filter as it stands; the
    federated queries do not split it.  When no tier error is reported, the
    hot page and count are those of the filter over the hot store, the cold
    page and count those of the same filter over the cold store; so a record
    that matches the filter, whatever its timestamp and the threshold
    included, is counted and paged by the tier whose store holds it. *)
Theorem straddling_filter_sent_unsplit (k : KindOps) (w : World) (now : Z)
    (q : Query) (o : Options) (st en : Z) :
  knownKind k ->
  kindDateRange k q = Some (mkRange (Some st) (Some en)) ->
  st < getArchiveThresholdDate now <= en ->
  exists r s,
    run (queryUnified k w now now q o) = (Returned r, s) /\
    selectsPrimary k now q = true /\
    selectsArchive k now q = true /\
    (noErrorLogged s ->
       l_primaryResults s = hotPage w q o /\
       primaryCount r = matchedCount q (hot w) /\
       archiveCount r = matchedCount q (cold w) /\
       (let o' := archiveOptions true o (fromPrimary r) in
        fromArchive r
        = length (page q (sort o') (whenNonZero (skip o')) (whenNonZero (limit o')) (cold w)) /\
        (populate o = [] ->
         l_archiveResults s
         = map normalizeArchiveRecord
             (page q (sort o') (whenNonZero (skip o')) (whenNonZero (limit o')) (cold w)))) /\
       (forall d, In d (cold w) -> matches q d = true -> (0 < archiveCount r)%nat)).
Proof.
  intros Hk Hr Hst.
  destruct (straddling_selects_both now st en Hst) as [HA HP].
  assert (HqA : selectsArchive k now q = true) by (unfold selectsArchive; rewrite Hr; exact HA).
  assert (HqP : selectsPrimary k now q = true) by (unfold selectsPrimary; rewrite Hr; exact HP).
  destruct (queryUnified_run k w now now q o Hk)
    as (lg & pr & ar & pc & ac & E & Hpc & Hpr & Herr & _ & Harch).
  eexists _, _. split; [exact E|]. split; [exact HqP|]. split; [exact HqA|].
  intros Hno. unfold noErrorLogged in Hno. simpl in Hno. simpl.
  rewrite HqP in Hpc, Hpr. specialize (Herr HqP).
  destruct (fails w (OpCount Hot)); [exfalso; exact (Hno _ (Herr eq_refl))|].
  destruct (fails w (OpFind Hot)); [exfalso; exact (Hno _ (Herr eq_refl))|].
  simpl in Hpc, Hpr.
  destruct (Harch HqA) as (oA & lA & Hw & Hcase). rewrite HqP in Hw.
  destruct oA as [rs|e]; [|destruct Hcase as (_ & _ & Hin); exfalso; exact (Hno _ Hin)].
  destruct (fails w (OpCount Cold));
    [destruct Hcase as (_ & _ & Hin); exfalso; exact (Hno _ Hin)|].
  destruct Hcase as [-> ->].
  split; [exact Hpr|]. split; [exact Hpc|]. split; [reflexivity|].
  cbv zeta. split; [split|].
  - rewrite length_map. apply (archive_results_length k w q _ rs lA Hk Hw).
  - intros Hpop. f_equal. apply (archive_results_unpopulated k w q (archiveOptions true o (length pr)) rs lA Hk Hpop Hw).
  - intros d Hin Hm. unfold matchedCount.
    assert (Hf : In d (List.filter (matches q) (cold w)))
      by (apply List.filter_In; auto).
    destruct (List.filter (matches q) (cold w)); simpl; [contradiction | lia].
Qed.

Lemma straddling_filter_sent_unsplit_witness :
  knownKind saleKind /\
  kindDateRange saleKind straddleQuery
    = Some (mkRange (Some t2022_06_01) (Some t2024_06_01)) /\
  t2022_06_01 < getArchiveThresholdDate now2025 <= t2024_06_01 /\
  exists r s,
    run (queryUnifiedSales boundaryWorld now2025 now2025 straddleQuery defaultSaleOptions)
      = (Returned r, s) /\
    selectsPrimary saleKind now2025 straddleQuery = true /\
    selectsArchive saleKind now2025 straddleQuery = true.
Proof.
  assert (Hst : t2022_06_01 < getArchiveThresholdDate now2025 <= t2024_06_01).
  { change (getArchiveThresholdDate now2025) with t2023_01_01.
    unfold t2022_06_01, t2023_01_01, t2024_06_01. lia. }
  split; [left; reflexivity|]. split; [reflexivity|]. split; [exact Hst|].
  destruct (straddling_filter_sent_unsplit saleKind boundaryWorld now2025
              straddleQuery defaultSaleOptions t2022_06_01 t2024_06_01
              (or_introl eq_refl) eq_refl Hst)
    as (r & s & E & HP & HA & _).
  exists r, s. auto.
Defined.


(* ===================================================================== *)
(** * Further properties of the code *)
(* ===================================================================== *)

(** ** The threshold *)

Lemma civil_roundtrip (z : Z) :
  let '(y, m, d) := JSDate.civilFromDays z in
  JSDate.daysFromCivil y m 1 + d - 1 = z /\ 1 <= m <= 12.
Proof.
  unfold JSDate.civilFromDays, JSDate.daysFromCivil. cbv zeta.
  match goal with |- context [?a <? 10] => destruct (Z.ltb_spec a 10) end;
    match goal with |- context [?a <=? 2] => destruct (Z.leb_spec a 2) end;
    (split; Z.div_mod_to_equations; lia).
Qed.

Lemma year_shift (y m n : Z) :
  1 <= m <= 12 -> 1 <= n <= 2 ->
  365 * n <= JSDate.daysFromCivil y m 1 - JSDate.daysFromCivil (y - n) m 1 <= 365 * n + 1.
Proof.
  intros Hm Hn. unfold JSDate.daysFromCivil.
  assert (n = 1 \/ n = 2) as [-> | ->] by lia;
    destruct (m <=? 2); Z.div_mod_to_equations; lia.
Qed.

(** Setting the year back by one or two years moves a date back by that
    many years of 365 or 366 days and keeps the time of day. *)
Lemma setFullYear_back (t n : Z) :
  1 <= n <= 2 ->
  let t' := JSDate.setFullYear t (JSDate.getFullYear t - n) in
  365 * n * JSDate.msPerDay <= t - t' <= (365 * n + 1) * JSDate.msPerDay /\
  t' mod JSDate.msPerDay = t mod JSDate.msPerDay.
Proof.
  intros Hn. unfold JSDate.setFullYear, JSDate.getFullYear.
  pose proof (civil_roundtrip (t / JSDate.msPerDay)) as Hrt.
  destruct (JSDate.civilFromDays (t / JSDate.msPerDay)) as [[y m] d].
  destruct Hrt as [Hday Hm].
  pose proof (year_shift y m n Hm Hn) as Hshift.
  cbv zeta. unfold JSDate.msPerDay in *. split.
  - pose proof (Z.div_mod t 86400000 ltac:(lia)) as Ht.
    set (a := JSDate.daysFromCivil y m 1) in *.
    set (b := JSDate.daysFromCivil (y - n) m 1) in *.
    nia.
  - rewrite Z.add_comm, Z_mod_plus_full. apply Z.mod_mod. lia.
Qed.

(** X1: with the calendar read in UTC (a process whose time zone is UTC,
    so no daylight-saving shift), the archive threshold lies 730 or 731 days
    before the clock reading, at the same time of day; in particular it is in
    the past. *)
Theorem threshold_two_years_back (now : Z) :
  let T := getArchiveThresholdDate now in
  730 * JSDate.msPerDay <= now - T <= 731 * JSDate.msPerDay /\
  T mod JSDate.msPerDay = now mod JSDate.msPerDay /\
  T < now.
Proof.
  unfold getArchiveThresholdDate, ARCHIVE_THRESHOLD_YEARS.
  destruct (setFullYear_back now 2 ltac:(lia)) as [Hd Hm].
  cbv zeta in *. unfold JSDate.msPerDay in *. repeat split; try assumption; lia.
Qed.

(** ** Tier selection for one-sided and two-sided ranges *)

(** X2: with one threshold, a range with a single bound that is a valid
    Date selects exactly one tier (the cold tier when the bound is before the
    threshold, the hot tier otherwise); a range with a single bound that is
    the Invalid Date selects neither; and both tiers are selected exactly
    when no bound is set or when the two bounds are valid Dates on either
    side of the threshold. *)
Theorem both_tiers_iff_straddle (now : Z) (s e : option DateObj) :
  let T := getArchiveThresholdDate now in
  (forall a, s = Some (DateAt a) -> e = None ->
     shouldQueryArchive now s e = (a <? T) /\
     shouldQueryPrimary now s e = negb (a <? T)) /\
  (forall b, s = None -> e = Some (DateAt b) ->
     shouldQueryArchive now s e = (b <? T) /\
     shouldQueryPrimary now s e = negb (b <? T)) /\
  ((s = Some InvalidDate /\ e = None) \/ (s = None /\ e = Some InvalidDate) ->
     shouldQueryArchive now s e = false /\
     shouldQueryPrimary now s e = false) /\
  (shouldQueryArchive now s e && shouldQueryPrimary now s e = true <->
     (s = None /\ e = None) \/
     (exists a b, s = Some (DateAt a) /\ e = Some (DateAt b) /\
                  Z.min a b < T <= Z.max a b)).
Proof.
  intros T. unfold shouldQueryArchive, shouldQueryPrimary. fold T.
  split; [|split; [|split]].
  - intros a -> ->. simpl.
    destruct (Z.ltb_spec a T), (Z.geb_spec a T); simpl; auto; lia.
  - intros b -> ->. simpl.
    destruct (Z.ltb_spec b T), (Z.geb_spec b T); simpl; auto; lia.
  - intros [[-> ->] | [-> ->]]; split; reflexivity.
  - destruct s as [[a|]|], e as [[b|]|]; simpl.
    + destruct (Z.ltb_spec b T), (Z.ltb_spec a T), (Z.geb_spec a T), (Z.geb_spec b T);
        simpl; split; try discriminate; try lia;
        try (intros _; right; exists a, b; repeat split; lia);
        try (intros [[? _] | (a' & b' & [= <-] & [= <-] & ?)]; [discriminate | lia]).
    + destruct (Z.ltb_spec a T), (Z.geb_spec a T); simpl; split;
        try discriminate; try lia;
        intros [[? _] | (a' & b' & _ & ? & _)]; discriminate.
    + destruct (Z.ltb_spec a T), (Z.geb_spec a T); simpl; split;
        try discriminate; try lia;
        intros [[? _] | (a' & b' & _ & ? & _)]; discriminate.
    + destruct (Z.ltb_spec b T), (Z.geb_spec b T); simpl; split;
        try discriminate; try lia;
        intros [[_ ?] | (a' & b' & ? & _ & _)]; discriminate.
    + split; [discriminate|]. intros [[? _] | (a' & b' & ? & _ & _)]; discriminate.
    + split; [discriminate|]. intros [[? _] | (a' & b' & ? & _ & _)]; discriminate.
    + destruct (Z.ltb_spec b T), (Z.geb_spec b T); simpl; split;
        try discriminate; try lia;
        intros [[_ ?] | (a' & b' & ? & _ & _)]; discriminate.
    + split; [discriminate|]. intros [[_ ?] | (a' & b' & ? & _ & _)]; discriminate.
    + split; auto.
Qed.

(** ** The split and the rest of the filter *)

Lemma matches_spec (q : Query) (d : Doc) :
  matches q d = true <->
  forall k c, q !! k = Some c -> condMatches c (d !! k) = true.
Proof. unfold matches. rewrite bool_decide_eq_true. reflexivity. Qed.

(** X3: whatever the branch taken, the split changes nothing but the
    timestamp field: every other field of the filter is in both
    sub-filters, with the same condition. *)
Theorem split_keeps_other_fields (nowA nowP now nowA' : Z) (query : Query)
    (dateField k : string) :
  k <> dateField ->
  let sp := splitQueryByDate nowA nowP now nowA' query dateField in
  primaryQuery sp !! k = query !! k /\ archiveQuery sp !! k = query !! k.
Proof.
  intros Hk. unfold splitQueryByDate.
  destruct (extractDateRange query dateField) as [[s e]|]; simpl; [|auto].
  destruct (shouldQueryArchive nowA (asDate s) (asDate e)
            && shouldQueryPrimary nowP (asDate s) (asDate e)).
  - destruct s, e; simpl; rewrite ?lookup_insert_ne by congruence; auto.
  - destruct (shouldQueryArchive nowA' (asDate s) (asDate e)); simpl;
      rewrite ?lookup_delete_ne by congruence; auto.
Qed.

Lemma split_keeps_other_fields_witness :
  "billStatus" <> "saleDate" /\
  primaryQuery (splitQueryByDate now2025 now2025 now2025 now2025 straddleQuery "saleDate")
    !! "billStatus" = Some (CEq (VStr "approved")).
Proof.
  split; [discriminate|].
  rewrite (proj1 (split_keeps_other_fields now2025 now2025 now2025 now2025
                    straddleQuery "saleDate" "billStatus" ltac:(discriminate))).
  reflexivity.
Defined.

(** X4: a filter that puts no bound on the timestamp field (the field is
    missing, falsy, a bare value that is not a Date, or an operator object
    without bounds) is handed whole to both tiers, and both are to be
    queried. *)
Theorem split_without_bounds (nowA nowP now nowA' : Z) (query : Query)
    (dateField : string) :
  optStart (extractDateRange query dateField) = None ->
  optEnd (extractDateRange query dateField) = None ->
  splitQueryByDate nowA nowP now nowA' query dateField = mkSplit query query true.
Proof.
  unfold splitQueryByDate.
  destruct (extractDateRange query dateField) as [[s e]|]; simpl.
  - intros -> ->. reflexivity.
  - reflexivity.
Qed.

Lemma split_without_bounds_witness :
  optStart (extractDateRange approvedQuery "saleDate") = None /\
  optEnd (extractDateRange approvedQuery "saleDate") = None /\
  splitQueryByDate now2025 now2025 now2025 now2025 approvedQuery "saleDate"
  = mkSplit approvedQuery approvedQuery true.
Proof.
  split; [reflexivity|]. split; [reflexivity|].
  apply (split_without_bounds now2025 now2025 now2025 now2025 approvedQuery "saleDate");
    reflexivity.
Defined.

Lemma both_selected_two_sided (now s e : Z) :
  shouldQueryArchive now (Some (DateAt s)) (Some (DateAt e))
  && shouldQueryPrimary now (Some (DateAt s)) (Some (DateAt e)) = true ->
  Z.min s e < getArchiveThresholdDate now <= Z.max s e.
Proof.
  unfold shouldQueryArchive, shouldQueryPrimary. simpl.
  generalize (getArchiveThresholdDate now). intros T.
  destruct (Z.ltb_spec e T), (Z.ltb_spec s T), (Z.geb_spec s T), (Z.geb_spec e T);
    simpl; try discriminate; lia.
Qed.

Lemma condMatches_gteLte (lo hi t : Z) :
  condMatches (opsGteLte lo hi) (Some (VDate t)) = true <-> lo <= t <= hi.
Proof.
  unfold opsGteLte, condMatches, opsEmpty, opsMatch. simpl.
  rewrite !andb_true_iff, !Z.leb_le. tauto.
Qed.

Lemma condMatches_gteLt (lo hi t : Z) :
  condMatches (opsGteLt lo hi) (Some (VDate t)) = true <-> lo <= t < hi.
Proof.
  unfold opsGteLt, condMatches, opsEmpty, opsMatch. simpl.
  rewrite !andb_true_iff, Z.leb_le, Z.ltb_lt. tauto.
Qed.

Lemma opsMatch_bounds (o : Ops) (t s e : Z) :
  opsMatch o t = true ->
  overwrite (op_gte o) (op_gt o) = Some s ->
  overwrite (op_lte o) (op_lt o) = Some e ->
  s <= t <= e.
Proof.
  unfold opsMatch, overwrite.
  destruct (op_gte o), (op_lte o), (op_gt o), (op_lt o);
    rewrite !andb_true_iff, ?Z.leb_le, ?Z.ltb_lt;
    intros H [= <-] [= <-] || intros H [=] || intros H ? [=]; lia.
Qed.

(** X5: with one clock reading, when both tiers are selected for a
    two-sided range, every document the filter admits is admitted by the hot
    or by the cold sub-filter of the split: the split drops no record.  When
    moreover the filter's bounds are the inclusive [$gte] and [$lte], the two
    sub-filters admit nothing else. *)
Theorem split_drops_no_record (now : Z) (query : Query)
    (dateField : string) (o : Ops) (s e : Z) :
  query !! dateField = Some (COps o) ->
  overwrite (op_gte o) (op_gt o) = Some s ->
  overwrite (op_lte o) (op_lt o) = Some e ->
  queryBoth (splitQueryByDate now now now now query dateField) = true ->
  let sp := splitQueryByDate now now now now query dateField in
  (forall d : Doc, matches query d = true ->
     matches (primaryQuery sp) d = true \/ matches (archiveQuery sp) d = true) /\
  (o = mkOps (Some s) (Some e) None None ->
   forall d : Doc,
     matches (primaryQuery sp) d = true \/ matches (archiveQuery sp) d = true ->
     matches query d = true).
Proof.
  intros Hq Hs He Hb sp.
  assert (Hr : extractDateRange query dateField = Some (mkRange (Some s) (Some e))).
  { unfold extractDateRange. rewrite Hq, <- Hs, <- He.
    destruct (op_gte o), (op_lte o), (op_gt o), (op_lt o); reflexivity. }
  assert (Hstr : Z.min s e < getArchiveThresholdDate now <= Z.max s e).
  { apply both_selected_two_sided. revert Hb. unfold splitQueryByDate.
    rewrite Hr. simpl.
    destruct (shouldQueryArchive now (Some (DateAt s)) (Some (DateAt e)) &&
              shouldQueryPrimary now (Some (DateAt s)) (Some (DateAt e))); [reflexivity|].
    destruct (shouldQueryArchive now (Some (DateAt s)) (Some (DateAt e))); simpl;
      discriminate. }
  unfold sp. rewrite (split_both_lookup _ _ _ _ _ _ _ _ Hr Hb).
  cbv zeta. cbn [primaryQuery archiveQuery].
  revert Hstr. generalize (getArchiveThresholdDate now). intros T Hstr.
  split.
  - intros d Hm. rewrite matches_spec in Hm.
    pose proof (Hm _ _ Hq) as Hc.
    apply condMatches_ops_date in Hc as (t & Ht & Ho).
    pose proof (opsMatch_bounds o t s e Ho Hs He) as Hbounds.
    destruct (Z.lt_ge_cases t T) as [Hlt | Hge]; [right | left];
      apply matches_spec; intros k c Hk;
      (destruct (decide (k = dateField)) as [-> | Hne];
       [ rewrite lookup_insert_eq in Hk; injection Hk as <-; rewrite Ht
       | rewrite lookup_insert_ne in Hk by congruence; apply Hm; exact Hk ]).
    + apply condMatches_gteLt. lia.
    + apply condMatches_gteLte. lia.
  - intros -> d Hm. apply matches_spec. intros k c Hk.
    destruct (decide (k = dateField)) as [-> | Hne].
    + rewrite Hq in Hk. injection Hk as <-.
      destruct Hm as [Hm | Hm]; rewrite matches_spec in Hm;
        pose proof (Hm dateField _ (lookup_insert_eq _ _ _)) as Hc;
        destruct (condMatches_ops_date _ _ Hc) as (t & Ht & _);
        rewrite Ht in Hc |- *.
      * apply condMatches_gteLte in Hc. apply (condMatches_gteLte s e t). lia.
      * apply condMatches_gteLt in Hc. apply (condMatches_gteLte s e t). lia.
    + destruct Hm as [Hm | Hm]; rewrite matches_spec in Hm;
        apply Hm; rewrite lookup_insert_ne by congruence; exact Hk.
Qed.

Lemma split_drops_no_record_witness :
  straddleQuery !! "saleDate"
    = Some (COps (mkOps (Some t2022_06_01) (Some t2024_06_01) None None)) /\
  queryBoth (splitQueryByDate now2025 now2025 now2025 now2025 straddleQuery "saleDate") = true /\
  (matches straddleQuery (saleAt 7 t2023_01_01) = true ->
   matches (primaryQuery (splitQueryByDate now2025 now2025 now2025 now2025
                            straddleQuery "saleDate")) (saleAt 7 t2023_01_01) = true \/
   matches (archiveQuery (splitQueryByDate now2025 now2025 now2025 now2025
                            straddleQuery "saleDate")) (saleAt 7 t2023_01_01) = true).
Proof.
  split; [reflexivity|]. split; [reflexivity|].
  exact (proj1 (split_drops_no_record now2025 straddleQuery
                  "saleDate" _ t2022_06_01 t2024_06_01 eq_refl eq_refl eq_refl eq_refl)
               (saleAt 7 t2023_01_01)).
Defined.

(** ** Normalizing an archive record *)

(** X6: normalizing an archive record is idempotent, touches no field
    other than [_originalId], leaves a record that already has a truthy
    [_originalId] as it is, and gives every record with a truthy [originalId]
    a truthy [_originalId]. *)
Theorem normalize_idempotent (d : Doc) :
  normalizeArchiveRecord (normalizeArchiveRecord d) = normalizeArchiveRecord d /\
  (forall k, k <> "_originalId" -> normalizeArchiveRecord d !! k = d !! k) /\
  (truthyField d "_originalId" = true -> normalizeArchiveRecord d = d) /\
  (truthyField d "originalId" = true ->
   truthyField (normalizeArchiveRecord d) "_originalId" = true).
Proof.
  unfold normalizeArchiveRecord.
  destruct (truthyField d "originalId") eqn:Ho;
    destruct (truthyField d "_originalId") eqn:Hu; simpl;
    rewrite ?Ho, ?Hu; simpl; try (repeat split; auto; discriminate).
  unfold truthyField in Ho. destruct (d !! "originalId") as [v|] eqn:Hv; [|discriminate].
  assert (Htr : truthyField (<["_originalId" := v]> d) "_originalId" = true).
  { unfold truthyField. rewrite lookup_insert_eq. exact Ho. }
  assert (Hor : truthyField (<["_originalId" := v]> d) "originalId" = true).
  { unfold truthyField. rewrite lookup_insert_ne by discriminate. rewrite Hv. exact Ho. }
  rewrite Htr, Hor. simpl. repeat split; auto.
  - intros k Hk. rewrite lookup_insert_ne by congruence. reflexivity.
  - discriminate.
Qed.

(** ** Archive queries: what reference resolution does and does not do *)

Lemma writes_archiveExec (w : World) (q : Query) (o : Options) :
  writes (archiveExec w q o)
    (if fails w (OpFind Cold) then Thrown (StoreError (OpFind Cold))
     else Returned (page q (sort o) (whenNonZero (skip o)) (whenNonZero (limit o)) (cold w)))
    [EvFind Cold (whenNonZero (skip o)) (whenNonZero (limit o))].
Proof. unfold archiveExec, execFind. apply writes_roundTrip. Qed.

(** X7: an archive query of any kind that has nothing to resolve (no
    reference path requested, or an empty page) or whose find raises makes
    the find its only round trip: it returns the cold store's page as it is,
    or throws the find's error, and looks up no reference. *)
Theorem archive_query_single_round_trip (k : KindOps) (w : World) (q : Query)
    (o : Options) :
  knownKind k ->
  populate o = [] \/
  page q (sort o) (whenNonZero (skip o)) (whenNonZero (limit o)) (cold w) = [] \/
  fails w (OpFind Cold) = true ->
  writes (kindQueryArchive k w q o)
    (if fails w (OpFind Cold) then Thrown (StoreError (OpFind Cold))
     else Returned (page q (sort o) (whenNonZero (skip o)) (whenNonZero (limit o)) (cold w)))
    [EvFind Cold (whenNonZero (skip o)) (whenNonZero (limit o))].
Proof.
  intros Hk Hcase.
  pose proof (writes_archiveExec w q o) as Hexec.
  destruct (fails w (OpFind Cold)) eqn:Hf.
  - destruct Hk as [-> | [-> | ->]]; simpl;
      [unfold queryArchiveSales
      |unfold queryArchivePayments
      |unfold queryArchiveDealerRequests];
      apply writes_bind_thrown; exact Hexec.
  - assert (Hcond : (0 <? length (populate o))%nat &&
                    (0 <? length (page q (sort o) (whenNonZero (skip o))
                                    (whenNonZero (limit o)) (cold w)))%nat = false).
    { destruct Hcase as [-> | [-> | ?]]; [reflexivity | apply andb_false_r | discriminate]. }
    destruct Hk as [-> | [-> | ->]]; simpl;
      [unfold queryArchiveSales
      |unfold queryArchivePayments
      |unfold queryArchiveDealerRequests];
      (eapply (writes_bind _ _ _ [_] _ []); [exact Hexec|]);
      rewrite Hcond; apply writes_ret.
Qed.

Lemma archive_query_single_round_trip_witness :
  knownKind paymentKind /\
  (populate defaultSaleOptions = [] \/
   page ∅ (sort defaultSaleOptions) (whenNonZero (skip defaultSaleOptions))
     (whenNonZero (limit defaultSaleOptions)) (cold paymentsWorld) = [] \/
   fails paymentsWorld (OpFind Cold) = true) /\
  log (snd (run (queryArchivePayments paymentsWorld ∅ defaultSaleOptions)))
  = [EvFind Cold None (Some 50%nat)].
Proof.
  split; [right; left; reflexivity|]. split; [left; reflexivity|].
  pose proof (archive_query_single_round_trip paymentKind paymentsWorld ∅ defaultSaleOptions
                (or_intror (or_introl eq_refl)) (or_introl eq_refl)) as H.
  unfold run. simpl in H. rewrite (H initSt). reflexivity.
Defined.

Lemma emits_ret {A : Type} (P : Event -> bool) (a : A) : emitsAtMost 0 P (mret a).
Proof. exists (Returned a), []. split; [apply writes_ret|]. auto. Qed.

Lemma emits_throw {A : Type} (P : Event -> bool) (e : Error) : emitsAtMost 0 P (@throw A e).
Proof. exists (Thrown e), []. split; [apply writes_throw|]. auto. Qed.

Lemma emits_weaken {A : Type} (P : Event -> bool) (n n' : nat) (m : M A) :
  (n <= n')%nat -> emitsAtMost n P m -> emitsAtMost n' P m.
Proof. intros Hn (o & l & Hw & Hl & HP). exists o, l. repeat split; auto. lia. Qed.

Lemma emits_bind {A B : Type} (P : Event -> bool) (n n' : nat) (m : M A) (f : A -> M B) :
  emitsAtMost n P m -> (forall a, emitsAtMost n' P (f a)) ->
  emitsAtMost (n + n') P (m ≫= f).
Proof.
  intros (o & l & Hw & Hl & HP) Hf. destruct o as [a|e].
  - destruct (Hf a) as (o' & l' & Hw' & Hl' & HP').
    exists o', (l ++ l'). split; [eapply writes_bind; eassumption|].
    rewrite length_app, forallb_app, HP, HP'. split; [lia | reflexivity].
  - exists (Thrown e), l. split; [eapply writes_bind_thrown; eassumption|].
    split; [lia | exact HP].
Qed.

Lemma emits_refFindById (w : World) c id sel :
  emitsAtMost 1 isRefFindById (refFindById w c id sel).
Proof.
  unfold refFindById. destruct (castObjectId id) as [n|].
  - eexists _, _. split; [apply writes_roundTrip|]. auto.
  - eapply emits_weaken; [|apply emits_throw]. lia.
Qed.

Lemma emits_foldM {A B : Type} (P : Event -> bool) (n : nat) (f : A -> B -> M A)
    (l : list B) :
  (forall a b, emitsAtMost n P (f a b)) ->
  forall a, emitsAtMost (length l * n) P (foldM f a l).
Proof.
  intros Hf. induction l as [|b l IH]; intros a; simpl.
  - apply emits_ret.
  - apply emits_bind; [apply Hf | exact IH].
Qed.

Lemma emits_forM {A B : Type} (P : Event -> bool) (n : nat) (f : A -> M B) (l : list A) :
  (forall a, emitsAtMost n P (f a)) ->
  emitsAtMost (length l * n) P (forM f l).
Proof.
  intros Hf. induction l as [|a l IH]; simpl.
  - apply emits_ret.
  - apply emits_bind; [apply Hf|]. intros b.
    replace (length l * n)%nat with (length l * n + 0)%nat by lia.
    apply emits_bind; [exact IH|]. intros bs. apply emits_ret.
Qed.

Lemma emits_populatePayment (w : World) (d : Doc) (pop : Populate) :
  emitsAtMost 2 isRefFindById (populatePayment w d pop).
Proof.
  unfold populatePayment.
  destruct (_ && _).
  { change 2%nat with (1 + 1)%nat. apply emits_bind; [apply emits_refFindById|].
    intros a. eapply emits_weaken; [|apply emits_ret]. lia. }
  destruct (_ && _).
  { change 2%nat with (1 + (1 + 0))%nat.
    apply emits_bind; [apply emits_refFindById|]. intros dr.
    apply emits_bind; [|intros a; apply emits_ret].
    destruct dr as [dr|]; [|eapply emits_weaken; [|apply emits_ret]; lia].
    destruct (fieldGet "product" (ent_fields dr)) as [p|];
      [|eapply emits_weaken; [|apply emits_ret]; lia].
    destruct (truthy p); [|eapply emits_weaken; [|apply emits_ret]; lia].
    change 1%nat with (1 + 0)%nat.
    apply emits_bind; [apply emits_refFindById|]. intros a. apply emits_ret. }
  destruct (_ && _).
  { change 2%nat with (1 + 1)%nat. apply emits_bind; [apply emits_refFindById|].
    intros a. eapply emits_weaken; [|apply emits_ret]. lia. }
  eapply emits_weaken; [|apply emits_ret]. lia.
Qed.

Lemma emits_populateDealerRequest (w : World) (d : Doc) (pop : Populate) :
  emitsAtMost 1 isRefFindById (populateDealerRequest w d pop).
Proof.
  unfold populateDealerRequest.
  repeat (destruct (_ && _);
          [change 1%nat with (1 + 0)%nat;
           apply emits_bind; [apply emits_refFindById|]; intros a; apply emits_ret|]).
  eapply emits_weaken; [|apply emits_ret]. lia.
Qed.

(** The shape shared by the payment and dealer-request archive queries:
    the find, then one inner loop per row of the page. *)
Lemma emits_row_by_row (w : World) (q : Query) (o : Options) (n : nat)
    (body : World -> Doc -> Populate -> M Doc) :
  (forall d pop, emitsAtMost n isRefFindById (body w d pop)) ->
  exists out l,
    writes (results ← archiveExec w q o;
            if (0 <? length (populate o))%nat && (0 <? length results)%nat
            then forM (fun result => foldM (body w) result (populate o)) results
            else mret results)
      out (EvFind Cold (whenNonZero (skip o)) (whenNonZero (limit o)) :: l) /\
    (length l <=
       length (page q (sort o) (whenNonZero (skip o)) (whenNonZero (limit o)) (cold w))
       * (length (populate o) * n))%nat /\
    forallb isRefFindById l = true.
Proof.
  intros Hbody.
  pose proof (writes_archiveExec w q o) as Hexec.
  destruct (fails w (OpFind Cold)).
  - exists (Thrown (StoreError (OpFind Cold))), [].
    split; [apply writes_bind_thrown; exact Hexec|]. split; [simpl; lia | reflexivity].
  - set (rows := page q (sort o) (whenNonZero (skip o)) (whenNonZero (limit o)) (cold w)) in *.
    assert (Hloop : emitsAtMost (length rows * (length (populate o) * n)) isRefFindById
                      (if (0 <? length (populate o))%nat && (0 <? length rows)%nat
                       then forM (fun result => foldM (body w) result (populate o)) rows
                       else mret rows)).
    { destruct (_ && _).
      - apply emits_forM. intros d. apply emits_foldM. intros d' pop. apply Hbody.
      - eapply emits_weaken; [|apply emits_ret]. lia. }
    destruct Hloop as (out & l & Hw & Hl & HP).
    exists out, l. split; [|auto].
    change (?x :: l) with ([x] ++ l).
    eapply writes_bind; [exact Hexec|]. exact Hw.
Qed.

(** X8: the payment and dealer-request archive queries resolve references
    row by row: after the find, every round trip is a point lookup, there is
    no batch lookup, and a page of N rows with K requested paths costs at
    most 2*N*K point lookups for payments (a dealer request brings its
    product along) and N*K for dealer requests. *)
Theorem row_by_row_lookups_bounded (w : World) (q : Query) (o : Options) :
  let N := length (page q (sort o) (whenNonZero (skip o)) (whenNonZero (limit o)) (cold w)) in
  let K := length (populate o) in
  (exists out l,
     writes (queryArchivePayments w q o) out
       (EvFind Cold (whenNonZero (skip o)) (whenNonZero (limit o)) :: l) /\
     (length l <= 2 * (N * K))%nat /\
     forallb isRefFindById l = true) /\
  (exists out l,
     writes (queryArchiveDealerRequests w q o) out
       (EvFind Cold (whenNonZero (skip o)) (whenNonZero (limit o)) :: l) /\
     (length l <= N * K)%nat /\
     forallb isRefFindById l = true).
Proof.
  intros N K. split.
  - destruct (emits_row_by_row w q o 2 populatePayment (emits_populatePayment w))
      as (out & l & Hw & Hl & HP).
    exists out, l. split; [exact Hw|]. split; [fold N K in Hl; lia | exact HP].
  - destruct (emits_row_by_row w q o 1 populateDealerRequest (emits_populateDealerRequest w))
      as (out & l & Hw & Hl & HP).
    exists out, l. split; [exact Hw|]. split; [fold N K in Hl; lia | exact HP].
Qed.

Lemma foldM_invariant {A B : Type} (R : A -> A -> Prop) (f : A -> B -> M A) (l : list B) :
  (forall a, R a a) ->
  (forall a b c, R a b -> R b c -> R a c) ->
  (forall a b s a' s', In b l -> f a b s = (Returned a', s') -> R a a') ->
  forall a s a' s', foldM f a l s = (Returned a', s') -> R a a'.
Proof.
  intros Hrefl Htrans. induction l as [|b l IH]; intros Hf a s a' s' H; simpl in H.
  - apply ret_returned in H as [-> _]. apply Hrefl.
  - apply bind_returned in H as (a1 & s1 & H1 & H).
    eapply Htrans.
    + eapply Hf; [left; reflexivity | exact H1].
    + eapply IH; [|exact H]. intros. eapply Hf; [right|]; eassumption.
Qed.

Lemma forM_Forall2 {A B : Type} (R : A -> B -> Prop) (f : A -> M B) (l : list A) :
  (forall a s b s', f a s = (Returned b, s') -> R a b) ->
  forall s bs s', forM f l s = (Returned bs, s') -> Forall2 R l bs.
Proof.
  intros Hf. induction l as [|a l IH]; intros s bs s' H; simpl in H.
  - apply ret_returned in H as [-> _]. constructor.
  - apply bind_returned in H as (b & s1 & Hb & H).
    apply bind_returned in H as (bs' & s2 & Hl & H).
    apply ret_returned in H as [-> _].
    constructor; [eapply Hf; exact Hb | eapply IH; exact Hl].
Qed.

Lemma stitchSale_elsewhere users products shopkeepers (d : Doc) (pop : Populate) :
  sameElsewhere (popPath pop) d (stitchSale users products shopkeepers d pop).
Proof.
  unfold stitchSale, sameElsewhere. intros key Hkey.
  destruct (String.eqb_spec (popPath pop) "salesman") as [E|E]; cbn [andb].
  { destruct (truthyField d "salesman").
    - rewrite lookup_insert_ne by congruence. reflexivity.
    - rewrite E. reflexivity. }
  destruct (String.eqb_spec (popPath pop) "dealer") as [E2|E2]; cbn [andb].
  { destruct (truthyField d "dealer").
    - rewrite lookup_insert_ne by congruence. reflexivity.
    - rewrite E2. reflexivity. }
  destruct (String.eqb_spec (popPath pop) "product") as [E3|E3]; cbn [andb].
  { destruct (truthyField d "product").
    - rewrite lookup_insert_ne by congruence. reflexivity.
    - rewrite E3. reflexivity. }
  destruct (String.eqb_spec (popPath pop) "shopkeeper") as [E4|E4]; cbn [andb].
  { destruct (truthyField d "shopkeeper").
    - rewrite lookup_insert_ne by congruence. reflexivity.
    - reflexivity. }
  reflexivity.
Qed.

Lemma populatePayment_elsewhere (w : World) (d : Doc) (pop : Populate) s d' s' :
  populatePayment w d pop s = (Returned d', s') -> sameElsewhere (popPath pop) d d'.
Proof.
  unfold populatePayment, sameElsewhere. intros H key Hkey.
  destruct (String.eqb_spec (popPath pop) "dealer") as [E|E]; simpl in H.
  { destruct (truthyField d "dealer"); simpl in H.
    - apply bind_returned in H as (e & s1 & _ & H).
      apply ret_returned in H as [-> _].
      rewrite lookup_insert_ne by congruence. reflexivity.
    - rewrite E in H. simpl in H. apply ret_returned in H as [-> _]. reflexivity. }
  destruct (String.eqb_spec (popPath pop) "dealerRequest") as [E2|E2]; simpl in H.
  { destruct (truthyField d "dealerRequest"); simpl in H.
    - apply bind_returned in H as (e & s1 & _ & H).
      apply bind_returned in H as (e' & s2 & _ & H).
      apply ret_returned in H as [-> _].
      rewrite lookup_insert_ne by congruence. reflexivity.
    - rewrite E2 in H. simpl in H. apply ret_returned in H as [-> _]. reflexivity. }
  destruct (String.eqb_spec (popPath pop) "processedBy") as [E3|E3]; simpl in H.
  { destruct (truthyField d "processedBy"); simpl in H.
    - apply bind_returned in H as (e & s1 & _ & H).
      apply ret_returned in H as [-> _].
      rewrite lookup_insert_ne by congruence. reflexivity.
    - apply ret_returned in H as [-> _]. reflexivity. }
  apply ret_returned in H as [-> _]. reflexivity.
Qed.

Lemma populateDealerRequest_elsewhere (w : World) (d : Doc) (pop : Populate) s d' s' :
  populateDealerRequest w d pop s = (Returned d', s') -> sameElsewhere (popPath pop) d d'.
Proof.
  unfold populateDealerRequest, sameElsewhere. intros H key Hkey.
  destruct (String.eqb_spec (popPath pop) "dealer") as [E|E]; simpl in H.
  { destruct (truthyField d "dealer"); simpl in H.
    - apply bind_returned in H as (e & s1 & _ & H).
      apply ret_returned in H as [-> _].
      rewrite lookup_insert_ne by congruence. reflexivity.
    - rewrite E in H. simpl in H. apply ret_returned in H as [-> _]. reflexivity. }
  destruct (String.eqb_spec (popPath pop) "product") as [E2|E2]; simpl in H.
  { destruct (truthyField d "product"); simpl in H.
    - apply bind_returned in H as (e & s1 & _ & H).
      apply ret_returned in H as [-> _].
      rewrite lookup_insert_ne by congruence. reflexivity.
    - rewrite E2 in H. simpl in H. apply ret_returned in H as [-> _]. reflexivity. }
  destruct (String.eqb_spec (popPath pop) "processedBy") as [E3|E3]; simpl in H.
  { destruct (truthyField d "processedBy"); simpl in H.
    - apply bind_returned in H as (e & s1 & _ & H).
      apply ret_returned in H as [-> _].
      rewrite lookup_insert_ne by congruence. reflexivity.
    - apply ret_returned in H as [-> _]. reflexivity. }
  apply ret_returned in H as [-> _]. reflexivity.
Qed.

Lemma foldl_stitch_elsewhere users products shopkeepers (pops : list Populate) (d : Doc) :
  forall key, ~ In key (map popPath pops) ->
  fold_left (stitchSale users products shopkeepers) pops d !! key = d !! key.
Proof.
  revert d. induction pops as [|pop pops IH]; intros d key Hkey; simpl; [reflexivity|].
  simpl in Hkey. rewrite IH by tauto.
  apply stitchSale_elsewhere. intros ->. tauto.
Qed.

Lemma foldM_elsewhere (body : Doc -> Populate -> M Doc) (pops : list Populate) :
  (forall d pop s d' s', body d pop s = (Returned d', s') ->
                         sameElsewhere (popPath pop) d d') ->
  forall d s d' s', foldM body d pops s = (Returned d', s') ->
  forall key, ~ In key (map popPath pops) -> d' !! key = d !! key.
Proof.
  intros Hbody d s d' s' H.
  apply (foldM_invariant
           (fun a a' => forall key, ~ In key (map popPath pops) -> a' !! key = a !! key)
           body pops) with (s := s) (s' := s'); auto.
  - intros a b c Hab Hbc key Hkey. rewrite Hbc, Hab by assumption. reflexivity.
  - intros a pop s0 a' s0' Hin Hstep key Hkey.
    apply (Hbody _ _ _ _ _ Hstep). intros ->. apply Hkey, in_map, Hin.
Qed.

Lemma Forall2_map_right {A B : Type} (R : A -> B -> Prop) (g : A -> B) (l : list A) :
  (forall a, R a (g a)) -> Forall2 R l (map g l).
Proof. intros H. induction l; simpl; constructor; auto. Qed.

Lemma Forall2_same {A : Type} (R : A -> A -> Prop) (l : list A) :
  (forall a, R a a) -> Forall2 R l l.
Proof. intros H. induction l; constructor; auto. Qed.

(** X9: reference resolution touches requested fields only.  Whatever an
    archive query of any kind returns, it returns one record per row of the
    cold store's page, in the page's order, and each record agrees with its
    row on every field that is not a requested reference path. *)
Theorem resolution_touches_requested_fields_only (k : KindOps) (w : World)
    (q : Query) (o : Options) (s : St) (rs : list Doc) :
  knownKind k ->
  fst (kindQueryArchive k w q o s) = Returned rs ->
  Forall2 (fun row r => forall key, ~ In key (map popPath (populate o)) ->
                                    r !! key = row !! key)
          (page q (sort o) (whenNonZero (skip o)) (whenNonZero (limit o)) (cold w))
          rs.
Proof.
  intros Hk H.
  destruct (kindQueryArchive k w q o s) as [out s'] eqn:E. simpl in H. subst out.
  set (rows := page q (sort o) (whenNonZero (skip o)) (whenNonZero (limit o)) (cold w)).
  assert (Hsame : Forall2 (fun row r : Doc => forall key,
                             ~ In key (map popPath (populate o)) -> r !! key = row !! key)
                          rows rows).
  { apply Forall2_same. auto. }
  destruct Hk as [-> | [-> | ->]]; simpl in E.
  - apply queryArchiveSales_returned in E. cbv zeta in E. fold rows in E.
    destruct (_ && _); subst rs; [|exact Hsame].
    apply Forall2_map_right. intros row key Hkey.
    apply foldl_stitch_elsewhere, Hkey.
  - unfold queryArchivePayments in E.
    apply bind_returned in E as (results & s1 & Hexec & E).
    apply archiveExec_returned in Hexec. fold rows in Hexec. subst results.
    destruct (_ && _); [|apply ret_returned in E as [-> _]; exact Hsame].
    eapply forM_Forall2; [|exact E].
    intros d s0 d' s0' Hd. eapply foldM_elsewhere; [|exact Hd].
    intros. eapply populatePayment_elsewhere; eassumption.
  - unfold queryArchiveDealerRequests in E.
    apply bind_returned in E as (results & s1 & Hexec & E).
    apply archiveExec_returned in Hexec. fold rows in Hexec. subst results.
    destruct (_ && _); [|apply ret_returned in E as [-> _]; exact Hsame].
    eapply forM_Forall2; [|exact E].
    intros d s0 d' s0' Hd. eapply foldM_elsewhere; [|exact Hd].
    intros. eapply populateDealerRequest_elsewhere; eassumption.
Qed.

Lemma resolution_touches_requested_fields_only_witness :
  knownKind saleKind /\
  exists rs,
    fst (queryArchiveSales salesWorld ∅ salesmanDealerOptions initSt) = Returned rs /\
    length rs = 2%nat /\
    Forall2 (fun row r => forall key, ~ In key ["salesman"; "dealer"] ->
                                      r !! key = row !! key)
            (cold salesWorld) rs.
Proof.
  split; [left; reflexivity|].
  destruct (fst (queryArchiveSales salesWorld ∅ salesmanDealerOptions initSt))
    as [rs|e] eqn:E; [|vm_compute in E; discriminate].
  exists rs. split; [reflexivity|].
  pose proof (resolution_touches_requested_fields_only saleKind salesWorld ∅
                salesmanDealerOptions initSt rs (or_introl eq_refl) E) as H.
  split; [|exact H].
  apply Forall2_length in H. rewrite <- H. reflexivity.
Defined.

(** ** Sizes of the pages of a federated call *)

Lemma mongoSort_length (spec : SortSpec) (docs : list Doc) :
  length (mongoSort spec docs) = length docs.
Proof. unfold mongoSort. apply stableSort_length. Qed.

Lemma page_length_matched (q : Query) (spec : SortSpec) (sk lim : option nat)
    (docs : list Doc) :
  (length (page q spec sk lim docs) <= matchedCount q docs)%nat.
Proof.
  unfold page, matchedCount.
  rewrite <- (mongoSort_length spec (List.filter (matches q) docs)).
  generalize (mongoSort spec (List.filter (matches q) docs)). intros l.
  assert (Hs : (length (mongoSkip sk l) <= length l)%nat).
  { destruct sk as [n|]; simpl; [rewrite length_skipn|]; lia. }
  destruct lim as [[|n]|]; simpl; try lia.
  rewrite length_firstn. lia.
Qed.

Lemma page_length_limit (q : Query) (spec : SortSpec) (sk : option nat) (n : nat)
    (docs : list Doc) :
  (0 < n)%nat -> (length (page q spec sk (Some n) docs) <= n)%nat.
Proof.
  intros Hn. unfold page. destruct n as [|n]; [lia|].
  cbn [mongoLimit]. rewrite length_firstn. lia.
Qed.

Lemma hotPage_length (w : World) (q : Query) (o : Options) :
  length (hotPage w q o)
  = length (page q (sort o) (Some (skip o)) (Some (limit o)) (hot w)).
Proof. unfold hotPage. apply length_map. Qed.

(** The cold page of a federated call, whatever became of the block. *)
Lemma archive_page_length (k : KindOps) (w : World) (nowA nowP : Z)
    (q : Query) (o : Options) r s :
  knownKind k ->
  run (queryUnified k w nowA nowP q o) = (Returned r, s) ->
  l_archiveResults s = [] \/
  (selectsArchive k nowA q = true /\
   let o' := archiveOptions (selectsPrimary k nowP q) o (fromPrimary r) in
   fromArchive r
   = length (page q (sort o') (whenNonZero (skip o')) (whenNonZero (limit o')) (cold w))).
Proof.
  intros Hk Hrun.
  destruct (queryUnified_run k w nowA nowP q o Hk)
    as (lg & pr & ar & pc & ac & E & _ & _ & _ & HnA & HA).
  rewrite Hrun in E. injection E as -> ->. simpl.
  destruct (selectsArchive k nowA q) eqn:HqA; [|left; apply (HnA eq_refl)].
  destruct (HA eq_refl) as (oA & lA & Hw & Hcase).
  destruct oA as [rs|e]; [|left; apply Hcase].
  right. split; [reflexivity|]. cbv zeta.
  pose proof (archive_results_length k w q _ rs lA Hk Hw) as Hlen.
  destruct (fails w (OpCount Cold)); destruct Hcase as [-> _];
    rewrite ?length_map; exact Hlen.
Qed.

(** X10: with a positive limit a federated call never returns more than
    [limit] records, whichever tiers were queried and whatever failed; and
    the hot tier never contributes more than [limit]. *)
Theorem data_within_limit (k : KindOps) (w : World) (nowA nowP : Z)
    (q : Query) (o : Options) :
  knownKind k ->
  (0 < limit o)%nat ->
  exists r s,
    run (queryUnified k w nowA nowP q o) = (Returned r, s) /\
    (length (data r) <= limit o)%nat /\
    (fromPrimary r <= limit o)%nat.
Proof.
  intros Hk Hlim.
  destruct (queryUnified_run k w nowA nowP q o Hk)
    as (lg & pr & ar & pc & ac & E & Hpc & Hpr & Hx & HnA & HA).
  pose proof (archive_page_length k w nowA nowP q o _ _ Hk E) as Hcold.
  eexists _, _. split; [exact E|]. simpl in *.
  assert (Hprl : (length pr <= limit o)%nat).
  { subst pr. destruct (_ && _); [|simpl; lia].
    rewrite hotPage_length. apply page_length_limit, Hlim. }
  split; [|exact Hprl].
  destruct (selectsArchive k nowA q) eqn:HqA, (selectsPrimary k nowP q) eqn:HqP.
  - rewrite mergeResults_both, length_firstn. lia.
  - unfold mergeResults. simpl. simpl in Hpr. subst pr. simpl.
    destruct Hcold as [-> | [_ Hlen]]; [simpl; lia|].
    rewrite Hlen. cbn [archiveOptions limit archiveLimit].
    destruct (limit o) as [|n] eqn:El; [lia|]. cbn [whenNonZero].
    apply page_length_limit. lia.
  - unfold mergeResults. simpl. destruct (HnA eq_refl) as [-> _].
    rewrite app_nil_r. exact Hprl.
  - unfold mergeResults. simpl. destruct (HnA eq_refl) as [-> _].
    rewrite app_nil_r. exact Hprl.
Qed.

Lemma data_within_limit_witness :
  knownKind saleKind /\ (0 < limit pageOfOneOptions)%nat /\
  exists r s,
    run (queryUnifiedSales fullPageWorld now2025 now2025 approvedQuery pageOfOneOptions)
      = (Returned r, s) /\
    (length (data r) <= 1)%nat.
Proof.
  split; [left; reflexivity|]. split; [simpl; lia|].
  destruct (data_within_limit saleKind fullPageWorld now2025 now2025 approvedQuery
              pageOfOneOptions (or_introl eq_refl) ltac:(simpl; lia))
    as (r & s & E & Hd & _).
  exists r, s. split; [exact E | exact Hd].
Defined.

Lemma archive_page_after_short_hot_page (w : World) (q : Query) (o : Options) (f : nat) :
  (f < limit o)%nat ->
  let o' := archiveOptions true o f in
  page q (sort o') (whenNonZero (skip o')) (whenNonZero (limit o')) (cold w)
  = firstn (limit o - f) (mongoSort (sort o) (List.filter (matches q) (cold w))).
Proof.
  intros Hf. cbn [archiveOptions sort skip limit]. unfold archiveSkip, archiveLimit.
  cbn [andb]. destruct (Nat.ltb_spec f (limit o)); [|lia].
  replace (Z.to_nat (Z.max 0 (Z.of_nat (limit o) - Z.of_nat f))) with (limit o - f)%nat by lia.
  unfold page. cbn [whenNonZero mongoSkip].
  destruct (limit o - f)%nat as [|n] eqn:E; [lia|]. reflexivity.
Qed.

(** X11: when both tiers are queried and the hot page comes back short of
    the limit, the cold tier is asked for the missing records from its first
    match on (the caller's skip is not applied to it): with no tier error
    reported it contributes min(limit - fromPrimary, its matched count)
    records, nothing is cut by the merge, and the returned data is a
    rearrangement of the two pages. *)
Theorem short_hot_page_filled_from_cold (k : KindOps) (w : World) (nowA nowP : Z)
    (q : Query) (o : Options) :
  knownKind k ->
  exists r s,
    run (queryUnified k w nowA nowP q o) = (Returned r, s) /\
    (selectsPrimary k nowP q = true -> selectsArchive k nowA q = true ->
     (fromPrimary r < limit o)%nat -> noErrorLogged s ->
       archiveSkip true (limit o) (fromPrimary r) (skip o) = 0%nat /\
       fromArchive r = Nat.min (limit o - fromPrimary r) (matchedCount q (cold w)) /\
       (fromPrimary r + fromArchive r <= limit o)%nat /\
       Permutation (data r) (l_primaryResults s ++ l_archiveResults s)).
Proof.
  intros Hk.
  destruct (queryUnified_run k w nowA nowP q o Hk)
    as (lg & pr & ar & pc & ac & E & _ & _ & _ & _ & HA).
  eexists _, _. split; [exact E|]. simpl.
  intros HP HqA Hshort Hno. unfold noErrorLogged in Hno. simpl in Hno.
  destruct (HA HqA) as (oA & lA & Hw & Hcase). rewrite HP in Hw.
  destruct oA as [rs|e]; [|destruct Hcase as (_ & _ & Hin); exfalso; exact (Hno _ Hin)].
  destruct (fails w (OpCount Cold));
    [destruct Hcase as (_ & _ & Hin); exfalso; exact (Hno _ Hin)|].
  destruct Hcase as [-> _].
  assert (Hlen : length (map normalizeArchiveRecord rs)
                 = Nat.min (limit o - length pr) (matchedCount q (cold w))).
  { rewrite length_map, (archive_results_length k w q _ rs lA Hk Hw).
    rewrite (archive_page_after_short_hot_page w q o (length pr) Hshort).
    rewrite length_firstn, mongoSort_length. reflexivity. }
  split.
  { unfold archiveSkip. cbn [andb]. destruct (Nat.ltb_spec (length pr) (limit o)); [reflexivity|lia]. }
  split; [exact Hlen|]. split; [lia|].
  rewrite HP, HqA, mergeResults_both.
  rewrite firstn_all2.
  - unfold jsSort. apply stableSort_perm.
  - unfold jsSort. rewrite stableSort_length, length_app. lia.
Qed.

Lemma short_hot_page_filled_from_cold_witness :
  knownKind saleKind /\
  exists r s,
    run (queryUnifiedSales twoTierWorld now2025 now2025 approvedQuery defaultSaleOptions)
      = (Returned r, s) /\
    fromPrimary r = 1%nat /\ fromArchive r = 1%nat /\
    Permutation (data r) (l_primaryResults s ++ l_archiveResults s).
Proof.
  split; [left; reflexivity|].
  destruct (short_hot_page_filled_from_cold saleKind twoTierWorld now2025 now2025
              approvedQuery defaultSaleOptions (or_introl eq_refl))
    as (r & s & E & H).
  exists r, s. split; [exact E|].
  assert (Es : run (queryUnified saleKind twoTierWorld now2025 now2025 approvedQuery
                      defaultSaleOptions)
               = (Returned (mkResult [saleAt 1 t2024_06_01;
                                      normalizeArchiveRecord (archived (saleAt 2 t2022_06_01))]
                                     2 1 1 1 1),
                  mkSt [EvCount Hot; EvFind Hot (Some 0%nat) (Some 50%nat);
                        EvFind Cold None (Some 49%nat); EvCount Cold]
                       [saleAt 1 t2024_06_01]
                       [normalizeArchiveRecord (archived (saleAt 2 t2022_06_01))]
                       1 1))
    by (vm_compute; reflexivity).
  rewrite E in Es. injection Es as -> ->.
  split; [reflexivity|]. split; [reflexivity|].
  apply H; try reflexivity.
  - simpl. lia.
  - intros msg Hin. simpl in Hin. intuition discriminate.
Defined.

Lemma mergeResults_In (field : string) (qA qP : bool) (lim : nat) (pr ar : list Doc) d :
  In d (mergeResults field qA qP lim pr ar) -> In d pr \/ In d ar.
Proof.
  unfold mergeResults. intros H. apply in_app_or.
  destruct (_ && _); [|exact H].
  apply (stableSort_In (jsAfter (compareByDateDesc field))).
  destruct (_ <? _)%nat; [|exact H].
  unfold jsSort in H.
  rewrite <- (firstn_skipn lim (stableSort _ (pr ++ ar))). apply in_or_app. left. exact H.
Qed.

(** X12: a federated call returns only records it fetched: every record
    of the data is in the hot page or in the cold page.  The hot page is
    never longer than primaryCount; the cold page is not longer than
    archiveCount when no tier error was reported. *)
Theorem pages_within_counts (k : KindOps) (w : World) (nowA nowP : Z)
    (q : Query) (o : Options) :
  knownKind k ->
  exists r s,
    run (queryUnified k w nowA nowP q o) = (Returned r, s) /\
    (forall d, In d (data r) -> In d (l_primaryResults s) \/ In d (l_archiveResults s)) /\
    (fromPrimary r <= primaryCount r)%nat /\
    (noErrorLogged s -> (fromArchive r <= archiveCount r)%nat).
Proof.
  intros Hk.
  destruct (queryUnified_run k w nowA nowP q o Hk)
    as (lg & pr & ar & pc & ac & E & Hpc & Hpr & _ & HnA & HA).
  eexists _, _. split; [exact E|]. simpl.
  split; [intros d; apply mergeResults_In|]. split.
  - subst pc pr. destruct (selectsPrimary k nowP q), (fails w (OpCount Hot));
      simpl; try lia.
    destruct (fails w (OpFind Hot)); simpl; [lia|].
    rewrite hotPage_length. apply page_length_matched.
  - intros Hno. unfold noErrorLogged in Hno. simpl in Hno.
    destruct (selectsArchive k nowA q).
    + destruct (HA eq_refl) as (oA & lA & Hw & Hcase).
      destruct oA as [rs|e]; [|destruct Hcase as (-> & _); simpl; lia].
      destruct (fails w (OpCount Cold));
        [destruct Hcase as (_ & _ & Hin); exfalso; exact (Hno _ Hin)|].
      destruct Hcase as [-> ->].
      rewrite length_map, (archive_results_length k w q _ rs lA Hk Hw).
      apply page_length_matched.
    + destruct (HnA eq_refl) as [-> ->]. simpl. lia.
Qed.

Lemma pages_within_counts_witness :
  knownKind saleKind /\
  exists r s,
    run (queryUnifiedSales fullPageWorld now2025 now2025 approvedQuery pageOfOneOptions)
      = (Returned r, s) /\
    (fromPrimary r <= primaryCount r)%nat.
Proof.
  split; [left; reflexivity|].
  destruct (pages_within_counts saleKind fullPageWorld now2025 now2025 approvedQuery
              pageOfOneOptions (or_introl eq_refl))
    as (r & s & E & _ & Hp & _).
  exists r, s. split; [exact E | exact Hp].
Defined.

Lemma normalizeArchiveRecord_fixed (d : Doc) :
  normalizeArchiveRecord (normalizeArchiveRecord d) = normalizeArchiveRecord d.
Proof.
  unfold normalizeArchiveRecord.
  destruct (truthyField d "originalId") eqn:Ho;
    destruct (truthyField d "_originalId") eqn:Hu; simpl;
    rewrite ?Ho, ?Hu; simpl; try reflexivity.
  unfold truthyField in Ho. destruct (d !! "originalId") as [v|] eqn:Hv; [|discriminate].
  assert (Htr : truthyField (<["_originalId" := v]> d) "_originalId" = true).
  { unfold truthyField. rewrite lookup_insert_eq. exact Ho. }
  rewrite Htr, andb_false_r. reflexivity.
Qed.

Lemma normalized_exposes_originalId (d : Doc) :
  normalizeArchiveRecord d = d ->
  truthyField d "originalId" = true -> truthyField d "_originalId" = true.
Proof.
  unfold normalizeArchiveRecord. intros Hfix Ho. rewrite Ho in Hfix.
  destruct (truthyField d "_originalId") eqn:Hu; [reflexivity|]. simpl in Hfix.
  unfold truthyField in Ho, Hu.
  destruct (d !! "originalId") as [v|] eqn:Hv; [|discriminate].
  rewrite <- Hfix, lookup_insert_eq in Hu. congruence.
Qed.

(** X13: when no tier error was reported, every record the cold tier
    contributes to a federated call is normalized: normalizing it again
    changes nothing, and a record with a truthy [originalId] carries it as
    [_originalId] too. *)
Theorem archive_records_normalized (k : KindOps) (w : World) (nowA nowP : Z)
    (q : Query) (o : Options) :
  knownKind k ->
  exists r s,
    run (queryUnified k w nowA nowP q o) = (Returned r, s) /\
    (noErrorLogged s ->
     Forall (fun d => normalizeArchiveRecord d = d /\
                      (truthyField d "originalId" = true ->
                       truthyField d "_originalId" = true))
            (l_archiveResults s)).
Proof.
  intros Hk.
  destruct (queryUnified_run k w nowA nowP q o Hk)
    as (lg & pr & ar & pc & ac & E & _ & _ & _ & HnA & HA).
  eexists _, _. split; [exact E|]. simpl.
  intros Hno. unfold noErrorLogged in Hno. simpl in Hno.
  destruct (selectsArchive k nowA q); [|destruct (HnA eq_refl) as [-> _]; constructor].
  destruct (HA eq_refl) as (oA & lA & Hw & Hcase).
  destruct oA as [rs|e]; [|destruct Hcase as (-> & _); constructor].
  destruct (fails w (OpCount Cold));
    [destruct Hcase as (_ & _ & Hin); exfalso; exact (Hno _ Hin)|].
  destruct Hcase as [-> _].
  apply List.Forall_forall. intros d Hd. apply in_map_iff in Hd as (d0 & <- & _).
  split; [apply normalizeArchiveRecord_fixed|].
  apply normalized_exposes_originalId, normalizeArchiveRecord_fixed.
Qed.

Lemma archive_records_normalized_witness :
  knownKind saleKind /\
  exists r s,
    run (queryUnifiedSales twoTierWorld now2025 now2025 approvedQuery defaultSaleOptions)
      = (Returned r, s).
Proof.
  split; [left; reflexivity|].
  destruct (archive_records_normalized saleKind twoTierWorld now2025 now2025
              approvedQuery defaultSaleOptions (or_introl eq_refl))
    as (r & s & E & _).
  exists r, s. exact E.
Defined.

(** ** The round trips of a federated call *)

(** The events of an archive query: the find on the cold store, then
    reference lookups only. *)
Lemma archive_query_events (k : KindOps) (w : World) (q : Query) (o : Options) out l :
  knownKind k ->
  writes (kindQueryArchive k w q o) out l ->
  exists l', l = EvFind Cold (whenNonZero (skip o)) (whenNonZero (limit o)) :: l' /\
             forallb isRefLookup l' = true.
Proof.
  intros Hk Hw. destruct Hk as [-> | [-> | ->]]; simpl in Hw.
  - destruct (queryArchiveSales_log w q o) as (out' & lu & lp & ls & Hw' & Hu & Hp & Hs).
    destruct (writes_fun _ _ _ _ _ Hw Hw') as [_ ->].
    eexists. split; [reflexivity|].
    destruct Hu as [-> | [nu ->]], Hp as [-> | [np ->]], Hs as [-> | [ns ->]]; reflexivity.
  - destruct (emits_row_by_row w q o 2 populatePayment (emits_populatePayment w))
      as (out' & l' & Hw' & _ & HP).
    destruct (writes_fun _ _ _ _ _ Hw Hw') as [_ ->].
    exists l'. split; [reflexivity|].
    rewrite forallb_forall in *. intros e He. specialize (HP e He).
    destruct e; try discriminate; reflexivity.
  - destruct (emits_row_by_row w q o 1 populateDealerRequest (emits_populateDealerRequest w))
      as (out' & l' & Hw' & _ & HP).
    destruct (writes_fun _ _ _ _ _ Hw Hw') as [_ ->].
    exists l'. split; [reflexivity|].
    rewrite forallb_forall in *. intros e He. specialize (HP e He).
    destruct e; try discriminate; reflexivity.
Qed.

(** The log of a federated call: what the hot block wrote, then what the
    cold block wrote. *)
Lemma queryUnified_log (k : KindOps) (w : World) (nowA nowP : Z)
    (q : Query) (o : Options) :
  knownKind k ->
  exists r s lH lC,
    run (queryUnified k w nowA nowP q o) = (Returned r, s) /\
    log s = lH ++ lC /\
    (if selectsPrimary k nowP q
     then lH = [EvCount Hot; primaryError k] \/
          lH = [EvCount Hot; EvFind Hot (Some (skip o)) (Some (limit o)); primaryError k] \/
          lH = [EvCount Hot; EvFind Hot (Some (skip o)) (Some (limit o))]
     else lH = []) /\
    (if selectsArchive k nowA q
     then exists sk lm lR,
            forallb isRefLookup lR = true /\
            (lC = EvFind Cold sk lm :: lR ++ [archiveError k] \/
             lC = EvFind Cold sk lm :: lR ++ [EvCount Cold; archiveError k] \/
             lC = EvFind Cold sk lm :: lR ++ [EvCount Cold])
     else lC = []).
Proof.
  intros Hk.
  pose proof (knownKind_count k Hk) as Hc.
  pose proof (knownKind_logsOnly k Hk) as Hl.
  unfold run, queryUnified. fold (selectsArchive k nowA q) (selectsPrimary k nowP q).
  unfold mbind at 1, M_bind at 1.
  assert (H1 : exists s1,
             (if selectsPrimary k nowP q then queryPrimaryBlock k w q o else mret ()) initSt
             = (Returned (), s1) /\
             (if selectsPrimary k nowP q
              then log s1 = [EvCount Hot; primaryError k] \/
                   log s1 = [EvCount Hot; EvFind Hot (Some (skip o)) (Some (limit o));
                             primaryError k] \/
                   log s1 = [EvCount Hot; EvFind Hot (Some (skip o)) (Some (limit o))]
              else log s1 = [])).
  { destruct (selectsPrimary k nowP q).
    - rewrite primaryBlock_run.
      destruct (fails w (OpCount Hot)), (fails w (OpFind Hot));
        eexists; (split; [reflexivity|]); simpl; auto.
    - exists initSt. split; reflexivity. }
  destruct H1 as (s1 & E1 & HlH). rewrite E1.
  unfold mbind at 1, M_bind at 1.
  destruct (selectsArchive k nowA q).
  - destruct (Hl w q (archiveOptions (selectsPrimary k nowP q) o (length (l_primaryResults s1))))
      as (oA & lA & HA).
    rewrite (archiveBlock_run k w _ q o s1 oA lA HA Hc).
    destruct (archive_query_events k w q _ oA lA Hk HA) as (lR & -> & HR).
    unfold mbind, M_bind, getSt, mret, M_ret.
    destruct oA as [rs|e]; [destruct (fails w (OpCount Cold))|];
      eexists _, _, (log s1), _; (split; [reflexivity|]); simpl;
      (split; [reflexivity|]); (split; [exact HlH|]);
      eexists _, _, lR; (split; [exact HR|]); auto.
  - unfold mbind, M_bind, getSt, mret, M_ret. simpl.
    eexists _, _, (log s1), []. split; [reflexivity|].
    rewrite app_nil_r. auto.
Qed.

(** X14: a federated call issues at most two queries on the main model
    of the record kind (one [countDocuments], one [find]) and at most two on
    its archive model; the reference lookups, which go to other collections
    of the main database, are not counted among them.  A tier that is not
    selected is not queried at all and contributes nothing: without the cold
    tier there is no query on the archive model and no reference lookup by
    the engine, without the hot tier no query on the main model. *)
Theorem unselected_tier_untouched (k : KindOps) (w : World) (nowA nowP : Z)
    (q : Query) (o : Options) :
  knownKind k ->
  exists r s,
    run (queryUnified k w nowA nowP q o) = (Returned r, s) /\
    (length (List.filter isMainModelQuery (log s)) <= 2)%nat /\
    (length (List.filter isArchiveModelQuery (log s)) <= 2)%nat /\
    (selectsArchive k nowA q = false ->
       List.filter isArchiveModelQuery (log s) = [] /\ List.filter isRefLookup (log s) = [] /\
       fromArchive r = 0%nat /\ archiveCount r = 0%nat) /\
    (selectsPrimary k nowP q = false ->
       List.filter isMainModelQuery (log s) = [] /\
       fromPrimary r = 0%nat /\ primaryCount r = 0%nat).
Proof.
  intros Hk.
  destruct (queryUnified_log k w nowA nowP q o Hk)
    as (r & s & lH & lC & E & Hlog & HH & HC).
  destruct (queryUnified_run k w nowA nowP q o Hk)
    as (lg & pr & ar & pc & ac & E' & Hpc & Hpr & _ & HnA & _).
  rewrite E in E'. injection E' as -> ->. simpl in Hlog. subst lg.
  eexists _, _. split; [exact E|]. simpl.
  assert (HlH : List.filter isArchiveModelQuery lH = [] /\ List.filter isRefLookup lH = [] /\
                (length (List.filter isMainModelQuery lH) <= 2)%nat /\
                (selectsPrimary k nowP q = false -> lH = [])).
  { destruct (selectsPrimary k nowP q).
    - destruct HH as [-> | [-> | ->]]; simpl; repeat split; auto; discriminate.
    - subst lH. simpl. repeat split; auto. }
  assert (HlC : List.filter isMainModelQuery lC = [] /\
                (length (List.filter isArchiveModelQuery lC) <= 2)%nat /\
                (selectsArchive k nowA q = false -> lC = [])).
  { destruct (selectsArchive k nowA q).
    - destruct HC as (sk & lm & lR & HR & HC).
      assert (HRh : List.filter isMainModelQuery lR = [] /\ List.filter isArchiveModelQuery lR = []).
      { clear -HR. induction lR as [|e lR IH]; [auto|].
        simpl in HR. apply andb_true_iff in HR as [He HR].
        destruct (IH HR) as [IH1 IH2].
        destruct e; try discriminate; simpl; auto. }
      destruct HRh as [HRh HRc].
      destruct HC as [-> | [-> | ->]]; simpl; rewrite !List.filter_app, HRh, HRc; simpl;
        repeat split; auto; discriminate.
    - subst lC. simpl. repeat split; auto. }
  destruct HlH as (HHc & HHr & HHh & HHn). destruct HlC as (HCh & HCc & HCn).
  rewrite !List.filter_app, !length_app, HHc, HCh. simpl. rewrite app_nil_r.
  split; [lia|]. split; [lia|]. split.
  - intros HqA. rewrite (HCn HqA). simpl. rewrite HHr.
    destruct (HnA HqA) as [-> ->]. auto.
  - intros HqP. rewrite (HHn HqP). rewrite HqP in Hpc, Hpr. simpl in Hpc, Hpr.
    subst. auto.
Qed.

Lemma unselected_tier_untouched_witness :
  knownKind saleKind /\
  selectsArchive saleKind now2025 recentQuery = false /\
  exists r s,
    run (queryUnifiedSales twoTierWorld now2025 now2025 recentQuery defaultSaleOptions)
      = (Returned r, s) /\
    List.filter isArchiveModelQuery (log s) = [] /\ fromArchive r = 0%nat.
Proof.
  split; [left; reflexivity|]. split; [reflexivity|].
  destruct (unselected_tier_untouched saleKind twoTierWorld now2025 now2025 recentQuery
              defaultSaleOptions (or_introl eq_refl))
    as (r & s & E & _ & _ & HA & _).
  exists r, s. split; [exact E|].
  destruct (HA eq_refl) as (H1 & _ & H2 & _). auto.
Defined.

(** ** Edge of the page size: a limit of zero *)

(** X15: with [limit = 0] both stores read the limit as no limit, so each
    queried tier fetches every match past [skip]; yet when both tiers are
    queried the merge cuts the list to zero records.  With no tier error
    reported the data is empty while fromPrimary and fromArchive count every
    match past [skip]. *)
Theorem zero_limit_fetches_all_returns_none (k : KindOps) (w : World) (nowA nowP : Z)
    (q : Query) (o : Options) :
  knownKind k ->
  limit o = 0%nat ->
  exists r s,
    run (queryUnified k w nowA nowP q o) = (Returned r, s) /\
    (selectsPrimary k nowP q = true -> selectsArchive k nowA q = true ->
       data r = [] /\
       (noErrorLogged s ->
          fromPrimary r = (matchedCount q (hot w) - skip o)%nat /\
          fromArchive r = (matchedCount q (cold w) - skip o)%nat)).
Proof.
  intros Hk Hlim.
  destruct (queryUnified_run k w nowA nowP q o Hk)
    as (lg & pr & ar & pc & ac & E & _ & Hpr & Herr & _ & HA).
  eexists _, _. split; [exact E|]. simpl.
  intros HP HqA. rewrite HP, HqA, mergeResults_both, Hlim. split; [reflexivity|].
  intros Hno. unfold noErrorLogged in Hno. simpl in Hno.
  rewrite HP in Hpr. specialize (Herr HP).
  destruct (fails w (OpCount Hot)); [exfalso; exact (Hno _ (Herr eq_refl))|].
  destruct (fails w (OpFind Hot)); [exfalso; exact (Hno _ (Herr eq_refl))|].
  simpl in Hpr.
  assert (Hprl : length pr = (matchedCount q (hot w) - skip o)%nat).
  { subst pr. rewrite hotPage_length, Hlim. unfold page. cbn [mongoLimit mongoSkip].
    rewrite length_skipn, mongoSort_length. reflexivity. }
  split; [exact Hprl|].
  destruct (HA HqA) as (oA & lA & Hw & Hcase). rewrite HP in Hw.
  destruct oA as [rs|e]; [|destruct Hcase as (_ & _ & Hin); exfalso; exact (Hno _ Hin)].
  destruct (fails w (OpCount Cold));
    [destruct Hcase as (_ & _ & Hin); exfalso; exact (Hno _ Hin)|].
  destruct Hcase as [-> _].
  rewrite length_map, (archive_results_length k w q _ rs lA Hk Hw).
  cbn [archiveOptions sort skip limit]. unfold archiveSkip, archiveLimit.
  rewrite Hlim. cbn [andb].
  replace (length pr <? 0)%nat with false by (symmetry; apply Nat.ltb_ge; lia).
  replace (Z.to_nat (Z.max 0 (Z.of_nat 0 - Z.of_nat (length pr)))) with 0%nat by lia.
  unfold page. cbn [whenNonZero mongoLimit].
  destruct (skip o) as [|n]; cbn [whenNonZero mongoSkip];
    rewrite ?length_skipn, mongoSort_length; unfold matchedCount; lia.
Qed.

Lemma zero_limit_fetches_all_returns_none_witness :
  knownKind saleKind /\ limit zeroLimitOptions = 0%nat /\
  exists r s,
    run (queryUnifiedSales twoTierWorld now2025 now2025 approvedQuery zeroLimitOptions)
      = (Returned r, s) /\
    data r = [].
Proof.
  split; [left; reflexivity|]. split; [reflexivity|].
  destruct (zero_limit_fetches_all_returns_none saleKind twoTierWorld now2025 now2025
              approvedQuery zeroLimitOptions (or_introl eq_refl) eq_refl)
    as (r & s & E & H).
  exists r, s. split; [exact E|]. apply H; reflexivity.
Defined.

(** ** The test script's date ranges *)

Lemma setDate_back (t n : Z) :
  JSDateDay.setDate t (JSDateDay.getDate t - n) = t - n * JSDate.msPerDay.
Proof.
  unfold JSDateDay.setDate, JSDateDay.getDate.
  pose proof (civil_roundtrip (t / JSDate.msPerDay)) as Hrt.
  destruct (JSDate.civilFromDays (t / JSDate.msPerDay)) as [[y m] d].
  destruct Hrt as [Hday _]. unfold JSDate.msPerDay in *.
  pose proof (Z.div_mod t 86400000 ltac:(lia)) as Ht.
  set (a := JSDate.daysFromCivil y m 1) in *. nia.
Qed.

(** X16: the ranges the test script builds, when the script's clock
    readings fall within one day: the last 30 days (test 1) and "one year ago
    to now" (test 3, announced as spanning both databases) both select the hot
    tier only, since one year ago is after the two-year threshold; the filter
    without a date (test 4) selects both tiers. *)
Theorem test_script_routing (now0 now1 nowA nowP : Z) :
  now0 <= now1 ->
  nowA < now0 + JSDate.msPerDay ->
  nowP < now0 + JSDate.msPerDay ->
  (selectsPrimary saleKind nowP (testRecentQuery now0 now1) = true /\
   selectsArchive saleKind nowA (testRecentQuery now0 now1) = false) /\
  (selectsPrimary saleKind nowP (testSpanQuery now0 now1) = true /\
   selectsArchive saleKind nowA (testSpanQuery now0 now1) = false) /\
  (selectsPrimary saleKind nowP testNoDateQuery = true /\
   selectsArchive saleKind nowA testNoDateQuery = true).
Proof.
  intros H01 HA HP.
  assert (HTA : getArchiveThresholdDate nowA <= nowA - 730 * JSDate.msPerDay).
  { unfold getArchiveThresholdDate, ARCHIVE_THRESHOLD_YEARS.
    pose proof (setFullYear_back nowA 2 ltac:(lia)) as [H _]. cbv zeta in H. lia. }
  assert (HTP : getArchiveThresholdDate nowP <= nowP - 730 * JSDate.msPerDay).
  { unfold getArchiveThresholdDate, ARCHIVE_THRESHOLD_YEARS.
    pose proof (setFullYear_back nowP 2 ltac:(lia)) as [H _]. cbv zeta in H. lia. }
  assert (Hspan : now0 - 366 * JSDate.msPerDay
                  <= JSDate.setFullYear now0 (JSDate.getFullYear now0 - 1)).
  { pose proof (setFullYear_back now0 1 ltac:(lia)) as [H _]. cbv zeta in H. lia. }
  assert (Hsel : forall start,
            now0 - 366 * JSDate.msPerDay <= start ->
            shouldQueryPrimary nowP (Some (DateAt start)) (Some (DateAt now1)) = true /\
            shouldQueryArchive nowA (Some (DateAt start)) (Some (DateAt now1)) = false).
  { intros start Hstart. unfold shouldQueryPrimary, shouldQueryArchive. simpl.
    unfold JSDate.msPerDay in *.
    destruct (Z.geb_spec start (getArchiveThresholdDate nowP)); [|lia].
    destruct (Z.ltb_spec now1 (getArchiveThresholdDate nowA)); [lia|].
    destruct (Z.ltb_spec start (getArchiveThresholdDate nowA)); [lia|].
    auto. }
  unfold selectsPrimary, selectsArchive, saleKind, kindDateRange.
  split; [|split].
  - unfold testRecentQuery, extractDateRange.
    rewrite lookup_insert_ne by discriminate. rewrite lookup_insert_eq. simpl.
    apply Hsel. rewrite setDate_back. unfold JSDate.msPerDay. lia.
  - unfold testSpanQuery, extractDateRange.
    rewrite lookup_insert_ne by discriminate. rewrite lookup_insert_eq. simpl.
    apply Hsel, Hspan.
  - split; reflexivity.
Qed.

Lemma test_script_routing_witness :
  now2025 <= now2025 + 5 /\
  now2025 + 10 < now2025 + JSDate.msPerDay /\
  selectsArchive saleKind (now2025 + 10) (testSpanQuery now2025 (now2025 + 5)) = false.
Proof.
  assert (H1 : now2025 <= now2025 + 5) by (unfold now2025; lia).
  assert (H2 : now2025 + 10 < now2025 + JSDate.msPerDay)
    by (unfold now2025, JSDate.msPerDay; lia).
  split; [exact H1|]. split; [exact H2|].
  exact (proj2 (proj1 (proj2 (test_script_routing now2025 (now2025 + 5) (now2025 + 10)
                                (now2025 + 10) H1 H2 H2)))).
Defined.

Lemma civil_day_range (z : Z) :
  let '(_, _, d) := JSDate.civilFromDays z in 1 <= d <= 31.
Proof.
  unfold JSDate.civilFromDays. cbv zeta. Z.div_mod_to_equations; lia.
Qed.

Lemma year_start_le (z : Z) :
  let '(y, _, _) := JSDate.civilFromDays z in JSDate.daysFromCivil y 1 1 <= z.
Proof.
  unfold JSDate.civilFromDays, JSDate.daysFromCivil. cbv zeta.
  change (1 <=? 2) with true. cbv iota.
  match goal with |- context [Z.ltb ?a 10] => destruct (Z.ltb_spec a 10) end;
    match goal with |- context [Z.leb ?a 2] => destruct (Z.leb_spec a 2) end;
    Z.div_mod_to_equations; lia.
Qed.

Lemma year_start_mono (y1 y2 : Z) :
  y1 <= y2 -> JSDate.daysFromCivil y1 1 1 <= JSDate.daysFromCivil y2 1 1.
Proof.
  intros H. replace y2 with (y1 + (y2 - y1)) by lia.
  assert (Hk : 0 <= y2 - y1) by lia. revert Hk.
  generalize (y2 - y1). apply natlike_ind.
  - rewrite Z.add_0_r. lia.
  - intros k Hk IH.
    pose proof (year_shift (y1 + Z.succ k) 1 1 ltac:(lia) ltac:(lia)) as Hs.
    replace (y1 + Z.succ k - 1) with (y1 + k) in Hs by lia. lia.
Qed.

Lemma month_start_ge (y m : Z) :
  1 <= m <= 12 -> JSDate.daysFromCivil y 1 1 <= JSDate.daysFromCivil y m 1.
Proof.
  intros H. unfold JSDate.daysFromCivil. change (1 <=? 2) with true. cbv iota zeta.
  destruct (Z.leb_spec m 2); Z.div_mod_to_equations; lia.
Qed.

(** A day of month up to 31, rolled over or not, stays within the year. *)
Lemma rolled_day_in_year (y m d : Z) :
  1 <= m <= 12 -> 1 <= d <= 31 ->
  JSDate.daysFromCivil y m 1 + d - 1 < JSDate.daysFromCivil (y + 1) 1 1.
Proof.
  intros Hm Hd. unfold JSDate.daysFromCivil. change (1 <=? 2) with true. cbv iota zeta.
  destruct (Z.leb_spec m 2); Z.div_mod_to_equations; lia.
Qed.

(** The year of a day number that precedes the first day of year [y + 1]
    is at most [y]. *)
Lemma year_le (z y : Z) :
  z < JSDate.daysFromCivil (y + 1) 1 1 ->
  let '(y', _, _) := JSDate.civilFromDays z in y' <= y.
Proof.
  intros Hz. pose proof (year_start_le z) as Hle.
  destruct (JSDate.civilFromDays z) as [[y' m'] d'].
  destruct (Z_le_gt_dec y' y) as [|Hgt]; [assumption|].
  pose proof (year_start_mono (y + 1) y' ltac:(lia)). lia.
Qed.

Lemma day_of_made_time (z r : Z) :
  0 <= r < JSDate.msPerDay -> (z * JSDate.msPerDay + r) / JSDate.msPerDay = z.
Proof.
  intros Hr. unfold JSDate.msPerDay in *.
  rewrite Z.add_comm, Z.div_add by lia. rewrite Z.div_small by lia. lia.
Qed.

Lemma time_of_day_range (t : Z) : 0 <= t mod JSDate.msPerDay < JSDate.msPerDay.
Proof. apply Z.mod_pos_bound. reflexivity. Qed.

(** A time made from a year, a month and a day of month up to 31 falls
    in that year or before. *)
Lemma made_time_year_le (y m d r : Z) :
  1 <= m <= 12 -> 1 <= d <= 31 -> 0 <= r < JSDate.msPerDay ->
  JSDate.getFullYear ((JSDate.daysFromCivil y m 1 + d - 1) * JSDate.msPerDay + r) <= y.
Proof.
  intros Hm Hd Hr. unfold JSDate.getFullYear. rewrite day_of_made_time by assumption.
  pose proof (year_le _ y (rolled_day_in_year y m d Hm Hd)) as H.
  destruct (JSDate.civilFromDays _) as [[y' m'] d']. exact H.
Qed.

Lemma setFullYear_year_le (t y : Z) :
  JSDate.getFullYear (JSDate.setFullYear t y) <= y.
Proof.
  unfold JSDate.setFullYear.
  pose proof (civil_roundtrip (t / JSDate.msPerDay)) as Hrt.
  pose proof (civil_day_range (t / JSDate.msPerDay)) as Hd.
  destruct (JSDate.civilFromDays (t / JSDate.msPerDay)) as [[y0 m] d].
  apply made_time_year_le; [tauto | assumption | apply time_of_day_range].
Qed.

Lemma setMonth_year_le (t month : Z) :
  0 <= month <= 11 ->
  JSDate.getFullYear (JSDateDay.setMonth t month) <= JSDate.getFullYear t.
Proof.
  intros Hmonth. unfold JSDateDay.setMonth, JSDate.getFullYear at 2.
  pose proof (civil_day_range (t / JSDate.msPerDay)) as Hd.
  destruct (JSDate.civilFromDays (t / JSDate.msPerDay)) as [[y m] d].
  rewrite (Z.div_small month 12), (Z.mod_small month 12), Z.add_0_r by lia.
  apply made_time_year_le; [lia | assumption | apply time_of_day_range].
Qed.

Lemma setDate_year_le (t day : Z) :
  1 <= day <= 31 ->
  JSDate.getFullYear (JSDateDay.setDate t day) <= JSDate.getFullYear t.
Proof.
  intros Hday. unfold JSDateDay.setDate, JSDate.getFullYear at 2.
  pose proof (civil_roundtrip (t / JSDate.msPerDay)) as Hrt.
  destruct (JSDate.civilFromDays (t / JSDate.msPerDay)) as [[y m] d].
  apply made_time_year_le; [tauto | assumption | apply time_of_day_range].
Qed.

(** A time precedes the first day of the year after its own. *)
Lemma time_before_next_year (t : Z) :
  t < JSDate.daysFromCivil (JSDate.getFullYear t + 1) 1 1 * JSDate.msPerDay.
Proof.
  unfold JSDate.getFullYear.
  pose proof (civil_roundtrip (t / JSDate.msPerDay)) as Hrt.
  pose proof (civil_day_range (t / JSDate.msPerDay)) as Hd.
  destruct (JSDate.civilFromDays (t / JSDate.msPerDay)) as [[y m] d].
  destruct Hrt as [Hz Hm].
  pose proof (rolled_day_in_year y m d Hm Hd) as Hroll.
  pose proof (time_of_day_range t) as Hr.
  unfold JSDate.msPerDay in *.
  pose proof (Z.div_mod t 86400000 ltac:(lia)) as Ht.
  set (a := JSDate.daysFromCivil y m 1) in *.
  set (b := JSDate.daysFromCivil (y + 1) 1 1) in *. nia.
Qed.

Lemma year_start_le_time (t : Z) :
  JSDate.daysFromCivil (JSDate.getFullYear t) 1 1 * JSDate.msPerDay <= t.
Proof.
  unfold JSDate.getFullYear.
  pose proof (year_start_le (t / JSDate.msPerDay)) as Hle.
  destruct (JSDate.civilFromDays (t / JSDate.msPerDay)) as [[y m] d].
  pose proof (time_of_day_range t) as Hr.
  unfold JSDate.msPerDay in *.
  pose proof (Z.div_mod t 86400000 ltac:(lia)) as Ht.
  set (a := JSDate.daysFromCivil y 1 1) in *. nia.
Qed.

Lemma getFullYear_mono (t1 t2 : Z) :
  t1 <= t2 -> JSDate.getFullYear t1 <= JSDate.getFullYear t2.
Proof.
  intros H.
  destruct (Z_le_gt_dec (JSDate.getFullYear t1) (JSDate.getFullYear t2)) as [|Hgt];
    [assumption|].
  pose proof (year_start_le_time t1) as H1.
  pose proof (time_before_next_year t2) as H2.
  pose proof (year_start_mono (JSDate.getFullYear t2 + 1) (JSDate.getFullYear t1)
                ltac:(lia)) as Hm.
  unfold JSDate.msPerDay in *. nia.
Qed.

(** The threshold does not precede the first day of the year two years
    before the clock reading's. *)
Lemma threshold_ge_year_start (now : Z) :
  JSDate.daysFromCivil (JSDate.getFullYear now - 2) 1 1 * JSDate.msPerDay
  <= getArchiveThresholdDate now.
Proof.
  unfold getArchiveThresholdDate, ARCHIVE_THRESHOLD_YEARS, JSDate.setFullYear.
  generalize (JSDate.getFullYear now - 2). intros y.
  pose proof (civil_roundtrip (now / JSDate.msPerDay)) as Hrt.
  pose proof (civil_day_range (now / JSDate.msPerDay)) as Hd.
  destruct (JSDate.civilFromDays (now / JSDate.msPerDay)) as [[y0 m] d].
  destruct Hrt as [_ Hm].
  pose proof (month_start_ge y m Hm) as Hge.
  pose proof (time_of_day_range now) as Hr.
  unfold JSDate.msPerDay in *.
  set (a := JSDate.daysFromCivil y m 1) in *.
  set (b := JSDate.daysFromCivil y 1 1) in *. nia.
Qed.

(** A time whose year is at least three years before the clock reading's
    precedes the threshold. *)
Lemma three_years_back_before_threshold (t now : Z) :
  JSDate.getFullYear t <= JSDate.getFullYear now - 3 ->
  t < getArchiveThresholdDate now.
Proof.
  intros Hy.
  pose proof (time_before_next_year t) as H1.
  pose proof (threshold_ge_year_start now) as H2.
  pose proof (year_start_mono (JSDate.getFullYear t + 1) (JSDate.getFullYear now - 2)
                ltac:(lia)) as Hm.
  unfold JSDate.msPerDay in *. nia.
Qed.

Lemma testOldStart_year (now0 : Z) :
  JSDate.getFullYear (testOldStart now0) <= JSDate.getFullYear now0 - 3.
Proof.
  unfold testOldStart.
  etransitivity; [apply setDate_year_le; lia|].
  etransitivity; [apply setMonth_year_le; lia|].
  apply setFullYear_year_le.
Qed.

Lemma testOldEnd_year (now0 : Z) :
  JSDate.getFullYear (testOldEnd now0) <= JSDate.getFullYear now0 - 3.
Proof.
  unfold testOldEnd.
  etransitivity; [apply setDate_year_le; lia|].
  etransitivity; [apply setMonth_year_le; lia|].
  apply testOldStart_year.
Qed.

(** X17: the range of the test script's second test (the calendar year
    three years before the clock reading) lies wholly before the threshold of
    any later clock reading, so the federated sales query selects the cold
    tier only. *)
Theorem test_script_old_range_cold_only (now0 nowA nowP : Z) :
  now0 <= nowA -> now0 <= nowP ->
  selectsArchive saleKind nowA (testOldQuery now0) = true /\
  selectsPrimary saleKind nowP (testOldQuery now0) = false.
Proof.
  intros HA HP.
  assert (Hbefore : forall t now,
            now0 <= now -> JSDate.getFullYear t <= JSDate.getFullYear now0 - 3 ->
            t < getArchiveThresholdDate now).
  { intros t now Hnow Ht. apply three_years_back_before_threshold.
    pose proof (getFullYear_mono now0 now Hnow). lia. }
  pose proof (Hbefore _ nowA HA (testOldEnd_year now0)) as HeA.
  pose proof (Hbefore _ nowP HP (testOldEnd_year now0)) as HeP.
  pose proof (Hbefore _ nowP HP (testOldStart_year now0)) as HsP.
  unfold selectsPrimary, selectsArchive, saleKind, kindDateRange.
  unfold testOldQuery, extractDateRange.
  rewrite lookup_insert_ne by discriminate. rewrite lookup_insert_eq. simpl.
  revert HeA HeP HsP.
  unfold shouldQueryPrimary, shouldQueryArchive.
  generalize (testOldStart now0) (testOldEnd now0)
             (getArchiveThresholdDate nowA) (getArchiveThresholdDate nowP).
  intros s e TA TP HeA HeP HsP. simpl.
  destruct (Z.ltb_spec e TA); [|lia].
  destruct (Z.geb_spec s TP); [lia|].
  destruct (Z.geb_spec e TP); [lia|].
  split; reflexivity.
Qed.

Lemma test_script_old_range_cold_only_witness :
  now2025 <= now2025 + 10 /\
  selectsArchive saleKind (now2025 + 10) (testOldQuery now2025) = true.
Proof.
  assert (H : now2025 <= now2025 + 10) by (unfold now2025; lia).
  split; [exact H|].
  exact (proj1 (test_script_old_range_cold_only now2025 (now2025 + 10) (now2025 + 10) H H)).
Defined.

(** ** Failures, single-tier calls and the select of a sale reference *)

Lemma mergeResults_nil (f : string) (qA qP : bool) (lim : nat) :
  mergeResults f qA qP lim [] [] = [].
Proof. unfold mergeResults. simpl. rewrite andb_false_r. reflexivity. Qed.

(** X18: no failure of a store reaches the caller.  Whatever round trips
    fail, a federated call returns a result.  A selected hot tier whose count
    or find fails is reported on the console and contributes no record; a
    selected cold tier whose find fails is reported and contributes neither
    record nor count; and when the hot count and the cold find both fail the
    caller receives an empty page with total 0, as for an empty store. *)
Theorem tier_failure_logged_not_raised (k : KindOps) (w : World) (nowA nowP : Z)
    (q : Query) (o : Options) :
  knownKind k ->
  exists r s,
    run (queryUnified k w nowA nowP q o) = (Returned r, s) /\
    (selectsPrimary k nowP q = true ->
     fails w (OpCount Hot) || fails w (OpFind Hot) = true ->
     In (primaryError k) (log s) /\ fromPrimary r = 0%nat) /\
    (selectsArchive k nowA q = true -> fails w (OpFind Cold) = true ->
     In (archiveError k) (log s) /\ fromArchive r = 0%nat /\ archiveCount r = 0%nat) /\
    (fails w (OpCount Hot) = true -> fails w (OpFind Cold) = true ->
     data r = [] /\ total r = 0%nat).
Proof.
  intros Hk.
  destruct (queryUnified_run k w nowA nowP q o Hk)
    as (lg & pr & ar & pc & ac & E & Hpc & Hpr & Herr & HnA & HA).
  eexists _, _. split; [exact E|]. simpl.
  assert (Hcold : fails w (OpFind Cold) = true ->
                  ar = [] /\ ac = 0%nat /\
                  (selectsArchive k nowA q = true -> In (archiveError k) lg)).
  { intros Hf. destruct (selectsArchive k nowA q) eqn:HqA.
    - destruct (HA eq_refl) as (oA & lA & Hw & Hcase).
      destruct (archive_find_failure_throws k w q _ oA lA Hk Hf Hw) as [e ->].
      destruct Hcase as (Ha & Hc & Hin). auto.
    - destruct (HnA eq_refl) as [Ha Hc]. repeat split; auto. discriminate. }
  split; [|split].
  - intros HqP Hf. split; [apply Herr; assumption|].
    rewrite HqP in Hpr. simpl in Hpr.
    apply orb_true_iff in Hf as [Hf | Hf]; rewrite Hf in Hpr; simpl in Hpr;
      [|rewrite andb_false_r in Hpr]; subst pr; reflexivity.
  - intros HqA Hf. destruct (Hcold Hf) as (-> & -> & Hin). auto.
  - intros HfH HfC. destruct (Hcold HfC) as (-> & -> & _).
    rewrite HfH, andb_false_r in Hpc, Hpr. simpl in Hpr. subst pc pr.
    split; [apply mergeResults_nil | reflexivity].
Qed.

Lemma tier_failure_logged_not_raised_witness :
  knownKind saleKind /\
  exists r s,
    run (queryUnifiedSales outageWorld now2025 now2025 approvedQuery defaultSaleOptions)
      = (Returned r, s) /\
    data r = [] /\ total r = 0%nat.
Proof.
  split; [left; reflexivity|].
  destruct (tier_failure_logged_not_raised saleKind outageWorld now2025 now2025
              approvedQuery defaultSaleOptions (or_introl eq_refl))
    as (r & s & E & _ & _ & H).
  exists r, s. split; [exact E|]. apply H; reflexivity.
Defined.

Lemma archiveOptions_unselected_primary (o : Options) (n : nat) :
  archiveOptions false o n = o.
Proof. destruct o. reflexivity. Qed.

(** X19: a call that selects one tier only is the plain paginated query
    of that tier.  With the hot tier alone and no failure, the page is the
    hot store's page for the caller's sort, skip and limit and the total is
    the hot store's match count.  With the cold tier alone, the archive query
    receives the caller's options unchanged, and the page is its result,
    normalized, with the cold store's match count as total. *)
Theorem single_tier_is_plain_query (k : KindOps) (w : World) (nowA nowP : Z)
    (q : Query) (o : Options) :
  knownKind k ->
  exists r s,
    run (queryUnified k w nowA nowP q o) = (Returned r, s) /\
    (selectsPrimary k nowP q = true -> selectsArchive k nowA q = false ->
     fails w (OpCount Hot) = false -> fails w (OpFind Hot) = false ->
     data r = hotPage w q o /\ total r = matchedCount q (hot w)) /\
    (selectsArchive k nowA q = true -> selectsPrimary k nowP q = false ->
     fails w (OpCount Cold) = false ->
     forall rs s0, fst (kindQueryArchive k w q o s0) = Returned rs ->
     data r = map normalizeArchiveRecord rs /\ total r = matchedCount q (cold w)).
Proof.
  intros Hk.
  destruct (queryUnified_run k w nowA nowP q o Hk)
    as (lg & pr & ar & pc & ac & E & Hpc & Hpr & _ & HnA & HA).
  eexists _, _. split; [exact E|]. simpl. split.
  - intros HqP HqA Hfc Hff. destruct (HnA HqA) as [-> ->].
    rewrite HqP, Hfc in Hpc, Hpr. rewrite Hff in Hpr. simpl in Hpc, Hpr. subst pc pr.
    rewrite HqA, HqP. unfold mergeResults. simpl. rewrite app_nil_r.
    split; [reflexivity | lia].
  - intros HqA HqP Hfc rs s0 Hrs.
    rewrite HqP in Hpc, Hpr. simpl in Hpc, Hpr. subst pc pr.
    destruct (HA HqA) as (oA & lA & Hw & Hcase).
    rewrite HqP, archiveOptions_unselected_primary in Hw.
    rewrite (Hw s0) in Hrs. simpl in Hrs. subst oA.
    rewrite Hfc in Hcase. destruct Hcase as [-> ->].
    rewrite HqA, HqP. unfold mergeResults. simpl. split; reflexivity.
Qed.

Lemma single_tier_is_plain_query_witness :
  knownKind saleKind /\
  exists r s,
    run (queryUnifiedSales twoTierWorld now2025 now2025 recentQuery defaultSaleOptions)
      = (Returned r, s) /\
    data r = hotPage twoTierWorld recentQuery defaultSaleOptions.
Proof.
  split; [left; reflexivity|].
  destruct (single_tier_is_plain_query saleKind twoTierWorld now2025 now2025
              recentQuery defaultSaleOptions (or_introl eq_refl))
    as (r & s & E & H & _).
  exists r, s. split; [exact E|].
  apply H; reflexivity.
Defined.

Lemma stitchSale_path (users products shopkeepers : list Entity) (d : Doc)
    (pop pop' : Populate) :
  popPath pop = popPath pop' ->
  stitchSale users products shopkeepers d pop = stitchSale users products shopkeepers d pop'.
Proof. intros H. unfold stitchSale. rewrite H. reflexivity. Qed.

Lemma foldl_stitch_path (users products shopkeepers : list Entity)
    (pops pops' : list Populate) :
  map popPath pops = map popPath pops' ->
  forall d, fold_left (stitchSale users products shopkeepers) pops d
            = fold_left (stitchSale users products shopkeepers) pops' d.
Proof.
  revert pops'. induction pops as [|p pops IH]; intros [|p' pops'] H d;
    try discriminate; [reflexivity|].
  simpl in H. injection H as Hp Hrest. simpl.
  rewrite (stitchSale_path _ _ _ d p p' Hp). apply IH, Hrest.
Qed.

Lemma collectSaleIds_path (pops pops' : list Populate) (rows : list Doc) :
  map popPath pops = map popPath pops' ->
  collectSaleIds pops rows = collectSaleIds pops' rows.
Proof.
  unfold collectSaleIds. generalize (mkSaleIds [] [] []).
  revert pops'. induction pops as [|p pops IH]; intros [|p' pops'] acc H;
    try discriminate; [reflexivity|].
  simpl in H. injection H as Hp Hrest. simpl. rewrite Hp. apply IH, Hrest.
Qed.

(** X20: the archive sales query ignores the field selection of a
    requested reference: two calls that request the same paths, whatever
    [select] each path carries, with the same sort, skip and limit, behave
    alike (the referenced documents always come with the fixed field lists
    of the three batch lookups). *)
Theorem sale_select_ignored (w : World) (q : Query) (o o' : Options) :
  map popPath (populate o) = map popPath (populate o') ->
  sort o = sort o' -> skip o = skip o' -> limit o = limit o' ->
  forall s, queryArchiveSales w q o s = queryArchiveSales w q o' s.
Proof.
  intros Hpop Hsort Hskip Hlimit s.
  assert (Hlen : length (populate o) = length (populate o')).
  { rewrite <- (length_map popPath (populate o)), Hpop. apply length_map. }
  unfold queryArchiveSales, archiveExec.
  rewrite Hsort, Hskip, Hlimit, Hlen.
  unfold mbind, M_bind.
  destruct (execFind w Cold q (sort o') (whenNonZero (skip o')) (whenNonZero (limit o')) s)
    as [[results | e] s1]; [|reflexivity].
  destruct (_ && _); [|reflexivity].
  rewrite (collectSaleIds_path _ _ results Hpop).
  destruct (promiseAll3 _ _ _ s1) as [[[[users products] shopkeepers] | e] s2];
    [|reflexivity].
  rewrite (map_ext _ _ (foldl_stitch_path users products shopkeepers _ _ Hpop)).
  reflexivity.
Qed.

Lemma sale_select_ignored_witness :
  map popPath [PopSpec "dealer" (Some ["name"])] = map popPath [PopPath "dealer"] /\
  forall s,
    queryArchiveSales salesWorld approvedQuery
      (mkOptions [PopSpec "dealer" (Some ["name"])] [("saleDate", Desc)] 0 10) s
    = queryArchiveSales salesWorld approvedQuery
        (mkOptions [PopPath "dealer"] [("saleDate", Desc)] 0 10) s.
Proof.
  split; [reflexivity|].
  apply (sale_select_ignored salesWorld approvedQuery
           (mkOptions [PopSpec "dealer" (Some ["name"])] [("saleDate", Desc)] 0 10)
           (mkOptions [PopPath "dealer"] [("saleDate", Desc)] 0 10));
    reflexivity.
Defined.

(* ===================================================================== *)
(** * The total of a call and the resolution of sale references *)
(* ===================================================================== *)

(** ** Totals and tier errors *)










(** ** Reference resolution of the archive sales query *)

Lemma saleRefCollection_spec (path : string) (c : Collection) :
  saleRefCollection path = Some c <->
  (c = User /\ (path = "salesman" \/ path = "dealer")) \/
  (c = Product /\ path = "product") \/
  (c = Shopkeeper /\ path = "shopkeeper").
Proof.
  unfold saleRefCollection.
  destruct (String.eqb_spec path "salesman") as [->|H1].
  { split; [intros [= <-]; auto | intros [[-> _] | [[_ [=]] | [_ [=]]]]; reflexivity]. }
  destruct (String.eqb_spec path "dealer") as [->|H2].
  { split; [intros [= <-]; auto | intros [[-> _] | [[_ [=]] | [_ [=]]]]; reflexivity]. }
  destruct (String.eqb_spec path "product") as [->|H3].
  { split; [intros [= <-]; auto | intros [[_ [[=] | [=]]] | [[-> _] | [_ [=]]]]; reflexivity]. }
  destruct (String.eqb_spec path "shopkeeper") as [->|H4].
  { split; [intros [= <-]; auto | intros [[_ [[=] | [=]]] | [[_ [=]] | [-> _]]]; reflexivity]. }
  split; [discriminate|]. intros [[_ [? | ?]] | [[_ ?] | [_ ?]]]; contradiction.
Qed.

Lemma refsAreIds_row (rows : list Doc) (d : Doc) (f : string) :
  refsAreIds rows = true -> In d rows -> In f salePaths -> idOrFalsy (d !! f) = true.
Proof.
  unfold refsAreIds. rewrite forallb_forall. intros H Hd Hf.
  specialize (H d Hd). rewrite forallb_forall in H. exact (H f Hf).
Qed.

Lemma idOrFalsy_truthy (v : Value) :
  idOrFalsy (Some v) = true -> truthy v = true -> exists i, v = VId i.
Proof.
  intros H Ht. destruct v; simpl in *; try rewrite Ht in H; simpl in *;
    try discriminate; eauto.
Qed.

Lemma setAdd_spec (rows : list Doc) (s : IdSet) (i : nat) (f : string) (v : Value) (d : Doc) :
  entriesFrom rows s ->
  rows !! i = Some d -> d !! f = Some v -> isPrimitive v = false ->
  entriesFrom rows (setAdd s (i, f, v)) /\
  forall v', In v' (setValues (setAdd s (i, f, v))) <-> In v' (setValues s) \/ v' = v.
Proof.
  intros Hs Hi Hf Hv. unfold setAdd.
  destruct (existsb (sameValueZero (i, f, v)) s) eqn:E.
  - split; [exact Hs|]. intros v'. split; [auto|]. intros [H | ->]; [exact H|].
    apply existsb_exists in E as ([[i' f'] w'] & Hin & Hsame).
    unfold sameValueZero in Hsame. simpl in Hsame. rewrite Hv in Hsame.
    apply andb_true_iff in Hsame as [Hsame Hff].
    apply andb_true_iff in Hsame as [_ Hii].
    apply Nat.eqb_eq in Hii. apply String.eqb_eq in Hff. subst i' f'.
    destruct (Hs _ _ _ Hin) as (d' & Hd' & Hw' & _).
    rewrite Hi in Hd'. injection Hd' as <-. rewrite Hf in Hw'. injection Hw' as <-.
    unfold setValues. apply (in_map snd) in Hin. exact Hin.
  - split.
    + intros i' f' w' Hin. apply in_app_or in Hin as [Hin | [[= <- <- <-] | []]]; eauto.
    + intros v'. unfold setValues. rewrite map_app, in_app_iff. simpl. intuition.
Qed.

Lemma addIf_spec (rows : list Doc) (path field : string) (i : nat) (d : Doc) (s : IdSet) :
  entriesFrom rows s ->
  rows !! i = Some d -> idOrFalsy (d !! field) = true ->
  entriesFrom rows (addIf path field i d s) /\
  forall v', In v' (setValues (addIf path field i d s)) <->
             In v' (setValues s) \/ (path = field /\ d !! field = Some v' /\ truthy v' = true).
Proof.
  intros Hs Hi Hok. unfold addIf, truthyField.
  destruct (String.eqb_spec path field) as [->|Hne]; simpl.
  - destruct (d !! field) as [v|] eqn:Hf.
    + destruct (truthy v) eqn:Ht.
      * destruct (idOrFalsy_truthy v Hok Ht) as [n ->].
        destruct (setAdd_spec rows s i field (VId n) d Hs Hi Hf eq_refl) as [He Hv].
        split; [exact He|]. intros v'. rewrite Hv. split.
        -- intros [H | ->]; auto.
        -- intros [H | (_ & [= <-] & _)]; auto.
      * split; [exact Hs|]. intros v'. split; [auto|].
        intros [H | (_ & [= <-] & Ht')]; [exact H | congruence].
    + split; [exact Hs|]. intros v'. split; [auto|].
      intros [H | (_ & [=] & _)]; exact H.
  - split; [exact Hs|]. intros v'. split; [auto|]. intros [H | (E & _)]; [exact H | contradiction].
Qed.

Lemma collectRow_spec (rows : list Doc) (path : string) (acc : SaleIds) (i : nat) (d : Doc) :
  (forall c, entriesFrom rows (idsOf c acc)) ->
  rows !! i = Some d ->
  (forall f, In f salePaths -> idOrFalsy (d !! f) = true) ->
  (forall c, entriesFrom rows (idsOf c (collectRow path acc (i, d)))) /\
  forall c v, In v (setValues (idsOf c (collectRow path acc (i, d)))) <->
              In v (setValues (idsOf c acc)) \/ gathered c path d v.
Proof.
  intros Hacc Hi Hok. unfold collectRow, gathered.
  destruct (addIf_spec rows path "salesman" i d (userIds acc) (Hacc User) Hi
              (Hok "salesman" ltac:(simpl; auto))) as [Hu1 Hv1].
  destruct (addIf_spec rows path "dealer" i d _ Hu1 Hi (Hok "dealer" ltac:(simpl; auto)))
    as [Hu2 Hv2].
  destruct (addIf_spec rows path "product" i d (productIds acc) (Hacc Product) Hi
              (Hok "product" ltac:(simpl; auto))) as [Hp Hvp].
  destruct (addIf_spec rows path "shopkeeper" i d (shopkeeperIds acc) (Hacc Shopkeeper) Hi
              (Hok "shopkeeper" ltac:(simpl; auto))) as [Hs Hvs].
  split.
  - intros [| | |]; simpl; auto. intros ? ? ? [].
  - intros c v. rewrite saleRefCollection_spec.
    destruct c; simpl.
    + rewrite Hv2, Hv1. split.
      * intros [[H | (-> & H)] | (-> & H)]; auto 10.
      * intros [H | ([[_ [-> | ->]] | [[[=] _] | [[=] _]]] & H)]; auto.
    + rewrite Hvp. split.
      * intros [H | (-> & H)]; auto 10.
      * intros [H | ([[[=] _] | [[_ ->] | [[=] _]]] & H)]; auto.
    + rewrite Hvs. split.
      * intros [H | (-> & H)]; auto 10.
      * intros [H | ([[[=] _] | [[[=] _] | [_ ->]]] & H)]; auto.
    + split; [intros []|]. intros [[] | ([[[=] _] | [[[=] _] | [[=] _]]] & _)].
Qed.

Lemma collectRows_spec (rows : list Doc) (path : string) (irows : list (nat * Doc))
    (acc : SaleIds) :
  (forall c, entriesFrom rows (idsOf c acc)) ->
  (forall i d, In (i, d) irows ->
     rows !! i = Some d /\ forall f, In f salePaths -> idOrFalsy (d !! f) = true) ->
  (forall c, entriesFrom rows (idsOf c (fold_left (collectRow path) irows acc))) /\
  forall c v, In v (setValues (idsOf c (fold_left (collectRow path) irows acc))) <->
              In v (setValues (idsOf c acc)) \/
              exists i d, In (i, d) irows /\ gathered c path d v.
Proof.
  revert acc. induction irows as [|[i d] irows IH]; intros acc Hacc Hrows; simpl.
  - split; [exact Hacc|]. intros c v. split; [auto|]. intros [H | (? & ? & [] & _)]; exact H.
  - destruct (Hrows i d (or_introl eq_refl)) as [Hi Hok].
    destruct (collectRow_spec rows path acc i d Hacc Hi Hok) as [Hacc' Hv'].
    destruct (IH _ Hacc' (fun i' d' H => Hrows i' d' (or_intror H))) as [He Hv].
    split; [exact He|]. intros c v. rewrite Hv, Hv'. split.
    + intros [[H | H] | (i' & d' & Hin & H)]; eauto 10.
    + intros [H | (i' & d' & [E | Hin] & H)]; [auto | | eauto 10].
      injection E as -> ->. auto.
Qed.

Lemma In_imap_pair (rows : list Doc) (i : nat) (d : Doc) :
  In (i, d) (imap pair rows) <-> rows !! i = Some d.
Proof.
  rewrite <- list_elem_of_In, elem_of_lookup_imap. split.
  - intros (i' & d' & [= -> ->] & H). exact H.
  - intros H. eauto.
Qed.

(** What the gathering pass collects for a collection: the truthy values
    that the records of the page hold under the requested paths resolved in
    that collection. *)
Lemma collectSaleIds_spec (pops : list Populate) (rows : list Doc) :
  refsAreIds rows = true ->
  forall c v, In v (setValues (idsOf c (collectSaleIds pops rows))) <->
              exists d path, In d rows /\ In path (map popPath pops) /\ gathered c path d v.
Proof.
  intros Hrows. unfold collectSaleIds.
  assert (Hirows : forall i d, In (i, d) (imap pair rows) ->
            rows !! i = Some d /\ forall f, In f salePaths -> idOrFalsy (d !! f) = true).
  { intros i d Hin. apply In_imap_pair in Hin. split; [exact Hin|].
    intros f Hf. apply (refsAreIds_row rows d f Hrows); [|exact Hf].
    apply list_elem_of_In. eapply list_elem_of_lookup_2. exact Hin. }
  assert (G : forall acc,
            (forall c, entriesFrom rows (idsOf c acc)) ->
            (forall c, entriesFrom rows
               (idsOf c (fold_left (fun acc pop =>
                            fold_left (collectRow (popPath pop)) (imap pair rows) acc)
                          pops acc))) /\
            forall c v,
              In v (setValues (idsOf c
                      (fold_left (fun acc pop =>
                          fold_left (collectRow (popPath pop)) (imap pair rows) acc)
                        pops acc))) <->
              In v (setValues (idsOf c acc)) \/
              exists d path, In d rows /\ In path (map popPath pops) /\ gathered c path d v).
  { induction pops as [|pop pops IH]; intros acc Hacc; simpl.
    - split; [exact Hacc|]. intros c v. split; [auto|].
      intros [H | (? & ? & _ & [] & _)]; exact H.
    - destruct (collectRows_spec rows (popPath pop) (imap pair rows) acc Hacc Hirows)
        as [Hacc' Hv'].
      destruct (IH _ Hacc') as [He Hv]. split; [exact He|].
      intros c v. rewrite Hv, Hv'. split.
      + intros [[H | (i & d & Hin & H)] | (d & path & Hd & Hp & H)]; eauto 10.
        right. exists d, (popPath pop). split; [|auto].
        apply In_imap_pair in Hin. apply list_elem_of_In.
        eapply list_elem_of_lookup_2. exact Hin.
      + intros [H | (d & path & Hd & [<- | Hp] & H)]; eauto 10.
        left. right. apply list_elem_of_In, list_elem_of_lookup_1 in Hd as [i Hi].
        exists i, d. split; [apply In_imap_pair; exact Hi | exact H]. }
  destruct (G (mkSaleIds [] [] [])) as [_ Hv].
  { intros [| | |] ? ? ? []. }
  intros c v. rewrite Hv. split; [|auto]. intros [H | H]; [|exact H].
  destruct c; destruct H.
Qed.

Lemma cast_ids (vs : list Value) :
  (forall v, In v vs -> exists i, v = VId i) ->
  exists ns, mapM castObjectId vs = Some ns /\ forall i, In i ns <-> In (VId i) vs.
Proof.
  induction vs as [|v vs IH]; intros H.
  - exists []. split; [reflexivity|]. intros i. reflexivity.
  - destruct (H v (or_introl eq_refl)) as [n ->].
    destruct (IH (fun v' Hv' => H v' (or_intror Hv'))) as (ns & E & Hns).
    exists (n :: ns). split.
    + simpl. rewrite E. reflexivity.
    + intros i. simpl. rewrite Hns. split.
      * intros [-> | Hi]; auto.
      * intros [[= ->] | Hi]; auto.
Qed.

Lemma writes_batch_ids (w : World) (c : Collection) (ids : IdSet) (sel : list string)
    (ns : list N) :
  mapM castObjectId (setValues ids) = Some ns ->
  writes (if (0 <? length ids)%nat then refFind w c (setValues ids) sel else mret [])
    (if (0 <? length ids)%nat && fails w (OpRefFind c)
     then Thrown (StoreError (OpRefFind c))
     else Returned (fetched w c ids sel))
    (batchLog c ids ns).
Proof.
  intros E. unfold batchLog, fetched. destruct (0 <? length ids)%nat; simpl.
  - unfold refFind. rewrite E. apply writes_roundTrip.
  - apply writes_ret.
Qed.

Lemma writes_promiseAll3_returned {A B C : Type} (a : M A) (b : M B) (c : M C)
    x la y lb z lc :
  writes a (Returned x) la -> writes b (Returned y) lb -> writes c (Returned z) lc ->
  writes (promiseAll3 a b c) (Returned (x, y, z)) (la ++ lb ++ lc).
Proof.
  intros Ha Hb Hc. unfold promiseAll3.
  replace (la ++ lb ++ lc) with (la ++ lb ++ lc ++ []) by (rewrite app_nil_r; reflexivity).
  (eapply writes_bind; [apply writes_settle, Ha|]);
  (eapply writes_bind; [apply writes_settle, Hb|]);
  (eapply writes_bind; [apply writes_settle, Hc|]).
  apply writes_ret.
Qed.

Lemma setValues_nil (s : IdSet) : setValues s = [] -> s = [].
Proof. destruct s; [reflexivity | discriminate]. Qed.

Lemma gathered_key (rows : list Doc) (c : Collection) (path : string) (d : Doc) (v : Value) :
  refsAreIds rows = true -> In d rows -> gathered c path d v ->
  exists i, v = VId i /\ d !! path = Some (VId i).
Proof.
  intros Hrows Hd (Hc & Hv & Ht).
  assert (Hp : In path salePaths).
  { apply saleRefCollection_spec in Hc. unfold salePaths. simpl. intuition. }
  pose proof (refsAreIds_row rows d path Hrows Hd Hp) as Hok. rewrite Hv in Hok.
  destruct (idOrFalsy_truthy v Hok Ht) as [i ->]. eauto.
Qed.

(** The identifiers gathered for a collection are the foreign keys of the
    page into it. *)
Lemma gathered_ids_are_keys (pops : list Populate) (rows : list Doc) (c : Collection) :
  refsAreIds rows = true ->
  exists ns,
    mapM castObjectId (setValues (idsOf c (collectSaleIds pops rows))) = Some ns /\
    (forall i, In i ns <-> saleKey c (map popPath pops) rows i) /\
    ((0 <? length (idsOf c (collectSaleIds pops rows)))%nat = true <->
     exists i, saleKey c (map popPath pops) rows i).
Proof.
  intros Hrows.
  pose proof (collectSaleIds_spec pops rows Hrows c) as Hspec.
  destruct (cast_ids (setValues (idsOf c (collectSaleIds pops rows)))) as (ns & E & Hns).
  { intros v Hv. apply Hspec in Hv as (d & path & Hd & Hp & Hg).
    destruct (gathered_key rows c path d v Hrows Hd Hg) as (i & -> & _). eauto. }
  assert (Hkey : forall i, In (VId i) (setValues (idsOf c (collectSaleIds pops rows)))
                           <-> saleKey c (map popPath pops) rows i).
  { intros i. rewrite Hspec. unfold saleKey, gathered. split.
    - intros (d & path & Hd & Hp & Hc & Hv & _). eauto 10.
    - intros (d & path & Hd & Hp & Hc & Hv). exists d, path. auto 10. }
  exists ns. split; [exact E|]. split.
  - intros i. rewrite Hns. apply Hkey.
  - split.
    + intros Hlen. destruct (idsOf c (collectSaleIds pops rows)) as [|[[i f] v] s] eqn:Es;
        [discriminate|].
      assert (Hv : In v (setValues ((i, f, v) :: s))) by (left; reflexivity).
      pose proof Hv as Hv'. apply Hspec in Hv' as (d & path & Hd & Hp & Hg).
      destruct (gathered_key rows c path d v Hrows Hd Hg) as (n & -> & _).
      exists n. apply Hkey. exact Hv.
    + intros [i Hi]. apply Hkey in Hi.
      destruct (idsOf c (collectSaleIds pops rows)); [destruct Hi | reflexivity].
Qed.

(** The round trips and the outcome of an archive sales query whose find
    answers, over a page whose reference fields hold ObjectIds. *)
Lemma queryArchiveSales_trace (w : World) (q : Query) (o : Options) (nu np ns : list N) :
  let rows := page q (sort o) (whenNonZero (skip o)) (whenNonZero (limit o)) (cold w) in
  let ids := collectSaleIds (populate o) rows in
  fails w (OpFind Cold) = false ->
  refsAreIds rows = true ->
  mapM castObjectId (setValues (userIds ids)) = Some nu ->
  mapM castObjectId (setValues (productIds ids)) = Some np ->
  mapM castObjectId (setValues (shopkeeperIds ids)) = Some ns ->
  exists out,
    writes (queryArchiveSales w q o) out
      (EvFind Cold (whenNonZero (skip o)) (whenNonZero (limit o))
       :: batchLog User (userIds ids) nu ++ batchLog Product (productIds ids) np
          ++ batchLog Shopkeeper (shopkeeperIds ids) ns) /\
    (fails w (OpRefFind User) = false -> fails w (OpRefFind Product) = false ->
     fails w (OpRefFind Shopkeeper) = false ->
     out = Returned
             (map (fun resultObj =>
                     fold_left
                       (stitchSale (fetched w User (userIds ids) (saleRefSelect User))
                                   (fetched w Product (productIds ids) (saleRefSelect Product))
                                   (fetched w Shopkeeper (shopkeeperIds ids)
                                      (saleRefSelect Shopkeeper)))
                       (populate o) resultObj)
                  rows)).
Proof.
  intros rows ids Hfind Hrows Eu Ep Es.
  pose proof (writes_archiveExec w q o) as Hexec. rewrite Hfind in Hexec. fold rows in Hexec.
  unfold queryArchiveSales.
  destruct ((0 <? length (populate o))%nat && (0 <? length rows)%nat) eqn:Hcond.
  - pose proof (writes_batch_ids w User (userIds ids) (saleRefSelect User) nu Eu) as Hu.
    pose proof (writes_batch_ids w Product (productIds ids) (saleRefSelect Product) np Ep) as Hp.
    pose proof (writes_batch_ids w Shopkeeper (shopkeeperIds ids) (saleRefSelect Shopkeeper)
                  ns Es) as Hs.
    destruct (writes_promiseAll3 _ _ _ _ _ _ _ _ _ Hu Hp Hs) as [o3 H3].
    destruct (fails w (OpRefFind User) || fails w (OpRefFind Product)
              || fails w (OpRefFind Shopkeeper)) eqn:Hfails.
    + destruct o3 as [[[users products] shopkeepers]|e].
      * eexists. split.
        -- change (?x :: ?l) with ([x] ++ l).
           eapply writes_bind; [exact Hexec|]. fold ids. rewrite Hcond.
           match goal with |- writes _ _ ?l => replace l with (l ++ [])
             by (rewrite app_nil_r; reflexivity) end.
           eapply writes_bind; [exact H3|]. apply writes_ret.
        -- intros Hfu Hfp Hfs. rewrite Hfu, Hfp, Hfs in Hfails. discriminate.
      * eexists. split.
        -- change (?x :: ?l) with ([x] ++ l).
           eapply writes_bind; [exact Hexec|]. fold ids. rewrite Hcond.
           eapply writes_bind_thrown. exact H3.
        -- intros Hfu Hfp Hfs. rewrite Hfu, Hfp, Hfs in Hfails. discriminate.
    + apply orb_false_iff in Hfails as [Hfails Hfs].
      apply orb_false_iff in Hfails as [Hfu Hfp].
      rewrite Hfu, andb_false_r in Hu. rewrite Hfp, andb_false_r in Hp.
      rewrite Hfs, andb_false_r in Hs.
      pose proof (writes_promiseAll3_returned _ _ _ _ _ _ _ _ _ Hu Hp Hs) as H3'.
      eexists. split.
      * change (?x :: ?l) with ([x] ++ l).
        eapply writes_bind; [exact Hexec|]. fold ids. rewrite Hcond.
        match goal with |- writes _ _ ?l => replace l with (l ++ [])
          by (rewrite app_nil_r; reflexivity) end.
        eapply writes_bind; [exact H3'|]. apply writes_ret.
      * intros _ _ _. reflexivity.
  - assert (Hnone : forall c, idsOf c ids = []).
    { intros c. apply setValues_nil.
      destruct (setValues (idsOf c ids)) as [|v vs] eqn:E; [reflexivity|].
      assert (Hv : In v (setValues (idsOf c ids))) by (rewrite E; left; reflexivity).
      apply (collectSaleIds_spec (populate o) rows Hrows) in Hv
        as (d & path & Hd & Hp & _).
      apply andb_false_iff in Hcond as [Hc | Hc].
      - destruct (populate o); [destruct Hp | discriminate].
      - destruct rows; [destruct Hd | discriminate]. }
    pose proof (Hnone User) as HU. pose proof (Hnone Product) as HP.
    pose proof (Hnone Shopkeeper) as HS. simpl in HU, HP, HS.
    exists (Returned rows). split.
    + unfold batchLog. rewrite HU, HP, HS. simpl.
      change (?x :: ?l) with ([x] ++ l).
      eapply writes_bind; [exact Hexec|]. fold ids. rewrite Hcond. apply writes_ret.
    + intros _ _ _. f_equal.
      apply andb_false_iff in Hcond as [Hc | Hc].
      * destruct (populate o); [|discriminate]. simpl. rewrite map_id. reflexivity.
      * destruct rows; [reflexivity | discriminate].
Qed.

Lemma stitchSale_own (users products shopkeepers : list Entity) (d : Doc) (pop : Populate)
    (c : Collection) :
  saleRefCollection (popPath pop) = Some c ->
  truthyField d (popPath pop) = true ->
  stitchSale users products shopkeepers d pop !! popPath pop
  = Some (lookupOrNull (entriesOf c users products shopkeepers) (d !! popPath pop)).
Proof.
  intros Hc Ht. unfold stitchSale. apply saleRefCollection_spec in Hc.
  destruct Hc as [[-> [E | E]] | [[-> E] | [-> E]]]; rewrite E in *; simpl;
    rewrite Ht; simpl; apply lookup_insert_eq.
Qed.

Lemma stitchSale_untouched (users products shopkeepers : list Entity) (d : Doc)
    (pop : Populate) :
  saleRefCollection (popPath pop) = None \/ truthyField d (popPath pop) = false ->
  stitchSale users products shopkeepers d pop = d.
Proof.
  unfold stitchSale, saleRefCollection.
  destruct (String.eqb_spec (popPath pop) "salesman") as [E|E]; cbn [andb].
  { rewrite E. intros [[=] | ->]. reflexivity. }
  destruct (String.eqb_spec (popPath pop) "dealer") as [E2|E2]; cbn [andb].
  { rewrite E2. intros [[=] | ->]. reflexivity. }
  destruct (String.eqb_spec (popPath pop) "product") as [E3|E3]; cbn [andb].
  { rewrite E3. intros [[=] | ->]. reflexivity. }
  destruct (String.eqb_spec (popPath pop) "shopkeeper") as [E4|E4]; cbn [andb].
  { rewrite E4. intros [[=] | ->]. reflexivity. }
  reflexivity.
Qed.

(** Stitching a record, each path requested once: a requested reference
    field that holds a value is replaced by what the lookup map of its
    collection has for it, and every other field is left as it was. *)
Lemma foldl_stitch_spec (users products shopkeepers : list Entity) (pops : list Populate) :
  List.NoDup (map popPath pops) ->
  forall row,
    let r := fold_left (stitchSale users products shopkeepers) pops row in
    (forall path c,
       In path (map popPath pops) -> saleRefCollection path = Some c ->
       truthyField row path = true ->
       r !! path = Some (lookupOrNull (entriesOf c users products shopkeepers) (row !! path))) /\
    (forall key,
       ~ In key (map popPath pops) \/ saleRefCollection key = None \/
       truthyField row key = false ->
       r !! key = row !! key).
Proof.
  induction pops as [|pop pops IH]; intros Hnd row; simpl.
  - split; [intros ? ? [] | reflexivity].
  - simpl in Hnd. apply NoDup_cons_iff in Hnd as [Hnotin Hnd].
    destruct (IH Hnd (stitchSale users products shopkeepers row pop)) as [IH1 IH2].
    split.
    + intros path c [<- | Hin] Hc Ht.
      * rewrite IH2 by (left; exact Hnotin).
        apply stitchSale_own; assumption.
      * assert (Hne : path <> popPath pop) by (intros ->; contradiction).
        pose proof (stitchSale_elsewhere users products shopkeepers row pop path Hne) as Hsame.
        rewrite (IH1 path c Hin Hc).
        -- rewrite Hsame. reflexivity.
        -- unfold truthyField in *. rewrite Hsame. exact Ht.
    + intros key Hkey.
      assert (Hsame : stitchSale users products shopkeepers row pop !! key = row !! key).
      { destruct (String.eqb_spec key (popPath pop)) as [-> | Hne].
        - rewrite stitchSale_untouched; [reflexivity|].
          destruct Hkey as [Hn | [Hn | Hn]]; [exfalso; apply Hn; left; reflexivity | auto | auto].
        - apply stitchSale_elsewhere. exact Hne. }
      rewrite IH2; [exact Hsame|].
      destruct Hkey as [Hn | [Hn | Hn]]; [left; tauto | auto |].
      right. right. unfold truthyField in *. rewrite Hsame. exact Hn.
Qed.

(** The lookup map built from a batch, read at a key that was in the
    batch: the document of the collection with that identifier, with the
    selected fields, or null when the collection has none. *)
Lemma fetched_lookup (w : World) (c : Collection) (ids : IdSet) (sel : list string)
    (ns : list N) (i : N) :
  mapM castObjectId (setValues ids) = Some ns ->
  In i ns ->
  (exists e, In e (refs w c) /\ ent_id e = i /\
             lookupOrNull (fetched w c ids sel) (Some (VId i))
             = VObj i (ent_fields (selectFields sel e))) \/
  ((forall e, In e (refs w c) -> ent_id e <> i) /\
   lookupOrNull (fetched w c ids sel) (Some (VId i)) = VNull).
Proof.
  intros E Hi.
  assert (Hf : fetched w c ids sel
               = map (selectFields sel)
                   (List.filter (fun e => bool_decide (ent_id e ∈ ns)) (refs w c))).
  { unfold fetched. rewrite E. destruct ids; [|reflexivity].
    simpl in E. injection E as <-. destruct Hi. }
  destruct (lookupOrNull_by_id (fetched w c ids sel) i) as [[Hnull Hnone] | (e & He & Hid & Hv)].
  - right. split; [|exact Hnull]. intros e0 He0 Hid.
    apply (Hnone (selectFields sel e0)); [|exact Hid].
    rewrite Hf. apply in_map. apply List.filter_In. split; [exact He0|].
    apply bool_decide_eq_true. rewrite Hid. apply list_elem_of_In. exact Hi.
  - left. rewrite Hf in He. apply in_map_iff in He as (e0 & <- & He0).
    apply List.filter_In in He0 as [He0 _].
    exists e0. split; [exact He0|]. split; [exact Hid|]. exact Hv.
Qed.

Lemma batchLog_counts (c c' : Collection) (ids : IdSet) (ns : list N) :
  pointLookups (batchLog c ids ns) = 0%nat /\
  batchLookups c' (batchLog c ids ns)
  = (if (0 <? length ids)%nat && isRefFind c' (EvRefFind c ns) then 1 else 0)%nat.
Proof.
  unfold batchLog.
  destruct (0 <? length ids)%nat; [|split; reflexivity].
  split; [reflexivity|]. unfold batchLookups. cbn [List.filter andb].
  destruct (isRefFind c' (EvRefFind c ns)); reflexivity.
Qed.

Lemma Forall2_map_right_In {A B : Type} (R : A -> B -> Prop) (g : A -> B) (l : list A) :
  (forall a, In a l -> R a (g a)) -> Forall2 R l (map g l).
Proof.
  induction l as [|a l IH]; intros H; simpl; constructor.
  - apply H. left. reflexivity.
  - apply IH. intros b Hb. apply H. right. exact Hb.
Qed.

(** C8, as the code has it, for sale records whose reference fields hold
    ObjectIds: the archive sales query makes no point lookup; for each
    referenced collection (users for salesman and dealer together, products,
    shopkeepers) it makes one batch lookup when some record of the page holds
    a key under a requested path of that collection, with exactly the keys of
    the whole page, and none otherwise; and, when the lookups answer and each
    path is requested once, every requested reference field that holds a key
    is replaced by the referenced document with that identifier (the selected
    fields only), or by null when the collection has none, all other fields
    being left as they are. *)
Theorem sale_references_resolved_in_batches (w : World) (q : Query) (o : Options) :
  let rows := page q (sort o) (whenNonZero (skip o)) (whenNonZero (limit o)) (cold w) in
  let paths := map popPath (populate o) in
  fails w (OpFind Cold) = false ->
  refsAreIds rows = true ->
  exists out l,
    writes (queryArchiveSales w q o) out
      (EvFind Cold (whenNonZero (skip o)) (whenNonZero (limit o)) :: l) /\
    pointLookups l = 0%nat /\
    (forall c,
       (batchLookups c l <= 1)%nat /\
       ((exists i, saleKey c paths rows i) ->
          batchLookups c l = 1%nat /\
          exists ns, In (EvRefFind c ns) l /\ forall i, In i ns <-> saleKey c paths rows i) /\
       ((forall i, ~ saleKey c paths rows i) -> batchLookups c l = 0%nat)) /\
    (fails w (OpRefFind User) = false -> fails w (OpRefFind Product) = false ->
     fails w (OpRefFind Shopkeeper) = false -> List.NoDup paths ->
     exists rs,
       out = Returned rs /\
       Forall2
         (fun row r =>
            (forall path c i,
               In path paths -> saleRefCollection path = Some c ->
               row !! path = Some (VId i) ->
               (exists e, In e (refs w c) /\ ent_id e = i /\
                          r !! path
                          = Some (VObj i (ent_fields (selectFields (saleRefSelect c) e)))) \/
               ((forall e, In e (refs w c) -> ent_id e <> i) /\ r !! path = Some VNull)) /\
            (forall key,
               ~ In key paths \/ saleRefCollection key = None \/ truthyField row key = false ->
               r !! key = row !! key))
         rows rs).
Proof.
  intros rows paths Hfind Hrows.
  set (ids := collectSaleIds (populate o) rows).
  destruct (gathered_ids_are_keys (populate o) rows User Hrows) as (nu & Eu & Hnu & Hlu).
  destruct (gathered_ids_are_keys (populate o) rows Product Hrows) as (np & Ep & Hnp & Hlp).
  destruct (gathered_ids_are_keys (populate o) rows Shopkeeper Hrows) as (ns & Es & Hns & Hls).
  simpl in Eu, Ep, Es. fold ids paths in Eu, Ep, Es, Hnu, Hnp, Hns, Hlu, Hlp, Hls.
  simpl in Hlu, Hlp, Hls.
  destruct (queryArchiveSales_trace w q o nu np ns Hfind Hrows Eu Ep Es) as (out & Hw & Hout).
  fold rows ids in Hw, Hout.
  eexists out, _. split; [exact Hw|].
  destruct (batchLog_counts User User (userIds ids) nu) as [HpU HbUU].
  destruct (batchLog_counts Product Product (productIds ids) np) as [HpP HbPP].
  destruct (batchLog_counts Shopkeeper Shopkeeper (shopkeeperIds ids) ns) as [HpS HbSS].
  split.
  { rewrite !pointLookups_app, HpU, HpP, HpS. reflexivity. }
  split.
  { intros c. rewrite !batchLookups_app.
    rewrite (proj2 (batchLog_counts User c (userIds ids) nu)),
            (proj2 (batchLog_counts Product c (productIds ids) np)),
            (proj2 (batchLog_counts Shopkeeper c (shopkeeperIds ids) ns)).
    destruct c; simpl; rewrite ?andb_false_r, ?andb_true_r; simpl.
    - (* users *)
      split; [destruct (0 <? length (userIds ids))%nat; simpl; lia|]. split.
      + intros Hex. apply Hlu in Hex. rewrite Hex. split; [reflexivity|].
        exists nu. split; [|exact Hnu].
        unfold batchLog. rewrite Hex. left. reflexivity.
      + intros Hno. destruct (0 <? length (userIds ids))%nat eqn:E; [|reflexivity].
        destruct (proj1 Hlu eq_refl) as [i Hi]. destruct (Hno i Hi).
    - (* products *)
      split; [destruct (0 <? length (productIds ids))%nat; simpl; lia|]. split.
      + intros Hex. apply Hlp in Hex. rewrite Hex. split; [reflexivity|].
        exists np. split; [|exact Hnp].
        unfold batchLog. rewrite Hex. apply in_or_app. right. apply in_or_app. left.
        left. reflexivity.
      + intros Hno. destruct (0 <? length (productIds ids))%nat eqn:E; [|reflexivity].
        destruct (proj1 Hlp eq_refl) as [i Hi]. destruct (Hno i Hi).
    - (* shopkeepers *)
      split; [destruct (0 <? length (shopkeeperIds ids))%nat; simpl; lia|]. split.
      + intros Hex. apply Hls in Hex. rewrite Hex. split; [reflexivity|].
        exists ns. split; [|exact Hns].
        unfold batchLog. rewrite Hex. apply in_or_app. right. apply in_or_app. right.
        left. reflexivity.
      + intros Hno. destruct (0 <? length (shopkeeperIds ids))%nat eqn:E; [|reflexivity].
        destruct (proj1 Hls eq_refl) as [i Hi]. destruct (Hno i Hi).
    - (* dealer requests are not referenced by a sale *)
      split; [lia|]. split; [|reflexivity].
      intros (i & row & path & _ & _ & Hc & _).
      apply saleRefCollection_spec in Hc. exfalso.
      destruct Hc as [[[=] _] | [[[=] _] | [[=] _]]]. }
  intros Hfu Hfp Hfs Hnd. rewrite (Hout Hfu Hfp Hfs).
  eexists. split; [reflexivity|].
  apply Forall2_map_right_In. intros row Hin.
  destruct (foldl_stitch_spec (fetched w User (userIds ids) (saleRefSelect User))
              (fetched w Product (productIds ids) (saleRefSelect Product))
              (fetched w Shopkeeper (shopkeeperIds ids) (saleRefSelect Shopkeeper))
              (populate o) Hnd row) as [Hown Helse].
  split; [|exact Helse].
  intros path c i Hpath Hc Hrow.
  assert (Hkey : saleKey c paths rows i) by (exists row, path; auto).
  rewrite (Hown path c Hpath Hc) by (unfold truthyField; rewrite Hrow; reflexivity).
  rewrite Hrow.
  destruct c; cbn [entriesOf].
  - destruct (fetched_lookup w User (userIds ids) (saleRefSelect User) nu i Eu
                (proj2 (Hnu i) Hkey)) as [(e & He & Hid & ->) | [Hnone ->]]; eauto 10.
  - destruct (fetched_lookup w Product (productIds ids) (saleRefSelect Product) np i Ep
                (proj2 (Hnp i) Hkey)) as [(e & He & Hid & ->) | [Hnone ->]]; eauto 10.
  - destruct (fetched_lookup w Shopkeeper (shopkeeperIds ids) (saleRefSelect Shopkeeper) ns i Es
                (proj2 (Hns i) Hkey)) as [(e & He & Hid & ->) | [Hnone ->]]; eauto 10.
  - apply saleRefCollection_spec in Hc. exfalso.
    destruct Hc as [[[=] _] | [[[=] _] | [[=] _]]].
Qed.

Lemma sale_references_resolved_in_batches_witness :
  fails salesWorld (OpFind Cold) = false /\
  refsAreIds (page ∅ (sort salesmanDealerOptions)
                (whenNonZero (skip salesmanDealerOptions))
                (whenNonZero (limit salesmanDealerOptions)) (cold salesWorld)) = true /\
  exists out l,
    writes (queryArchiveSales salesWorld ∅ salesmanDealerOptions) out
      (EvFind Cold None None :: l) /\
    pointLookups l = 0%nat /\
    batchLookups User l = 1%nat /\
    batchLookups Product l = 0%nat /\
    exists r1 r2,
      out = Returned [r1; r2] /\
      r1 !! "salesman"
      = Some (VObj 10 [("name", VStr "asha"); ("email", VStr "asha@example.com")]) /\
      r2 !! "dealer" = Some VNull /\
      r1 !! "_id" = Some (VId 1).
Proof.
  assert (Hfind : fails salesWorld (OpFind Cold) = false) by reflexivity.
  assert (Hrows : refsAreIds (page ∅ (sort salesmanDealerOptions)
                    (whenNonZero (skip salesmanDealerOptions))
                    (whenNonZero (limit salesmanDealerOptions)) (cold salesWorld)) = true)
    by (vm_compute; reflexivity).
  split; [exact Hfind|]. split; [exact Hrows|].
  destruct (sale_references_resolved_in_batches salesWorld ∅ salesmanDealerOptions
              Hfind Hrows) as (out & l & Hw & Hp & Hb & Hs).
  exists out, l. split; [exact Hw|]. split; [exact Hp|]. split; [|split].
  - apply (Hb User). exists 10%N, (archived (saleBy 1 t2022_06_01 10 11)), "salesman".
    split; [vm_compute; left; reflexivity|].
    split; [left; reflexivity|]. split; reflexivity.
  - apply (Hb Product). intros i (row & path & _ & Hpath & Hc & _).
    destruct Hpath as [<- | [<- | []]]; discriminate.
  - destruct Hs as (rs & -> & HF);
      [reflexivity | reflexivity | reflexivity | repeat constructor; simpl; intuition discriminate|].
    assert (Erows : page ∅ (sort salesmanDealerOptions)
                      (whenNonZero (skip salesmanDealerOptions))
                      (whenNonZero (limit salesmanDealerOptions)) (cold salesWorld)
                    = [archived (saleBy 1 t2022_06_01 10 11);
                       archived (saleBy 2 (t2022_06_01 - 1) 10 12)])
      by (vm_compute; reflexivity).
    rewrite Erows in HF.
    inversion HF as [|row1 r1 rows1 rs1 [H1 H1'] HF1]; subst.
    inversion HF1 as [|row2 r2 rows2 rs2 [H2 _] HF2]; subst.
    inversion HF2; subst.
    exists r1, r2. split; [reflexivity|]. split; [|split].
    + destruct (H1 "salesman" User 10%N) as [(e & He & Hid & ->) | [Hnone _]];
        [left; reflexivity | reflexivity | reflexivity | |].
      * destruct He as [<- | [<- | []]]; [reflexivity | discriminate].
      * exfalso. apply (Hnone (userNamed 10 "asha")); [left|]; reflexivity.
    + destruct (H2 "dealer" User 12%N) as [(e & He & Hid & _) | [_ ->]];
        [right; left; reflexivity | reflexivity | reflexivity | | reflexivity].
      destruct He as [<- | [<- | []]]; discriminate.
    + rewrite H1' by (left; simpl; intuition discriminate). reflexivity.
Defined.
